(** * Port-Hamiltonian training of neural-network weights: a verification
      development for [PHNN/numpy_simple.py], [PHNN/phnn.py],
      [PHNN/predictors.py] and [PHNN/utils.py].

    Numbers.  The Python code computes with IEEE doubles (numpy) and
    single-precision tensors (torch).  Here every scalar is a real number of
    the Standard Library: the development verifies the arithmetic the code
    writes down, not its rounding.  Where numpy would silently produce
    [inf]/[nan] (an array divided by a zero scalar) the model stops with the
    outcome [NonFinite], since such values have no real-number counterpart.

    Arrays.  A one-dimensional numpy array or torch tensor is a [list R]; a
    two-dimensional one is the list of its rows.  Python exceptions are
    values of [exn], and a function that may raise returns a [result]. *)

From Stdlib Require Import String Reals Lra Lia List Arith PeanoNat Bool.
Import ListNotations.
Local Open Scope R_scope.

(** ** Outcomes of Python code *)

Inductive exn : Type :=
| IndexError          (* subscript out of range *)
| ValueError          (* numpy shape mismatch: broadcast, reshape, stacking *)
| ZeroDivisionError   (* division of Python scalars by zero *)
| StopIteration       (* [next] on an exhausted iterator *)
| RuntimeError        (* torch shape or size mismatch *)
| NonFinite.          (* numpy array divided by a zero scalar: inf / nan *)

Inductive result (A : Type) : Type :=
| Ok (a : A)
| Raise (e : exn).
Arguments Ok {A} a.
Arguments Raise {A} e.

Definition bind {A B : Type} (m : result A) (k : A -> result B) : result B :=
  match m with
  | Ok a => k a
  | Raise e => Raise e
  end.

Declare Scope py_scope.
Delimit Scope py_scope with py.
Notation "x <- m ;; k" := (bind m (fun x => k))
  (at level 61, m at next level, right associativity) : py_scope.
Local Open Scope py_scope.

(** [mapM f l]: run [f] on the elements of [l] from left to right, stopping
    at the first exception. *)
Fixpoint mapM {A B : Type} (f : A -> result B) (l : list A) : result (list B) :=
  match l with
  | [] => Ok []
  | a :: l' => b <- f a ;; bs <- mapM f l' ;; Ok (b :: bs)
  end.

(** A [for] loop over the items of [l] that threads the loop-carried
    variables [s] and stops at the first exception. *)
Fixpoint for_each {A S : Type} (l : list A) (body : S -> A -> result S)
    (s : S) : result S :=
  match l with
  | [] => Ok s
  | i :: l' => s' <- body s i ;; for_each l' body s'
  end.

(** ** The numpy operations the code uses *)

Module Np.

(** [v[i]] for a non-negative index. *)
Definition getitem {A : Type} (v : list A) (i : nat) : result A :=
  match nth_error v i with
  | Some a => Ok a
  | None => Raise IndexError
  end.

(** [v[lo:hi]] for non-negative bounds: out-of-range bounds are clamped. *)
Definition slice {A : Type} (v : list A) (lo hi : nat) : list A :=
  firstn (hi - lo) (skipn lo v).

(** [v[-1]]. *)
Definition last_item {A : Type} (v : list A) : result A :=
  match rev v with
  | a :: _ => Ok a
  | [] => Raise IndexError
  end.

(** [v[lo:-1]]. *)
Definition slice_to_last {A : Type} (v : list A) (lo : nat) : list A :=
  slice v lo (length v - 1).

Fixpoint zip_with (op : R -> R -> R) (u v : list R) : list R :=
  match u, v with
  | a :: u', b :: v' => op a b :: zip_with op u' v'
  | _, _ => []
  end.

(** Element-wise binary operation on two 1-D arrays with numpy
    broadcasting: equal lengths, or one operand of length one. *)
Definition broadcast (op : R -> R -> R) (u v : list R) : result (list R) :=
  if (length u =? length v)%nat then Ok (zip_with op u v)
  else match u, v with
       | [a], _ => Ok (map (op a) v)
       | _, [b] => Ok (map (fun a => op a b) u)
       | _, _ => Raise ValueError
       end.

Definition add := broadcast Rplus.
Definition sub := broadcast Rminus.

(** [s * v] for a scalar [s]. *)
Definition scale (s : R) (v : list R) : list R := map (Rmult s) v.

(** [-v]. *)
Definition neg (v : list R) : list R := map Ropp v.

(** [v / s] for a scalar [s]. *)
Definition div_scalar (v : list R) (s : R) : result (list R) :=
  if Req_dec_T s 0 then Raise NonFinite else Ok (map (fun a => a / s) v).

Definition sum (v : list R) : R := fold_right Rplus 0 v.

(** [u.dot(v)] for 1-D arrays. *)
Definition dot (u v : list R) : result R :=
  if (length u =? length v)%nat then Ok (sum (zip_with Rmult u v))
  else Raise ValueError.

(** [np.zeros(n)]. *)
Definition zeros (n : nat) : list R := repeat 0 n.

(** [np.zeros((n, m))]. *)
Definition zeros2 (n m : nat) : list (list R) := repeat (zeros m) n.

(** [np.eye(n)]. *)
Definition eye (n : nat) : list (list R) :=
  map (fun i => map (fun j => if (i =? j)%nat then 1 else 0) (seq 0 n)) (seq 0 n).

(** Scalar times matrix, and matrix negation. *)
Definition scale2 (s : R) (m : list (list R)) : list (list R) := map (scale s) m.
Definition neg2 (m : list (list R)) : list (list R) := map neg m.

Fixpoint zip_rows (a b : list (list R)) : list (list R) :=
  match a, b with
  | r :: a', s :: b' => (r ++ s) :: zip_rows a' b'
  | _, _ => []
  end.

(** [np.hstack((a, b))] for 2-D arrays: the row counts must agree. *)
Definition hstack2 (a b : list (list R)) : result (list (list R)) :=
  if (length a =? length b)%nat then Ok (zip_rows a b) else Raise ValueError.

Definition width (m : list (list R)) : nat :=
  match m with
  | r :: _ => length r
  | [] => 0%nat
  end.

(** [np.vstack((a, b))] for 2-D arrays: the column counts must agree. *)
Definition vstack2 (a b : list (list R)) : result (list (list R)) :=
  if (width a =? width b)%nat then Ok (a ++ b) else Raise ValueError.

(** [m.dot(v)] for a 2-D [m] and a 1-D [v]. *)
Definition matvec (m : list (list R)) (v : list R) : result (list R) :=
  if (width m =? length v)%nat
  then Ok (map (fun row => sum (zip_with Rmult row v)) m)
  else Raise ValueError.

End Np.

(** ** [PHNN/numpy_simple.py] *)

Module NumpySimple.

(** [simple_net(u, w)] *)
Definition simple_net (u w : list R) : result (list R) :=
  u1 <- Np.getitem u 0 ;; u2 <- Np.getitem u 1 ;;
  w11 <- Np.getitem w 0 ;; w12 <- Np.getitem w 1 ;; w13 <- Np.getitem w 2 ;;
  w21 <- Np.getitem w 3 ;; w22 <- Np.getitem w 4 ;; w23 <- Np.getitem w 5 ;;
  let y1 := w11*u1 + w12*u2 + w13 in
  let y2 := w21*u1 + w22*u2 + w23 in
  Ok [y1; y2].

(** [loss(x, u, yh, a, b, c)] *)
Definition loss (x u yh : list R) (a b c : R) : result R :=
  let n := (length x / 2)%nat in
  let w := Np.slice x 0 n in
  let dw := Np.slice x n (2*n) in
  y <- simple_net u w ;;
  J <- Np.sub yh y ;;
  JJ <- Np.dot J J ;;
  dd <- Np.dot dw dw ;;
  ww <- Np.dot w w ;;
  Ok (a*JJ + b*dd + c*ww).

(** [gradient(x, u, yh, a, b, c)] *)
Definition gradient (x u yh : list R) (a b c : R) : result (list R) :=
  let n := (length x / 2)%nat in
  let w := Np.slice x 0 n in
  let dw := Np.slice x n (2*n) in
  u1 <- Np.getitem u 0 ;; u2 <- Np.getitem u 1 ;;
  yh1 <- Np.getitem yh 0 ;; yh2 <- Np.getitem yh 1 ;;
  w11 <- Np.getitem w 0 ;; w12 <- Np.getitem w 1 ;; w13 <- Np.getitem w 2 ;;
  w21 <- Np.getitem w 3 ;; w22 <- Np.getitem w 4 ;; w23 <- Np.getitem w 5 ;;
  y <- simple_net u w ;;
  y0 <- Np.getitem y 0 ;; y1 <- Np.getitem y 1 ;;
  let dJ_w := Np.scale (2*a)
                [u1*(y0-yh1); u2*(y0-yh1); y0-yh1;
                 u1*(y1-yh2); u2*(y1-yh2); y1-yh2] in
  dw0 <- Np.getitem dw 0 ;; dw1 <- Np.getitem dw 1 ;; dw2 <- Np.getitem dw 2 ;;
  dw3 <- Np.getitem dw 3 ;; dw4 <- Np.getitem dw 4 ;; dw5 <- Np.getitem dw 5 ;;
  let dJ_dw := [2*b*dw0; 2*b*dw1; 2*b*dw2; 2*b*dw3; 2*b*dw4; 2*b*dw5] in
  let dJ := dJ_w ++ dJ_dw in
  let dJr := [2*c*w11; 2*c*w12; 2*c*w13; 2*c*w21; 2*c*w22; 2*c*w23;
              0; 0; 0; 0; 0; 0] in
  Np.add dJ dJr.

(** [hamiltonian_model(x, t, u, yh, beta, a, b, c)] *)
Definition hamiltonian_model (x : list R) (t : R) (u yh : list R)
    (beta a b c : R) : result (list R) :=
  let n := (length x / 2)%nat in
  dJ <- gradient x u yh a b c ;;
  dwdt <- Np.div_scalar (Np.slice dJ n (2*n)) b ;;
  q <- Np.div_scalar (Np.scale beta (Np.slice dJ n (2*n))) b ;;
  ddwdt <- Np.sub (Np.neg (Np.slice dJ 0 n)) q ;;
  Ok (dwdt ++ ddwdt).

(** [loss_batch(bs, x, U, Yh, a, b, c)].  With [bs = 0] the loop body never
    runs and [J_tot] is still the Python integer [0], so [J_tot/bs] raises. *)
Definition loss_batch (bs : nat) (x : list R) (U Yh : list (list R))
    (a b c : R) : result R :=
  J_tot <- for_each (seq 0 bs)
             (fun J_tot i =>
                u <- Np.getitem U i ;;
                yh <- Np.getitem Yh i ;;
                l <- loss x u yh a b c ;;
                Ok (J_tot + l)) 0 ;;
  if (bs =? 0)%nat then Raise ZeroDivisionError else Ok (J_tot / INR bs).

(** [gradient_batch(bs, x, U, Yh, a, b, c)] *)
Definition gradient_batch (bs : nat) (x : list R) (U Yh : list (list R))
    (a b c : R) : result (list R) :=
  let n := (length x / 2)%nat in
  dJ_tot <- for_each (seq 0 bs)
              (fun dJ_tot i =>
                 u <- Np.getitem U i ;;
                 yh <- Np.getitem Yh i ;;
                 g <- gradient x u yh a b c ;;
                 Np.add dJ_tot g) (Np.zeros (2*n)) ;;
  Np.div_scalar dJ_tot (INR bs).

(** The matrix [F] that [ham_mod_batch] assembles from [x] and [beta]
    before it looks at the data. *)
Definition ham_mod_batch_F (x : list R) (beta : R) : result (list (list R)) :=
  let n := (length x / 2)%nat in
  let On := Np.zeros2 n n in
  let In := Np.eye n in
  let B := Np.scale2 beta (Np.eye n) in
  top <- Np.hstack2 On In ;;
  bottom <- Np.hstack2 (Np.neg2 In) (Np.neg2 B) ;;
  Np.vstack2 top bottom.

(** [ham_mod_batch(x, t, bs, U, Yh, beta, a, b, c)] *)
Definition ham_mod_batch (x : list R) (t : R) (bs : nat) (U Yh : list (list R))
    (beta a b c : R) : result (list R) :=
  F <- ham_mod_batch_F x beta ;;
  dJ <- gradient_batch bs x U Yh a b c ;;
  Np.matvec F dJ.

(** *** [train]

    [odeint] is scipy's integrator, a collaborator of the code: it is a
    parameter of the model.  The model counts its invocations, so that a
    run records how many integration steps were started before it returned
    or raised. *)

Definition traced (A : Type) : Type := nat -> result A * nat.

Definition tret {A : Type} (a : A) : traced A := fun k => (Ok a, k).

Definition tbind {A B : Type} (m : traced A) (f : A -> traced B) : traced B :=
  fun k => match m k with
           | (Ok a, k') => f a k'
           | (Raise e, k') => (Raise e, k')
           end.

Definition lift {A : Type} (r : result A) : traced A := fun k => (r, k).

Notation "x <~ m ;; k" := (tbind m (fun x => k))
  (at level 61, m at next level, right associativity) : py_scope.

Fixpoint tfor_each {A S : Type} (l : list A) (body : S -> A -> traced S)
    (s : S) : traced S :=
  match l with
  | [] => tret s
  | i :: l' => s' <~ body s i ;; tfor_each l' body s'
  end.

Fixpoint chunks {A : Type} (count size : nat) (l : list A) : list (list A) :=
  match count with
  | O => []
  | S count' => firstn size l :: chunks count' size (skipn size l)
  end.

(** [X.reshape(nb, bs, d)] for a 2-D array [X]: the element count must be
    [nb*bs*d]; the elements are regrouped in row-major order. *)
Definition reshape3 (X : list (list R)) (nb bs d : nat)
    : result (list (list (list R))) :=
  let flat := concat X in
  if (length flat =? nb * bs * d)%nat
  then Ok (chunks nb bs (chunks (nb * bs) d flat))
  else Raise ValueError.

(** [np.array([[1,...,1], x0], dtype='float')]: the two rows must have the
    same length, twelve. *)
Definition two_rows (x0 : list R) : result (list (list R)) :=
  if (length x0 =? 12)%nat then Ok [repeat 1 12; x0] else Raise ValueError.

(** [np.vstack] on the trajectory records.  An array without rows stacks
    with anything here: the row list does not carry its column count. *)
Definition vstack_rows (a b : list (list R)) : result (list (list R)) :=
  match a, b with
  | [], _ | _, [] => Ok (a ++ b)
  | _, _ => Np.vstack2 a b
  end.

(** The records that [train] accumulates.  [J] starts as the 1-D array
    [[0.]], which [np.vstack] reads as the 1-by-1 array [[[0.]]]; [Jep]
    starts as a scalar, read by [np.vstack] in the same way.  Both are
    kept in their stacked form. *)
Record records : Type := mkRecords {
  xf : list (list R);
  tf : list R;
  J : list (list R);
  xep : list (list R);
  Jep : list (list R)
}.

Section Train.

Variable odeint : (list R -> R -> result (list R)) -> list R -> list R
                  -> result (list (list R)).

Definition call_odeint (f : list R -> R -> result (list R))
    (x0 t : list R) : traced (list (list R)) :=
  fun k => (odeint f x0 t, S k).

(** The body of the inner loop of [train] (one batch). *)
Definition train_batch (bs : nat) (Ub Yhb : list (list (list R)))
    (a b c beta : R) (t : list R) (r : records) (i : nat) : traced records :=
  U <~ lift (Np.getitem Ub i) ;;
  Yh <~ lift (Np.getitem Yhb i) ;;
  x0 <~ lift (Np.last_item (xf r)) ;;
  sol <~ call_odeint (fun x s => ham_mod_batch x s bs U Yh beta a b c) x0 t ;;
  xf' <~ lift (vstack_rows (xf r) sol) ;;
  tlast <~ lift (Np.last_item (tf r)) ;;
  let tf' := tf r ++ map (fun s => s + tlast) t in
  Ji <~ lift (mapM (fun row => l <- loss_batch bs row U Yh a b c ;; Ok [l]) sol) ;;
  J' <~ lift (vstack_rows (J r) Ji) ;;
  tret (mkRecords xf' tf' J' (xep r) (Jep r)).

(** The body of the outer loop of [train] (one epoch). *)
Definition train_epoch (bs N_batch : nat) (Ub Yhb : list (list (list R)))
    (a b c beta : R) (t : list R) (r : records) (j : nat) : traced records :=
  r1 <~ tfor_each (seq 0 N_batch) (train_batch bs Ub Yhb a b c beta t) r ;;
  xlast <~ lift (Np.last_item (xf r1)) ;;
  xep' <~ lift (vstack_rows (xep r1) [xlast]) ;;
  Jlast <~ lift (Np.last_item (J r1)) ;;
  Jep' <~ lift (vstack_rows (Jep r1) [Jlast]) ;;
  tret (mkRecords (xf r1) (tf r1) (J r1) xep' Jep').

(** [train(X, y, bs, epochs, x0, a, b, c, beta, t)].  [int(N_tot/bs)] is
    the integer quotient (the division is done in floating point, which is
    exact for the sizes of a dataset). *)
Definition train (X y : list (list R)) (bs epochs : nat) (x0 : list R)
    (a b c beta : R) (t : list R) : traced records :=
  let N_tot := length X in
  N_batch <~ lift (if (bs =? 0)%nat then Raise ZeroDivisionError
                   else Ok (N_tot / bs)%nat) ;;
  Ub <~ lift (reshape3 X N_batch bs 2) ;;
  Yhb <~ lift (reshape3 y N_batch bs 2) ;;
  xf0 <~ lift (two_rows x0) ;;
  let tf0 := [0] in
  let J0 := [[0]] in
  xep0 <~ lift (two_rows x0) ;;
  U0 <~ lift (Np.getitem Ub 0) ;;
  Yh0 <~ lift (Np.getitem Yhb 0) ;;
  Jep0 <~ lift (loss_batch bs x0 U0 Yh0 a b c) ;;
  r <~ tfor_each (seq 0 epochs)
         (train_epoch bs N_batch Ub Yhb a b c beta t)
         (mkRecords xf0 tf0 J0 xep0 [[Jep0]]) ;;
  tret (mkRecords (Np.slice_to_last (xf r) 2)
                  (Np.slice_to_last (tf r) 1)
                  (Np.slice_to_last (J r) 1)
                  (Np.slice_to_last (xep r) 1)
                  (Jep r)).

End Train.

(** [test(x, Xh, yh, trained, train_test)]; the two flags only select the
    message that is printed. *)
Definition test (x : list R) (Xh yh : list (list R))
    (trained train_test : bool) : result R :=
  let n := length yh in
  count_predicted <-
    for_each (seq 0 n)
      (fun count_predicted i =>
         xi <- Np.getitem Xh i ;;
         y <- simple_net xi x ;;
         y0 <- Np.getitem y 0 ;; y1 <- Np.getitem y 1 ;;
         if Rlt_dec y1 y0 then
           row <- Np.getitem yh i ;;
           r0 <- Np.getitem row 0 ;; r1 <- Np.getitem row 1 ;;
           if Rlt_dec r1 r0 then Ok (S count_predicted)
           else Ok count_predicted
         else Ok count_predicted) 0%nat ;;
  if (n =? 0)%nat then Raise ZeroDivisionError
  else Ok (INR count_predicted * 100 / INR n).

End NumpySimple.

(** ** [PHNN/phnn.py] *)

Module Phnn.

(** A torch tensor: its shape and its elements in row-major order. *)
Record tensor : Type := mkTensor { shape : list nat; data : list R }.

Definition shape_numel (s : list nat) : nat := fold_right Nat.mul 1%nat s.

(** [torch.numel(t)] *)
Definition numel (t : tensor) : nat := shape_numel (shape t).

(** Every tensor that torch builds holds as many elements as its shape says. *)
Definition wf_tensor (t : tensor) : Prop := length (data t) = numel t.

(** [t.view(-1)] *)
Definition view_flat (t : tensor) : list R := data t.

(** [v.view(s)] for a 1-D tensor [v]. *)
Definition view (v : list R) (s : list nat) : result tensor :=
  if (length v =? shape_numel s)%nat then Ok (mkTensor s v)
  else Raise RuntimeError.

(** Element-wise subtraction of 1-D tensors, with broadcasting. *)
Definition tsub (u v : list R) : result (list R) :=
  match Np.sub u v with
  | Ok r => Ok r
  | Raise _ => Raise RuntimeError
  end.

(** [v[lo:hi] = src] on a 1-D tensor: [src] has the length of the target
    slice, or length one. *)
Definition set_slice (v : list R) (lo hi : nat) (src : list R)
    : result (list R) :=
  let k := length (Np.slice v lo hi) in
  if (length src =? k)%nat
  then Ok (firstn lo v ++ src ++ skipn (lo + k) v)
  else match src with
       | [s] => Ok (firstn lo v ++ repeat s k ++ skipn (lo + k) v)
       | _ => Raise RuntimeError
       end.

(** The state dict of a predictor, in its own key order.  For the [MLP]
    predictor every entry is a parameter ([nn.Linear] has a weight and a
    bias and no buffer), so [parameters()] lists the same tensors in the
    same order. *)
Definition state_dict_t : Type := list (string * tensor).

Definition parameters (sd : state_dict_t) : list tensor := map snd sd.

(** The fields of a [PHNN] object that the modelled methods read or write. *)
Record PHNN : Type := mkPHNN {
  predictor : state_dict_t;
  len : nat;
  lenp : nat;
  hparams : list R;
  beta : R;
  flat_w : list R;
  flat_wdot : list R;
  dJ : list tensor;
  dJddw : list R;
  flat_dJ : list R;
  flat_dJddw : list R;
  time : nat
}.

Definition with_predictor (self : PHNN) (p : state_dict_t) : PHNN :=
  mkPHNN p (len self) (lenp self) (hparams self) (beta self) (flat_w self)
    (flat_wdot self) (dJ self) (dJddw self) (flat_dJ self) (flat_dJddw self)
    (time self).

Definition with_state (self : PHNN) (w wdot : list R) : PHNN :=
  mkPHNN (predictor self) (len self) (lenp self) (hparams self) (beta self)
    w wdot (dJ self) (dJddw self) (flat_dJ self) (flat_dJddw self) (time self).

Definition with_gradient (self : PHNN) (g : list tensor) (gd : list R) : PHNN :=
  mkPHNN (predictor self) (len self) (lenp self) (hparams self) (beta self)
    (flat_w self) (flat_wdot self) g gd (flat_dJ self) (flat_dJddw self)
    (time self).

Definition with_flat_gradient (self : PHNN) (g gd : list R) : PHNN :=
  mkPHNN (predictor self) (len self) (lenp self) (hparams self) (beta self)
    (flat_w self) (flat_wdot self) (dJ self) (dJddw self) g gd (time self).

Definition with_time (self : PHNN) (k : nat) : PHNN :=
  mkPHNN (predictor self) (len self) (lenp self) (hparams self) (beta self)
    (flat_w self) (flat_wdot self) (dJ self) (dJddw self) (flat_dJ self)
    (flat_dJddw self) k.

(** [next(itr)] on an iterator over the remaining items. *)
Definition next {A : Type} (itr : list A) : result (A * list A) :=
  match itr with
  | a :: itr' => Ok (a, itr')
  | [] => Raise StopIteration
  end.

(** [flattenParamVector(self)] *)
Definition flattenParamVector (self : PHNN) : result (list R) :=
  let itr := parameters (predictor self) in
  first <- next itr ;;
  r <- for_each (seq 1 (lenp self - 1))
         (fun (s : list R * list tensor) (i : nat) =>
            p <- next (snd s) ;;
            Ok (fst s ++ view_flat (fst p), snd p))
         (view_flat (fst first), snd first) ;;
  Ok (fst r).

(** [makeStateDict(self)]: the dict [d] in insertion order, with the
    running offset [k]. *)
Definition makeStateDict (self : PHNN) : result state_dict_t :=
  r <- for_each (predictor self)
         (fun (s : state_dict_t * nat) (entry : string * tensor) =>
            let (d, k) := s in
            let key := fst entry in
            let num_el := numel (snd entry) in
            t <- view (Np.slice (flat_w self) k (k + num_el))
                      (shape (snd entry)) ;;
            Ok (d ++ [(key, t)], (k + num_el)%nat))
         ([], 0%nat) ;;
  Ok (fst r).

(** [__init__]: the part that sets the fields above, for a freshly built
    predictor [p]; [rand i] is the [i]-th number that [torch.rand] draws for
    the initial velocities, one per weight. *)
Definition init (p : state_dict_t) (hp : list R) (b : R) (rand : nat -> R)
    : result PHNN :=
  let self := mkPHNN p (length p) (length (parameters p)) hp b [] [] [] []
                [] [] 0 in
  w <- flattenParamVector self ;;
  Ok (with_state self w (map rand (seq 0 (length w)))).

(** A sparse COO tensor: one index pair per stored value. *)
Record sparse : Type := mkSparse {
  indices : list (nat * nat);
  values : list R;
  size : nat * nat
}.

(** [torch.sparse.FloatTensor(i, v, size)]: as many index pairs as values,
    every index inside [size]. *)
Definition sparse_tensor (i : list (nat * nat)) (v : list R) (sz : nat * nat)
    : result sparse :=
  if negb (length i =? length v)%nat then Raise RuntimeError
  else if forallb (fun rc => (fst rc <? fst sz)%nat && (snd rc <? snd sz)%nat) i
  then Ok (mkSparse i v sz)
  else Raise RuntimeError.

(** The entry of a sparse tensor at row [r], column [c]: the sum of the
    values stored for that index pair. *)
Definition sparse_get (F : sparse) (r c : nat) : R :=
  Np.sum (map snd
            (filter (fun e => (fst (fst e) =? r)%nat && (snd (fst e) =? c)%nat)
                    (combine (indices F) (values F)))).

(** [makeFMatrix(self)] *)
Definition makeFMatrix (self : PHNN) : result sparse :=
  let n := length (flat_wdot self) in
  let i1 := [(0, n)]%nat ++ map (fun i => (i, n + i)%nat) (seq 1 (n - 1)) in
  let i2 := [(n, 0)]%nat ++ map (fun i => (n + i, i)%nat) (seq 1 (n - 1)) in
  let i3 := [(n, n)]%nat ++ map (fun i => (n + i, n + i)%nat) (seq 1 (n - 1)) in
  let i := i1 ++ i2 ++ i3 in
  let v := repeat 1 n ++ Np.scale (-1) (repeat 1 n)
           ++ Np.scale (- beta self) (repeat 1 n) in
  sparse_tensor i v (2 * n, 2 * n)%nat.

(** [assignNewState(self, xi)] *)
Definition assignNewState (self : PHNN) (xi : list R) : PHNN :=
  let w := Np.slice xi 0 (length (flat_w self)) in
  let wdot := Np.slice xi (length w) (2 * length w) in
  with_state self w wdot.

(** [loadStateDict(self)]: the rebuilt predictor has the keys and shapes of
    the old one, which are those of the dict that is loaded into it. *)
Definition loadStateDict (self : PHNN) : result PHNN :=
  new_state_dict <- makeStateDict self ;;
  Ok (with_predictor self new_state_dict).

(** [tensor + scalar] *)
Definition add_scalar (t : tensor) (s : R) : tensor :=
  mkTensor (shape t) (map (fun v => v + s) (data t)).

Fixpoint map_add (gs : list tensor) (reg : list R) : list tensor :=
  match gs, reg with
  | g :: gs', r :: reg' => add_scalar g r :: map_add gs' reg'
  | _, _ => []
  end.

(** [gradient(self)]; [grads] are the [.grad] fields of the parameters, in
    order, as left by [loss.backward()]. *)
Definition gradient (self : PHNN) (grads : list tensor) : result PHNN :=
  b <- Np.getitem (hparams self) 1 ;;
  let dJddw := Np.scale (2 * b) (flat_wdot self) in
  c <- Np.getitem (hparams self) 2 ;;
  let dJ_reg := Np.scale (2 * c) (flat_w self) in
  if (length grads <? len self)%nat then Raise StopIteration
  else Ok (with_gradient self (map_add (firstn (len self) grads) dJ_reg) dJddw).

(** [flattenGradient(self)] *)
Definition flattenGradient (self : PHNN) : result (list R * list R) :=
  first <- Np.getitem (dJ self) 0 ;;
  g <- for_each (seq 1 (len self - 1))
         (fun g i => t <- Np.getitem (dJ self) i ;; Ok (g ++ view_flat t))
         (view_flat first) ;;
  Ok (g, dJddw self).

(** [assignFlatGradient(self)] *)
Definition assignFlatGradient (self : PHNN) : result PHNN :=
  g <- flattenGradient self ;;
  Ok (with_flat_gradient self (fst g) (snd g)).

(** [getConcatGradient(self)] *)
Definition getConcatGradient (self : PHNN) : list R :=
  flat_dJ self ++ flat_dJddw self.

(** The "actual ODE calcs" of [forward]: [dxdt] from [grad_flat]. *)
Definition ode_calcs (self : PHNN) (grad_flat : list R) : result (list R) :=
  let dxdt := Np.zeros (length grad_flat) in
  let n := (length dxdt / 2)%nat in
  dxdt <- set_slice dxdt 0 n (Np.slice grad_flat n (2 * n)) ;;
  bottom <- tsub (Np.scale (-1) (Np.slice grad_flat 0 n))
                 (Np.scale (1 * beta self) (Np.slice grad_flat n (2 * n))) ;;
  set_slice dxdt n (2 * n) bottom.

Section Collaborators.

(** The automatic differentiation of the criterion on the fixed batch:
    the [.grad] of every parameter of the given predictor. *)
Variable backward : state_dict_t -> list tensor.

(** [forward(self, t, xi)]: the new object state and the returned
    [dxdt].  The optional recording for the plots is left out. *)
Definition forward (self : PHNN) (t : R) (xi : list R)
    : result (PHNN * list R) :=
  let self := assignNewState self xi in
  self <- loadStateDict self ;;
  let grads := backward (predictor self) in
  self <- gradient self grads ;;
  self <- assignFlatGradient self ;;
  let grad_flat := getConcatGradient self in
  dxdt <- ode_calcs self grad_flat ;;
  Ok (with_time self (time self + 1), dxdt).

(** The inputs of a batch are opaque to the evaluator; [predict] is
    [predictor.forward], one row of class log-probabilities per sample. *)
Variable input : Type.
Variable predict : state_dict_t -> input -> list (list R).

Fixpoint argmax_from (best : R) (besti i : nat) (l : list R) : nat :=
  match l with
  | [] => besti
  | v :: l' => if Rlt_dec best v then argmax_from v i (S i) l'
               else argmax_from best besti (S i) l'
  end.

(** The index that [torch.max(..., 1)] returns for one row. *)
Definition argmax (row : list R) : result nat :=
  match row with
  | [] => Raise RuntimeError
  | v :: l => Ok (argmax_from v 0 1 l)
  end.

(** [pred_accuracy(self, testloader)] *)
Definition pred_accuracy (self : PHNN) (testloader : list (input * list nat))
    : result R :=
  r <- for_each testloader
         (fun (s : nat * nat) (d : input * list nat) =>
            let (x, y) := d in
            idx <- mapM argmax (map (map exp) (predict (predictor self) x)) ;;
            for_each (seq 0 (length idx))
              (fun (s : nat * nat) (i : nat) =>
                 let (tot, count) := s in
                 p <- Np.getitem idx i ;;
                 l <- Np.getitem y i ;;
                 let count := if (p =? l)%nat then S count else count in
                 Ok (S tot, count)) s)
         (0%nat, 0%nat) ;;
  let (tot, count) := r in
  if (tot =? 0)%nat then Raise ZeroDivisionError
  else Ok (INR count / INR tot).

End Collaborators.


(** [torch.dot(u, v)] for 1-D tensors. *)
Definition tdot (u v : list R) : result R :=
  match Np.dot u v with
  | Ok r => Ok r
  | Raise _ => Raise RuntimeError
  end.

(** [additionalTermsLoss(self)] *)
Definition additionalTermsLoss (self : PHNN) : result R :=
  b <- Np.getitem (hparams self) 1 ;;
  dd <- tdot (flat_wdot self) (flat_wdot self) ;;
  c <- Np.getitem (hparams self) 2 ;;
  ww <- tdot (flat_w self) (flat_w self) ;;
  Ok (b * dd + c * ww).

End Phnn.

(** ** [PHNN/predictors.py] *)

Module Predictors.

(** An [nn.Linear(in, out)] layer: the [out]-by-[in] weight and the bias of
    [out] entries. *)
Record linear : Type := mkLinear { weight : list (list R); bias : list R }.

(** The fields of an [MLP] object. *)
Record MLP : Type := mkMLP { dense_layers : list linear; softmax : bool }.

(** What [forward] can end in: a value, an exception of the numeric layer,
    or Python's [UnboundLocalError]. *)
Inductive outcome (A : Type) : Type :=
| Returns (a : A)
| Fails (e : exn)
| UnboundLocalError.
Arguments Returns {A} a.
Arguments Fails {A} e.
Arguments UnboundLocalError {A}.

(** [getLength(self)] *)
Definition getLength (self : MLP) : nat := length (dense_layers self).

(** [l(x)] for a linear layer and a batch of rows: [x @ W^T + b].  Every
    row of [x] must have the [in] entries of the rows of [W]. *)
Definition apply_linear (l : linear) (x : list (list R)) : result (list (list R)) :=
  mapM (fun r =>
          if forallb (fun w => (length w =? length r)%nat) (weight l)
          then match Np.add (map (fun w => Np.sum (Np.zip_with Rmult r w))
                                 (weight l)) (bias l) with
               | Ok y => Ok y
               | Raise _ => Raise RuntimeError
               end
          else Raise RuntimeError) x.

(** [F.softplus(v, beta=10, threshold=20)] on one number: the function
    reverts to the identity when [beta * v] exceeds the threshold. *)
Definition softplus (v : R) : R :=
  if Rlt_dec 20 (10 * v) then v else / 10 * ln (1 + exp (10 * v)).

(** [F.log_softmax(row, dim=-1)] on one row. *)
Definition log_softmax (row : list R) : list R :=
  map (fun v => v - ln (Np.sum (map exp row))) row.

(** The loop of [forward]: [l_x] is unbound until the first layer has run. *)
Fixpoint run_layers (layers : list linear) (l_x : option (list (list R)))
    (x : list (list R)) : result (option (list (list R)) * list (list R)) :=
  match layers with
  | [] => Ok (l_x, x)
  | l :: layers' =>
      y <- apply_linear l x ;;
      run_layers layers' (Some y) (map (map softplus) y)
  end.

(** [forward(self, x)] for a batch [x] of rows.  [x.view(x.size(0), -1)]
    leaves such a batch as it is, and raises on a batch without rows, where
    the size behind [-1] cannot be inferred. *)
Definition forward (self : MLP) (x : list (list R)) : outcome (list (list R)) :=
  match x with
  | [] => Fails RuntimeError
  | _ =>
      match run_layers (dense_layers self) None x with
      | Raise e => Fails e
      | Ok (None, _) => UnboundLocalError
      | Ok (Some l_x, _) =>
          if negb (softmax self) then Returns l_x
          else Returns (map log_softmax l_x)
      end
  end.

End Predictors.

(** ** [PHNN/utils.py] *)

Module Utils.

(** [torch.linspace(start, stop, steps)]: [steps] evenly spaced numbers from
    [start] to [stop], both included. *)
Definition linspace (start stop : R) (steps : nat) : list R :=
  match steps with
  | O => []
  | S O => [start]
  | _ => map (fun i => start + INR i * ((stop - start) / INR (steps - 1)))
             (seq 0 steps)
  end.

(** [genpoints(xmin, xmax, ymin, ymax, n_points)]: the rows of the returned
    tensor. *)
Definition genpoints (xmin xmax ymin ymax : R) (n_points : nat)
    : result (list (list R)) :=
  let xx := linspace xmin xmax n_points in
  let yy := linspace ymin ymax n_points in
  for_each (seq 0 n_points)
    (fun p i =>
       for_each (seq 0 n_points)
         (fun p j =>
            xi <- Np.getitem xx i ;;
            yj <- Np.getitem yy j ;;
            Ok (p ++ [[xi; yj]])) p) [].

End Utils.

Import NumpySimple.

(** * Vocabulary of the statements *)

(** The state [x] with its [i]-th coordinate moved to [t]. *)
Fixpoint with_coord (x : list R) (i : nat) (t : R) : list R :=
  match x, i with
  | [], _ => []
  | _ :: x', O => t :: x'
  | v :: x', S i' => v :: with_coord x' i' t
  end.

(** Two lists of reals that agree entry by entry up to ring identities. *)
Ltac list_ring :=
  repeat (apply (f_equal2 (@cons R)); [ring|]); reflexivity.

(** The entry of a dense matrix at row [i], column [j]. *)
Definition entry (F : list (list R)) (i j : nat) : R := nth j (nth i F []) 0.

(** The block pattern [[0, I], [-I, -beta*I]] of a [2n]-by-[2n] matrix that
    is read through [get]. *)
Definition block_structure (get : nat -> nat -> R) (n : nat) (beta : R) : Prop :=
  forall i j, (i < n)%nat -> (j < n)%nat ->
    get i j = 0 /\
    get i (n + j)%nat = (if (i =? j)%nat then 1 else 0) /\
    get (n + i)%nat j = - (if (i =? j)%nat then 1 else 0) /\
    get (n + i)%nat (n + j)%nat = - (beta * (if (i =? j)%nat then 1 else 0)).

(** The per-sample values that the batch functions average. *)
Definition sample_losses (k : nat) (x : list R) (U Yh : list (list R))
    (a b c : R) : result (list R) :=
  mapM (fun i => loss x (nth i U []) (nth i Yh []) a b c) (seq 0 k).

Definition sample_gradients (k : nat) (x : list R) (U Yh : list (list R))
    (a b c : R) : result (list (list R)) :=
  mapM (fun i => gradient x (nth i U []) (nth i Yh []) a b c) (seq 0 k).

(** The arithmetic mean of a list of numbers, and the entry-wise arithmetic
    mean of a list of vectors with [d] entries. *)
Definition mean (l : list R) : R := Np.sum l / INR (length l).

Definition mean_vec (d : nat) (gs : list (list R)) : list R :=
  map (fun j => mean (map (fun g => nth j g 0) gs)) (seq 0 d).

(** A batch of [bs] samples with two inputs and two targets each. *)
Definition batch_ok (bs : nat) (U Yh : list (list R)) : Prop :=
  length U = bs /\ length Yh = bs /\
  Forall (fun u => length u = 2%nat) U /\
  Forall (fun yh => length yh = 2%nat) Yh.

(** The codec as the specification words it: [flatten] concatenates the
    parameter tensors in order, [unflatten] cuts a flat vector along the
    shapes of a state dict. *)
Definition flatten (sd : Phnn.state_dict_t) : list R :=
  concat (map Phnn.data (Phnn.parameters sd)).

Fixpoint unflatten (sd : Phnn.state_dict_t) (v : list R) : Phnn.state_dict_t :=
  match sd with
  | [] => []
  | (key, t) :: sd' =>
      (key, Phnn.mkTensor (Phnn.shape t) (firstn (Phnn.numel t) v))
      :: unflatten sd' (skipn (Phnn.numel t) v)
  end.

Fixpoint total_numel (sd : Phnn.state_dict_t) : nat :=
  match sd with
  | [] => 0%nat
  | (_, t) :: sd' => (Phnn.numel t + total_numel sd')%nat
  end.

(** A small predictor for the worked examples: [MLP([2, 1])], one linear
    layer with a 1-by-2 weight and a bias. *)
Definition example_predictor : Phnn.state_dict_t :=
  [("dense_layers.0.weight"%string, Phnn.mkTensor [1; 2]%nat [1; 2]);
   ("dense_layers.0.bias"%string, Phnn.mkTensor [1%nat] [3])].

(** A differentiation result with the shapes of the parameters. *)
Definition example_backward (sd : Phnn.state_dict_t) : list Phnn.tensor :=
  map (fun e => Phnn.mkTensor (Phnn.shape (snd e))
                  (map (fun v => 2 * v) (Phnn.data (snd e)))) sd.

Definition example_phnn : Phnn.PHNN :=
  Phnn.mkPHNN example_predictor 2 2 [1; 1; 0] 3 [1; 2; 3] [0; 0; 0]
    [] [] [] [] 0.

(** The class of a two-output row: 0 when the first output is the larger
    one, 1 otherwise. *)
Definition label (v : list R) : nat :=
  if Rlt_dec (nth 1 v 0) (nth 0 v 0) then 0%nat else 1%nat.

(** The number of positions on which predicted and reference labels agree. *)
Definition agreements (samples : list (nat * nat)) : nat :=
  length (filter (fun p => (fst p =? snd p)%nat) samples).

(** The labels that [pred_accuracy] derives for one batch, and the
    (predicted, reference) pairs of a whole loader. *)
Definition predicted_labels {input : Type}
    (predict : Phnn.state_dict_t -> input -> list (list R))
    (self : Phnn.PHNN) (x : input) : result (list nat) :=
  mapM Phnn.argmax (map (map exp) (predict (Phnn.predictor self) x)).

Definition loader_samples {input : Type}
    (predict : Phnn.state_dict_t -> input -> list (list R))
    (self : Phnn.PHNN) (testloader : list (input * list nat))
    : list (nat * nat) :=
  concat (map (fun d => match predicted_labels predict self (fst d) with
                        | Ok idx => combine idx (snd d)
                        | Raise _ => []
                        end) testloader).

(** Every batch yields labels, and has a reference label for each. *)
Definition loader_ok {input : Type}
    (predict : Phnn.state_dict_t -> input -> list (list R))
    (self : Phnn.PHNN) (testloader : list (input * list nat)) : Prop :=
  Forall (fun d => exists idx, predicted_labels predict self (fst d) = Ok idx /\
                               (length idx <= length (snd d))%nat) testloader.

(** Replace the computation at the head of a [bind] by its outcome [H]. *)
Ltac run_head H :=
  match type of H with
  | _ = ?r =>
      match goal with
      | |- bind ?m _ = _ => replace m with r by (symmetry; exact H)
      end
  end.

(** A predictor output for the worked examples: two samples whose
    predicted classes are 0 and 1. *)
Definition example_predict (sd : Phnn.state_dict_t) (x : unit) : list (list R) :=
  [[0; -1]; [-1; 0]].

(** A stand-in integrator for the worked examples: it holds the state
    constant along the time grid. *)
Definition example_odeint (f : list R -> R -> result (list R))
    (x0 t : list R) : result (list (list R)) :=
  Ok (map (fun _ => x0) t).

(** The contract of the integrator: on a vector field that is defined on
    states of the size of [x0], it returns one state of that size per point
    of the time grid. *)
Definition odeint_contract
    (odeint : (list R -> R -> result (list R)) -> list R -> list R
              -> result (list (list R))) : Prop :=
  forall f x0 t,
    (forall x s, length x = length x0 ->
                 exists v, f x s = Ok v /\ length v = length x0) ->
    exists sol, odeint f x0 t = Ok sol /\ length sol = length t /\
                Forall (fun row => length row = length x0) sol.

(** The shape of the records after [m] integrations and [e] epochs, on a
    time grid with [L] points. *)
Definition records_shape (m e L : nat) (r : records) : Prop :=
  length (xf r) = (2 + m * L)%nat /\
  Forall (fun row => length row = 12%nat) (xf r) /\
  length (tf r) = (1 + m * L)%nat /\
  length (J r) = (1 + m * L)%nat /\
  Forall (fun row => length row = 1%nat) (J r) /\
  length (xep r) = (2 + e)%nat /\
  Forall (fun row => length row = 12%nat) (xep r) /\
  length (Jep r) = (1 + e)%nat /\
  Forall (fun row => length row = 1%nat) (Jep r).

(** The output of the linear predictor with weights [x] on the input [xi]
    (empty when [simple_net] raises). *)
Definition net_output (x xi : list R) : list R :=
  match simple_net xi x with
  | Ok y => y
  | Raise _ => []
  end.

(** The samples that [test] counts: prediction and reference both put the
    first output strictly first. *)
Definition counted (x : list R) (Xh yh : list (list R)) (i : nat) : bool :=
  (label (net_output x (nth i Xh [])) =? 0)%nat && (label (nth i yh []) =? 0)%nat.

Definition count_predicted_of (x : list R) (Xh yh : list (list R)) : nat :=
  length (filter (counted x Xh yh) (seq 0 (length yh))).

(** The sum of the squares of the entries of a vector. *)
Definition sum_squares (v : list R) : R := Np.sum (map (fun a => a * a) v).

(** Two lists of reals that agree entry by entry up to field identities. *)
Ltac list_field :=
  repeat (apply (f_equal2 (@cons R)); [field; try assumption|]); reflexivity.

(** The weight half of the flat gradient as [gradient] and
    [flattenGradient] build it: the [k]-th gradient tensor with the number
    [2*c*w_k] added to each of its entries, tensors in order. *)
Definition regularised_flat (c : R) (grads : list Phnn.tensor) (w : list R)
    : list R :=
  concat (map (fun p => map (fun v => v + 2 * c * snd p) (Phnn.data (fst p)))
              (combine grads w)).

(** The layers of an [MLP] fit an input of [d] features: every weight row
    of a layer has as many entries as the layer has inputs, the bias has one
    entry per weight row, and the next layer takes what this one gives. *)
Fixpoint layers_fit (d : nat) (layers : list Predictors.linear) : Prop :=
  match layers with
  | [] => True
  | l :: layers' =>
      Forall (fun w => length w = d) (Predictors.weight l) /\
      length (Predictors.bias l) = length (Predictors.weight l) /\
      layers_fit (length (Predictors.weight l)) layers'
  end.

(** The number of outputs of the last layer. *)
Definition out_features (layers : list Predictors.linear) : nat :=
  length (Predictors.weight (last layers (Predictors.mkLinear [] []))).

(** [MLP([2, 2])] with the identity as weight and no bias, for the worked
    examples. *)
Definition example_mlp_layers : list Predictors.linear :=
  [Predictors.mkLinear [[1; 0]; [0; 1]] [0; 0]].

(** * Properties *)

(** ** Partial derivatives of the loss *)

(** A function that is a polynomial of degree two in [t], written through
    three of its values, has the expected derivative. *)
Lemma quadratic_derivative (f : R -> R) (x l : R) :
  let p := (f 1 + f (-1)) / 2 - f 0 in
  let q := (f 1 - f (-1)) / 2 in
  (forall t, f t = p * t * t + q * t + f 0) ->
  l = 2 * p * x + q ->
  derivable_pt_lim f x l.
Proof.
  intros p q Hf Hl eps Heps.
  assert (Hpos : 0 < eps / (Rabs p + 1)).
  { apply Rdiv_lt_0_compat; [assumption|]. pose proof (Rabs_pos p). lra. }
  exists (mkposreal _ Hpos). simpl. intros h Hh Hlt.
  rewrite (Hf (x + h)), (Hf x), Hl.
  replace ((p * (x + h) * (x + h) + q * (x + h) + f 0 -
            (p * x * x + q * x + f 0)) / h - (2 * p * x + q))
    with (p * h) by (field; assumption).
  rewrite Rabs_mult.
  pose proof (Rabs_pos p) as Hp.
  pose proof (Rabs_pos h) as Hh'.
  assert (Hmul : Rabs p * Rabs h <= Rabs p * (eps / (Rabs p + 1))).
  { apply Rmult_le_compat_l; lra. }
  assert (Hlt2 : Rabs p * (eps / (Rabs p + 1)) < eps).
  { unfold Rdiv. rewrite <- Rmult_assoc, (Rmult_comm (Rabs p) eps), Rmult_assoc.
    rewrite <- (Rmult_1_r eps) at 2.
    apply Rmult_lt_compat_l; [assumption|].
    apply (Rmult_lt_reg_r (Rabs p + 1)); [lra|].
    rewrite Rmult_assoc, Rinv_l; lra. }
  lra.
Qed.

Lemma length_12 {A : Type} (x : list A) :
  length x = 12%nat ->
  exists a0 a1 a2 a3 a4 a5 a6 a7 a8 a9 a10 a11,
    x = [a0; a1; a2; a3; a4; a5; a6; a7; a8; a9; a10; a11].
Proof.
  intro H.
  do 12 (destruct x as [|? x]; [discriminate H|]).
  destruct x; [|discriminate H].
  repeat eexists.
Qed.

(** C1: on a state of twelve entries, with two inputs and two targets,
    [gradient] returns a vector [g] of twelve entries whose [i]-th entry is
    the derivative of [loss] in the [i]-th coordinate of the state, for
    every [i]; its velocity half is [2*b*dw] (no regularisation term there)
    and its weight half is the data term, differentiated through the linear
    map, plus [2*c*w]. *)
Theorem gradient_is_derivative_of_loss (x u yh : list R) (a b c : R) :
  length x = 12%nat -> (2 <= length u)%nat -> length yh = 2%nat ->
  exists g y,
    gradient x u yh a b c = Ok g /\
    simple_net u (firstn 6 x) = Ok y /\
    length g = 12%nat /\
    (forall i, (i < 12)%nat ->
       exists f, (forall t, loss (with_coord x i t) u yh a b c = Ok (f t)) /\
                 derivable_pt_lim f (nth i x 0) (nth i g 0)) /\
    skipn 6 g = map (fun d => 2 * b * d) (skipn 6 x) /\
    firstn 6 g =
      Np.zip_with Rplus
        (Np.scale (2 * a)
           [nth 0 u 0 * (nth 0 y 0 - nth 0 yh 0);
            nth 1 u 0 * (nth 0 y 0 - nth 0 yh 0);
            nth 0 y 0 - nth 0 yh 0;
            nth 0 u 0 * (nth 1 y 0 - nth 1 yh 0);
            nth 1 u 0 * (nth 1 y 0 - nth 1 yh 0);
            nth 1 y 0 - nth 1 yh 0])
        (Np.scale (2 * c) (firstn 6 x)).
Proof.
  intros Hx Hu Hyh.
  destruct (length_12 x Hx) as (w0 & w1 & w2 & w3 & w4 & w5 &
                                 d0 & d1 & d2 & d3 & d4 & d5 & ->).
  destruct u as [|u1 [|u2 u']]; simpl in Hu; try lia.
  destruct yh as [|yh1 [|yh2 [|? ?]]]; try discriminate Hyh.
  eexists. eexists.
  split; [reflexivity|].
  split; [reflexivity|].
  split; [reflexivity|].
  split.
  - intros i Hi.
    do 12 (destruct i as [|i];
           [eexists; split; [intro t; reflexivity|];
            apply quadratic_derivative; [intro t; simpl; field | simpl; field]|]).
    lia.
  - split; simpl; list_ring.
Qed.

Lemma gradient_is_derivative_of_loss_witness :
  let x := [1; 2; 3; 4; 5; 6; 7; 8; 9; 10; 11; 12] in
  exists g,
    gradient x [1; 2] [3; 4] 2 3 5 = Ok g /\
    length g = 12%nat /\
    (forall i, (i < 12)%nat ->
       exists f, (forall t, loss (with_coord x i t) [1; 2] [3; 4] 2 3 5 = Ok (f t)) /\
                 derivable_pt_lim f (nth i x 0) (nth i g 0)) /\
    skipn 6 g = map (fun d => 2 * 3 * d) (skipn 6 x).
Proof.
  intro x.
  destruct (gradient_is_derivative_of_loss x [1; 2] [3; 4] 2 3 5)
    as (g & y & Hg & _ & Lg & Hd & Hv & _).
  - reflexivity.
  - simpl. lia.
  - reflexivity.
  - exists g. repeat split; assumption.
Defined.

(** The scenario of the specification: the identity-like weights map the
    input [[1, 2]] to itself, and the loss against the target [[1, 2]] with
    [a = 1], [b = 0], [c = 0] is zero. *)
Example identity_like_predictor :
  exists y v,
    simple_net [1; 2] [1; 0; 0; 0; 1; 0] = Ok y /\
    nth 0 y 0 = 1 /\ nth 1 y 0 = 2 /\
    loss [1; 0; 0; 0; 1; 0; 0; 0; 0; 0; 0; 0] [1; 2] [1; 2] 1 0 0 = Ok v /\
    v = 0.
Proof.
  eexists. eexists. split; [reflexivity|].
  split; [simpl; ring|]. split; [simpl; ring|].
  split; [reflexivity|]. unfold Np.sum. simpl. ring.
Qed.

Lemma div_scalar_ok (v : list R) (s : R) :
  s <> 0 -> Np.div_scalar v s = Ok (map (fun a => a / s) v).
Proof.
  intro Hs. unfold Np.div_scalar.
  destruct (Req_dec_T s 0) as [E|_]; [contradiction|reflexivity].
Qed.

Lemma gradient_total (x u yh : list R) (a b c : R) :
  length x = 12%nat -> (2 <= length u)%nat -> (2 <= length yh)%nat ->
  exists g0 g1 g2 g3 g4 g5 g6 g7 g8 g9 g10 g11,
    gradient x u yh a b c = Ok [g0; g1; g2; g3; g4; g5; g6; g7; g8; g9; g10; g11].
Proof.
  intros Hx Hu Hyh.
  destruct (length_12 x Hx) as (w0 & w1 & w2 & w3 & w4 & w5 &
                                 d0 & d1 & d2 & d3 & d4 & d5 & ->).
  destruct u as [|u1 [|u2 u']]; simpl in Hu; try lia.
  destruct yh as [|yh1 [|yh2 yh']]; simpl in Hyh; try lia.
  repeat eexists.
Qed.

Lemma gradient_of_14_zeros :
  gradient (repeat 0 14) [0; 0] [0; 0] 1 1 1 = Ok (repeat 0 12).
Proof.
  unfold gradient, simple_net, Np.add, Np.broadcast. simpl. f_equal. list_ring.
Qed.

(** C2, as stated, fails: on a state of even length 14 the gradient is
    computed (it always has twelve entries), but the two slices
    [dJ[0:7]] and [dJ[7:14]] have seven and five entries and their
    difference raises. *)
Lemma hamiltonian_model_length_14 :
  Nat.even (length (repeat 0 14)) = true /\
  gradient (repeat 0 14) [0; 0] [0; 0] 1 1 1 = Ok (repeat 0 12) /\
  hamiltonian_model (repeat 0 14) 0 [0; 0] [0; 0] 0 1 1 1 = Raise ValueError.
Proof.
  split; [reflexivity|]. split; [exact gradient_of_14_zeros|].
  unfold hamiltonian_model. rewrite gradient_of_14_zeros.
  assert (H1 : (1 : R) <> 0) by lra.
  simpl. rewrite !div_scalar_ok by exact H1. reflexivity.
Qed.

(** C2 (amended): on a state of the model's twelve entries and for
    [b <> 0], [hamiltonian_model] returns the weight half [dJ/d(dw) / b]
    followed by the velocity half [-dJ/dw - beta * dJ/d(dw) / b], where [dJ]
    is the value of [gradient]. *)
Theorem hamiltonian_model_spec (x : list R) (t : R) (u yh : list R)
    (beta a b c : R) :
  length x = 12%nat -> (2 <= length u)%nat -> (2 <= length yh)%nat -> b <> 0 ->
  exists dJ,
    gradient x u yh a b c = Ok dJ /\
    hamiltonian_model x t u yh beta a b c =
      Ok (map (fun gd => gd / b) (skipn 6 dJ)
          ++ Np.zip_with (fun gw gd => - gw - beta * gd / b)
               (firstn 6 dJ) (skipn 6 dJ)).
Proof.
  intros Hx Hu Hyh Hb.
  destruct (gradient_total x u yh a b c Hx Hu Hyh)
    as (g0 & g1 & g2 & g3 & g4 & g5 & g6 & g7 & g8 & g9 & g10 & g11 & G).
  eexists. split; [exact G|].
  unfold hamiltonian_model. rewrite G, Hx. simpl.
  rewrite !div_scalar_ok by exact Hb. reflexivity.
Qed.

Lemma hamiltonian_model_spec_witness :
  exists dJ,
    gradient (repeat 0 12) [0; 0] [0; 0] 1 1 1 = Ok dJ /\
    hamiltonian_model (repeat 0 12) 0 [0; 0] [0; 0] 0 1 1 1 =
      Ok (map (fun gd => gd / 1) (skipn 6 dJ)
          ++ Np.zip_with (fun gw gd => - gw - 0 * gd / 1)
               (firstn 6 dJ) (skipn 6 dJ)).
Proof.
  apply (hamiltonian_model_spec (repeat 0 12) 0 [0; 0] [0; 0] 0 1 1 1);
    simpl; try lia; lra.
Defined.

(** ** The structure matrix *)

Lemma zip_rows_length (a b : list (list R)) :
  length a = length b -> length (Np.zip_rows a b) = length a.
Proof.
  revert b. induction a as [|r a IH]; intros [|s b] H; simpl in *;
    try discriminate; [reflexivity|]. f_equal. apply IH. lia.
Qed.

Lemma zip_rows_nth (a b : list (list R)) (i : nat) :
  length a = length b -> (i < length a)%nat ->
  nth i (Np.zip_rows a b) [] = nth i a [] ++ nth i b [].
Proof.
  revert b i. induction a as [|r a IH]; intros [|s b] i H Hi; simpl in *;
    try discriminate; try lia.
  destruct i as [|i]; [reflexivity|]. apply IH; lia.
Qed.

Lemma nth_map_seq {A : Type} (f : nat -> A) (n i : nat) (d : A) :
  (i < n)%nat -> nth i (map f (seq 0 n)) d = f i.
Proof.
  intro Hi. rewrite (nth_indep _ d (f 0%nat)) by (rewrite length_map, length_seq; lia).
  rewrite map_nth, seq_nth; [reflexivity|lia].
Qed.

Lemma eye_length (n : nat) : length (Np.eye n) = n.
Proof. unfold Np.eye. now rewrite length_map, length_seq. Qed.

Lemma eye_row (n i : nat) :
  (i < n)%nat ->
  nth i (Np.eye n) [] = map (fun j => if (i =? j)%nat then 1 else 0) (seq 0 n).
Proof. intro Hi. unfold Np.eye. now rewrite nth_map_seq. Qed.

Lemma nth_map_lt {A B : Type} (f : A -> B) (l : list A) (i : nat) (d : A) (e : B) :
  (i < length l)%nat -> nth i (map f l) e = f (nth i l d).
Proof.
  intro Hi. rewrite (nth_indep _ e (f d)) by (rewrite length_map; exact Hi).
  apply map_nth.
Qed.

(** The four blocks of the dense matrix, for every [n] and [beta]. *)
Lemma ham_mod_batch_F_blocks (x : list R) (beta : R) :
  let n := (length x / 2)%nat in
  exists F,
    ham_mod_batch_F x beta = Ok F /\
    length F = (2 * n)%nat /\
    Forall (fun row => length row = (2 * n)%nat) F /\
    forall i j, (i < n)%nat -> (j < n)%nat ->
      entry F i j = 0 /\
      entry F i (n + j) = (if (i =? j)%nat then 1 else 0) /\
      entry F (n + i) j = - (if (i =? j)%nat then 1 else 0) /\
      entry F (n + i) (n + j) = - (beta * (if (i =? j)%nat then 1 else 0)).
Proof.
  intro n. unfold ham_mod_batch_F. fold n.
  unfold Np.hstack2, Np.neg2, Np.scale2, Np.zeros2.
  rewrite !length_map, repeat_length, !eye_length, Nat.eqb_refl. simpl bind.
  assert (Ltop : length (Np.zip_rows (repeat (Np.zeros n) n) (Np.eye n)) = n).
  { rewrite zip_rows_length; rewrite repeat_length; [reflexivity|].
    now rewrite eye_length. }
  assert (Lbot : length (Np.zip_rows (map Np.neg (Np.eye n))
                           (map Np.neg (map (Np.scale beta) (Np.eye n)))) = n).
  { rewrite zip_rows_length; rewrite !length_map, eye_length; reflexivity. }
  assert (Rtop : forall i, (i < n)%nat ->
            nth i (Np.zip_rows (repeat (Np.zeros n) n) (Np.eye n)) [] =
            Np.zeros n ++ map (fun j => if (i =? j)%nat then 1 else 0) (seq 0 n)).
  { intros i Hi. rewrite zip_rows_nth.
    - rewrite nth_repeat_lt by exact Hi. now rewrite eye_row.
    - now rewrite repeat_length, eye_length.
    - now rewrite repeat_length. }
  assert (Rbot : forall i, (i < n)%nat ->
            nth i (Np.zip_rows (map Np.neg (Np.eye n))
                     (map Np.neg (map (Np.scale beta) (Np.eye n)))) [] =
            map (fun j => - (if (i =? j)%nat then 1 else 0)) (seq 0 n) ++
            map (fun j => - (beta * (if (i =? j)%nat then 1 else 0))) (seq 0 n)).
  { intros i Hi. rewrite zip_rows_nth.
    - rewrite (nth_map_lt Np.neg _ _ []) by (now rewrite eye_length).
      rewrite (nth_map_lt Np.neg _ _ []) by (now rewrite length_map, eye_length).
      rewrite (nth_map_lt (Np.scale beta) _ _ []) by (now rewrite eye_length).
      rewrite eye_row by exact Hi.
      unfold Np.neg, Np.scale. now rewrite !map_map.
    - now rewrite !length_map.
    - now rewrite length_map, eye_length. }
  assert (W : Np.width (Np.zip_rows (repeat (Np.zeros n) n) (Np.eye n)) =
              Np.width (Np.zip_rows (map Np.neg (Np.eye n))
                          (map Np.neg (map (Np.scale beta) (Np.eye n))))).
  { destruct n as [|m] eqn:En; [reflexivity|].
    assert (H0 : (0 < S m)%nat) by lia.
    pose proof (Rtop 0%nat H0) as T0. pose proof (Rbot 0%nat H0) as B0.
    destruct (Np.zip_rows (repeat (Np.zeros (S m)) (S m)) (Np.eye (S m)))
      as [|r ?]; [discriminate Ltop|].
    destruct (Np.zip_rows (map Np.neg (Np.eye (S m)))
                (map Np.neg (map (Np.scale beta) (Np.eye (S m)))))
      as [|s ?]; [discriminate Lbot|].
    cbn [nth] in T0, B0. cbn [Np.width]. rewrite T0, B0.
    unfold Np.zeros.
    now rewrite !length_app, !length_map, repeat_length, !length_seq. }
  unfold Np.vstack2. rewrite W, Nat.eqb_refl.
  eexists. split; [reflexivity|]. split; [|split].
  - rewrite length_app, Ltop, Lbot. lia.
  - apply Forall_forall. intros row Hin.
    apply In_nth with (d := []) in Hin. destruct Hin as (i & Hi & <-).
    rewrite length_app, Ltop, Lbot in Hi.
    destruct (Nat.lt_ge_cases i n) as [Hlt|Hge].
    + rewrite app_nth1 by lia. rewrite Rtop by exact Hlt.
      unfold Np.zeros. rewrite length_app, length_map, repeat_length, length_seq. lia.
    + rewrite app_nth2 by lia. rewrite Ltop, Rbot by lia.
      rewrite length_app, !length_map, length_seq. lia.
  - intros i j Hi Hj. unfold entry. repeat split.
    + rewrite app_nth1 by lia. rewrite Rtop by exact Hi.
      rewrite app_nth1 by (unfold Np.zeros; rewrite repeat_length; exact Hj).
      apply nth_repeat.
    + rewrite app_nth1 by lia. rewrite Rtop by exact Hi.
      rewrite app_nth2 by (unfold Np.zeros; rewrite repeat_length; lia).
      unfold Np.zeros. rewrite repeat_length.
      replace (n + j - n)%nat with j by lia. now rewrite nth_map_seq.
    + rewrite app_nth2 by lia. rewrite Ltop.
      replace (n + i - n)%nat with i by lia. rewrite Rbot by exact Hi.
      rewrite app_nth1 by (rewrite length_map, length_seq; exact Hj).
      now rewrite nth_map_seq.
    + rewrite app_nth2 by lia. rewrite Ltop.
      replace (n + i - n)%nat with i by lia. rewrite Rbot by exact Hi.
      rewrite app_nth2 by (rewrite length_map, length_seq; lia).
      rewrite length_map, length_seq.
      replace (n + j - n)%nat with j by lia. now rewrite nth_map_seq.
Qed.

Lemma sum_app (u v : list R) : Np.sum (u ++ v) = Np.sum u + Np.sum v.
Proof.
  unfold Np.sum. induction u as [|a u IH]; simpl; [ring|]. rewrite IH. ring.
Qed.

Lemma combine_app_same {A B : Type} (a a' : list A) (b b' : list B) :
  length a = length b ->
  combine (a ++ a') (b ++ b') = combine a b ++ combine a' b'.
Proof.
  revert b. induction a as [|x a IH]; intros [|y b] H; simpl in *;
    try discriminate; [reflexivity|]. f_equal. apply IH. lia.
Qed.

Lemma combine_map_repeat {A B : Type} (f : nat -> A) (v : B) (s n : nat) :
  combine (map f (seq s n)) (repeat v n) = map (fun i => (f i, v)) (seq s n).
Proof.
  revert s. induction n as [|n IH]; intro s; simpl; [reflexivity|].
  f_equal. apply IH.
Qed.

Lemma head_map_seq {A : Type} (f : nat -> A) (a : A) (n : nat) :
  (1 <= n)%nat -> a = f 0%nat ->
  [a] ++ map f (seq 1 (n - 1)) = map f (seq 0 n).
Proof.
  intros Hn ->. destruct n as [|n]; [lia|]. simpl. now rewrite Nat.sub_0_r.
Qed.

(** The stored values that fall on one index pair, summed along a list of
    stored entries that is produced by [g]. *)
Lemma sum_filter_map {A : Type} (p : nat * nat * R -> bool)
    (g : A -> nat * nat * R) (l : list A) :
  Np.sum (map snd (filter p (map g l))) =
  Np.sum (map (fun i => if p (g i) then snd (g i) else 0) l).
Proof.
  induction l as [|i l IH]; simpl; [reflexivity|].
  destruct (p (g i)); simpl; rewrite IH; [reflexivity|ring].
Qed.

Lemma sum_indicator (k : nat) (b : bool) (v : R) (s n : nat) :
  Np.sum (map (fun i => if (i =? k)%nat && b then v else 0) (seq s n)) =
  if (s <=? k)%nat && (k <? s + n)%nat && b then v else 0.
Proof.
  revert s. induction n as [|n IH]; intro s; simpl.
  - replace ((s <=? k)%nat && (k <? s + 0)%nat) with false; [reflexivity|].
    symmetry. apply andb_false_iff.
    destruct (Nat.leb_spec s k); [right; apply Nat.ltb_ge; lia|now left].
  - rewrite IH. destruct b; rewrite ?andb_true_r, ?andb_false_r; [|ring].
    destruct (Nat.eqb_spec s k) as [->|Hne].
    + rewrite Nat.leb_refl.
      replace (S k <=? k)%nat with false by (symmetry; apply Nat.leb_gt; lia).
      replace (k <? k + S n)%nat with true by (symmetry; apply Nat.ltb_lt; lia).
      simpl. ring.
    + destruct (Nat.leb_spec (S s) k) as [H1|H1];
      destruct (Nat.leb_spec s k) as [H2|H2]; try lia; simpl;
        try (replace (s + S n)%nat with (S (s + n)) by lia); ring.
Qed.

(** The sum of the values stored on [(r, c)] in a diagonal run of [n]
    entries [(dr + i, dc + i)] that all hold [v]. *)
Lemma sum_diagonal (dr dc : nat) (v : R) (n r c : nat) :
  Np.sum (map snd
            (filter (fun e => (fst (fst e) =? r)%nat && (snd (fst e) =? c)%nat)
                    (map (fun i => ((dr + i, dc + i)%nat, v)) (seq 0 n)))) =
  if (dr <=? r)%nat && (r - dr <? n)%nat && (r + dc =? c + dr)%nat
  then v else 0.
Proof.
  rewrite sum_filter_map. cbn [fst snd].
  rewrite (map_ext _ (fun i => if (i =? r - dr)%nat &&
                                  ((dr <=? r)%nat && (r + dc =? c + dr)%nat)
                               then v else 0)).
  - rewrite sum_indicator. simpl.
    destruct (dr <=? r)%nat, (r - dr <? n)%nat, (r + dc =? c + dr)%nat;
      reflexivity.
  - intro i.
    destruct (Nat.eqb_spec (dr + i) r), (Nat.eqb_spec (dc + i) c),
             (Nat.eqb_spec i (r - dr)), (Nat.leb_spec dr r),
             (Nat.eqb_spec (r + dc) (c + dr)); simpl; try reflexivity; lia.
Qed.

(** [makeFMatrix] in closed form, for a state with at least one weight. *)
Lemma makeFMatrix_closed_form (self : Phnn.PHNN) :
  let n := length (Phnn.flat_wdot self) in
  (1 <= n)%nat ->
  Phnn.makeFMatrix self =
    Ok (Phnn.mkSparse
          (map (fun i => (0 + i, n + i)%nat) (seq 0 n)
           ++ map (fun i => (n + i, 0 + i)%nat) (seq 0 n)
           ++ map (fun i => (n + i, n + i)%nat) (seq 0 n))
          (repeat 1 n ++ repeat (-1 * 1) n ++ repeat (- Phnn.beta self * 1) n)
          (2 * n, 2 * n)%nat).
Proof.
  intros n Hn. unfold Phnn.makeFMatrix. fold n.
  rewrite (head_map_seq (fun i => (i, n + i)%nat)) by (auto; now rewrite Nat.add_0_r).
  rewrite (head_map_seq (fun i => (n + i, i)%nat)) by (auto; now rewrite Nat.add_0_r).
  rewrite (head_map_seq (fun i => (n + i, n + i)%nat)) by (auto; now rewrite Nat.add_0_r).
  unfold Np.scale. rewrite !map_repeat.
  unfold Phnn.sparse_tensor.
  rewrite !length_app, !length_map, !repeat_length, !length_seq, Nat.eqb_refl.
  cbn [negb].
  rewrite !forallb_app.
  replace (forallb _ (map (fun i => (i, n + i)%nat) (seq 0 n))) with true.
  2:{ symmetry. apply forallb_forall. intros rc Hin.
      apply in_map_iff in Hin. destruct Hin as (i & <- & Hi).
      apply in_seq in Hi. cbn [fst snd].
      apply andb_true_iff; split; apply Nat.ltb_lt; lia. }
  replace (forallb _ (map (fun i => (n + i, i)%nat) (seq 0 n))) with true.
  2:{ symmetry. apply forallb_forall. intros rc Hin.
      apply in_map_iff in Hin. destruct Hin as (i & <- & Hi).
      apply in_seq in Hi. cbn [fst snd].
      apply andb_true_iff; split; apply Nat.ltb_lt; lia. }
  replace (forallb _ (map (fun i => (n + i, n + i)%nat) (seq 0 n))) with true.
  2:{ symmetry. apply forallb_forall. intros rc Hin.
      apply in_map_iff in Hin. destruct Hin as (i & <- & Hi).
      apply in_seq in Hi. cbn [fst snd].
      apply andb_true_iff; split; apply Nat.ltb_lt; lia. }
  reflexivity.
Qed.

Lemma half_of_double (n : nat) : (2 * n / 2 = n)%nat.
Proof. rewrite Nat.mul_comm. apply Nat.div_mul. discriminate. Qed.

Lemma NoDup_map_injective {A B : Type} (f : A -> B) (l : list A) :
  (forall a b, f a = f b -> a = b) -> NoDup l -> NoDup (map f l).
Proof.
  intros Hf Hl. induction Hl as [|a l Hin Hl IH]; simpl; constructor.
  - intro H. apply in_map_iff in H. destruct H as (b & E & Hb).
    apply Hf in E. subst b. contradiction.
  - exact IH.
Qed.

(** C4: for every [n >= 1] and [beta], the matrix that [ham_mod_batch]
    builds for a state of length [2n], and the sparse matrix that
    [makeFMatrix] builds for [n] velocities, have the blocks
    [F[0:n,0:n] = 0], [F[0:n,n:2n] = I], [F[n:2n,0:n] = -I] and
    [F[n:2n,n:2n] = -beta*I]; each is the same for every state of that size,
    so it depends on [n] and [beta] only.  The sparse matrix stores exactly
    [3n] entries, on [3n] different positions, and none of the stored values
    is zero unless [beta] is. *)
Theorem structure_matrix_blocks (n : nat) (beta0 : R) :
  (1 <= n)%nat ->
  (exists F,
     (forall x, length x = (2 * n)%nat -> ham_mod_batch_F x beta0 = Ok F) /\
     length F = (2 * n)%nat /\
     Forall (fun row => length row = (2 * n)%nat) F /\
     block_structure (entry F) n beta0) /\
  (exists Fs,
     (forall self, length (Phnn.flat_wdot self) = n -> Phnn.beta self = beta0 ->
                   Phnn.makeFMatrix self = Ok Fs) /\
     Phnn.size Fs = (2 * n, 2 * n)%nat /\
     block_structure (Phnn.sparse_get Fs) n beta0 /\
     length (Phnn.indices Fs) = (3 * n)%nat /\
     length (Phnn.values Fs) = (3 * n)%nat /\
     NoDup (Phnn.indices Fs) /\
     (beta0 <> 0 -> Forall (fun v => v <> 0) (Phnn.values Fs))).
Proof.
  intro Hn. split.
  - destruct (ham_mod_batch_F_blocks (repeat 0 (2 * n)) beta0)
      as (F & HF & HL & HR & HB).
    rewrite repeat_length, half_of_double in *.
    exists F. split; [|split; [exact HL|split; [exact HR|exact HB]]].
    intros x Hx. rewrite <- HF. unfold ham_mod_batch_F.
    now rewrite Hx, repeat_length.
  - eexists. split; [|split; [|split; [|split; [|split; [|split]]]]].
    + intros self Hlen Hbeta.
      rewrite makeFMatrix_closed_form by (rewrite Hlen; exact Hn).
      rewrite Hlen, Hbeta. reflexivity.
    + reflexivity.
    + intros i j Hi Hj. unfold Phnn.sparse_get. cbn [Phnn.indices Phnn.values].
      rewrite !combine_app_same
        by (now rewrite ?length_map, ?repeat_length, ?length_seq).
      rewrite !combine_map_repeat, !filter_app, !map_app, !sum_app.
      rewrite !sum_diagonal.
      repeat split.
      all: repeat match goal with
             | |- context [if ?b then _ else _] =>
                 match b with
                 | context [Nat.leb] => idtac
                 | (_ =? _)%nat => idtac
                 end;
                 let E := fresh "E" in destruct b eqn:E
             end.
      all: try lra.
      all: exfalso.
      all: repeat match goal with
             | H : _ && _ = true |- _ => apply andb_true_iff in H; destruct H
             | H : _ && _ = false |- _ => apply andb_false_iff in H; destruct H
             | H : (_ =? _)%nat = true |- _ => apply Nat.eqb_eq in H
             | H : (_ =? _)%nat = false |- _ => apply Nat.eqb_neq in H
             | H : (_ <=? _)%nat = true |- _ => apply Nat.leb_le in H
             | H : (_ <=? _)%nat = false |- _ => apply Nat.leb_gt in H
             | H : (_ <? _)%nat = true |- _ => apply Nat.ltb_lt in H
             | H : (_ <? _)%nat = false |- _ => apply Nat.ltb_ge in H
             end.
      all: lia.
    + cbn [Phnn.indices]. rewrite !length_app, !length_map, !length_seq. lia.
    + cbn [Phnn.values]. rewrite !length_app, !repeat_length. lia.
    + cbn [Phnn.indices].
      apply NoDup_app; [|apply NoDup_app|].
      * apply NoDup_map_injective; [|apply seq_NoDup].
        intros a b E. injection E. lia.
      * apply NoDup_map_injective; [|apply seq_NoDup].
        intros a b E. injection E. lia.
      * apply NoDup_map_injective; [|apply seq_NoDup].
        intros a b E. injection E. lia.
      * intros p H1 H2. apply in_map_iff in H1, H2.
        destruct H1 as (a & <- & Ha), H2 as (b & E & Hb).
        apply in_seq in Ha, Hb. injection E. lia.
      * intros p H1 H2. apply in_app_iff in H2. apply in_map_iff in H1.
        destruct H1 as (a & <- & Ha). apply in_seq in Ha.
        destruct H2 as [H2|H2]; apply in_map_iff in H2;
          destruct H2 as (b & E & Hb); apply in_seq in Hb; injection E; lia.
    + intro Hb. cbn [Phnn.values].
      repeat (apply Forall_app; split); apply Forall_forall; intros v Hv;
        apply repeat_spec in Hv; subst v; lra.
Qed.

Lemma structure_matrix_blocks_witness :
  (1 <= 2)%nat /\
  exists F, ham_mod_batch_F [0; 0; 0; 0] 3 = Ok F /\
            block_structure (entry F) 2 3.
Proof.
  split; [lia|].
  destruct (structure_matrix_blocks 2 3 ltac:(lia)) as [(F & HF & _ & _ & HB) _].
  exists F. split; [apply HF; reflexivity|exact HB].
Defined.

(** ** Batch averages *)

Lemma getitem_nth {A : Type} (v : list A) (i : nat) (d : A) :
  (i < length v)%nat -> Np.getitem v i = Ok (nth i v d).
Proof.
  intro Hi. unfold Np.getitem. now rewrite (nth_error_nth' v d Hi).
Qed.

Lemma mapM_length {A B : Type} (f : A -> result B) (l : list A) (bs : list B) :
  mapM f l = Ok bs -> length bs = length l.
Proof.
  revert bs. induction l as [|a l IH]; intros bs H; simpl in H.
  - now inversion H.
  - destruct (f a); [|discriminate]. simpl in H.
    destruct (mapM f l); [|discriminate]. simpl in H.
    inversion H. simpl. f_equal. now apply IH.
Qed.

Lemma loss_loop (x : list R) (U Yh : list (list R)) (a b c : R)
    (l : list nat) (acc : R) :
  Forall (fun i => (i < length U)%nat /\ (i < length Yh)%nat) l ->
  for_each l
    (fun J_tot i =>
       u <- Np.getitem U i ;; yh <- Np.getitem Yh i ;;
       v <- loss x u yh a b c ;; Ok (J_tot + v)) acc =
  (ls <- mapM (fun i => loss x (nth i U []) (nth i Yh []) a b c) l ;;
   Ok (acc + Np.sum ls)).
Proof.
  intro Hl. revert acc. induction Hl as [|i l [HU HY] _ IH]; intro acc; simpl.
  - f_equal. unfold Np.sum. simpl. ring.
  - rewrite (getitem_nth U i [] HU), (getitem_nth Yh i [] HY). simpl.
    destruct (loss x (nth i U []) (nth i Yh []) a b c) as [v|e]; simpl;
      [|reflexivity].
    rewrite IH.
    destruct (mapM _ l) as [ls|e]; simpl; [|reflexivity].
    f_equal. unfold Np.sum. simpl. ring.
Qed.

Lemma gradient_length (x u yh : list R) (a b c : R) (g : list R) :
  gradient x u yh a b c = Ok g -> length g = 12%nat.
Proof.
  unfold gradient. intro H.
  repeat match type of H with
         | context [bind ?m _] =>
             let E := fresh "E" in
             destruct m eqn:E; cbn [bind] in H; [|discriminate H]
         end.
  unfold Np.add, Np.broadcast in H. simpl in H. inversion H. reflexivity.
Qed.

Lemma zip_with_plus_nth (u v : list R) (j : nat) :
  length u = length v ->
  nth j (Np.zip_with Rplus u v) 0 = nth j u 0 + nth j v 0.
Proof.
  revert v j. induction u as [|p u IH]; intros [|q v] j H; simpl in *;
    try discriminate.
  - destruct j; ring.
  - destruct j as [|j]; [reflexivity|]. apply IH. lia.
Qed.

Lemma zip_with_length (op : R -> R -> R) (u v : list R) :
  length u = length v -> length (Np.zip_with op u v) = length u.
Proof.
  revert v. induction u as [|p u IH]; intros [|q v] H; simpl in *;
    try discriminate; [reflexivity|]. f_equal. apply IH. lia.
Qed.

Lemma gradient_loop (x : list R) (U Yh : list (list R)) (a b c : R)
    (l : list nat) (acc : list R) :
  Forall (fun i => (i < length U)%nat /\ (i < length Yh)%nat) l ->
  length acc = 12%nat ->
  match mapM (fun i => gradient x (nth i U []) (nth i Yh []) a b c) l with
  | Ok gs =>
      exists acc',
        for_each l
          (fun dJ_tot i =>
             u <- Np.getitem U i ;; yh <- Np.getitem Yh i ;;
             g <- gradient x u yh a b c ;; Np.add dJ_tot g) acc = Ok acc' /\
        length acc' = 12%nat /\
        forall j, nth j acc' 0 =
                  nth j acc 0 + Np.sum (map (fun g => nth j g 0) gs)
  | Raise e =>
      for_each l
        (fun dJ_tot i =>
           u <- Np.getitem U i ;; yh <- Np.getitem Yh i ;;
           g <- gradient x u yh a b c ;; Np.add dJ_tot g) acc = Raise e
  end.
Proof.
  intro Hl. revert acc. induction Hl as [|i l [HU HY] _ IH]; intros acc Hacc.
  - simpl. exists acc. split; [reflexivity|]. split; [exact Hacc|].
    intro j. unfold Np.sum. simpl. ring.
  - simpl. rewrite (getitem_nth U i [] HU), (getitem_nth Yh i [] HY). simpl.
    destruct (gradient x (nth i U []) (nth i Yh []) a b c) as [g|e] eqn:G;
      simpl; [|reflexivity].
    pose proof (gradient_length _ _ _ _ _ _ _ G) as Lg.
    unfold Np.add at 1 3. unfold Np.broadcast.
    rewrite Hacc, Lg, Nat.eqb_refl.
    assert (Lz : length (Np.zip_with Rplus acc g) = 12%nat)
      by (rewrite zip_with_length; congruence).
    specialize (IH _ Lz).
    destruct (mapM _ l) as [gs|e]; simpl; [|exact IH].
    destruct IH as (acc' & Hrun & Lacc' & Hnth).
    exists acc'. split; [exact Hrun|]. split; [exact Lacc'|].
    intro j. rewrite Hnth, zip_with_plus_nth by congruence.
    unfold Np.sum. simpl. ring.
Qed.

Lemma seq_in_range (k n : nat) (m : nat) :
  (k <= n)%nat -> (k <= m)%nat ->
  Forall (fun i => (i < n)%nat /\ (i < m)%nat) (seq 0 k).
Proof.
  intros Hn Hm. apply Forall_forall. intros i Hi. apply in_seq in Hi. lia.
Qed.

Lemma INR_positive (k : nat) : (1 <= k)%nat -> INR k <> 0.
Proof. intro Hk. apply not_0_INR. lia. Qed.

Lemma gradient_batch_mean (k : nat) (x : list R) (U Yh : list (list R))
    (a b c : R) :
  (1 <= k)%nat -> (k <= length U)%nat -> (k <= length Yh)%nat ->
  (2 * (length x / 2) = 12)%nat ->
  gradient_batch k x U Yh a b c =
    (gs <- sample_gradients k x U Yh a b c ;; Ok (mean_vec 12 gs)).
Proof.
  intros Hk HU HY H12. unfold gradient_batch, sample_gradients. rewrite H12.
  pose proof (gradient_loop x U Yh a b c (seq 0 k) (Np.zeros 12)
                (seq_in_range k _ _ HU HY) eq_refl) as HL.
  destruct (mapM _ (seq 0 k)) as [gs|e] eqn:E; simpl.
  - destruct HL as (acc' & -> & Lacc' & Hnth). simpl.
    rewrite div_scalar_ok by (now apply INR_positive).
    f_equal. apply mapM_length in E. rewrite length_seq in E.
    apply (nth_ext _ _ 0 0).
    + unfold mean_vec. now rewrite !length_map, length_seq.
    + intros j Hj. rewrite length_map, Lacc' in Hj.
      rewrite (nth_map_lt _ _ _ 0) by lia.
      unfold mean_vec. rewrite nth_map_seq by exact Hj.
      unfold mean. rewrite length_map, E, Hnth.
      replace (nth j (Np.zeros 12) 0) with 0
        by (symmetry; apply nth_repeat).
      f_equal. ring.
  - now rewrite HL.
Qed.

(** [gradient_batch] returns a value only when the accumulator [zeros(2n)]
    has the twelve entries of a per-sample gradient. *)
Lemma gradient_batch_needs_12 (k : nat) (x : list R) (U Yh : list (list R))
    (a b c : R) (dJ : list R) :
  (1 <= k)%nat -> (k <= length U)%nat -> (k <= length Yh)%nat ->
  gradient_batch k x U Yh a b c = Ok dJ ->
  (2 * (length x / 2) = 12)%nat.
Proof.
  intros Hk HU HY H. unfold gradient_batch in H.
  destruct k as [|k]; [lia|]. cbn [seq for_each] in H.
  rewrite (getitem_nth U 0 []), (getitem_nth Yh 0 []) in H by lia.
  cbn [bind] in H.
  destruct (gradient x (nth 0 U []) (nth 0 Yh []) a b c) as [g|] eqn:G;
    [|discriminate H].
  cbn [bind] in H. apply gradient_length in G.
  unfold Np.add at 1, Np.broadcast in H.
  unfold Np.zeros in H at 1 2. rewrite repeat_length, G in H.
  destruct (Nat.eqb_spec (2 * (length x / 2)) 12) as [E|_]; [exact E|].
  exfalso.
  destruct (length_12 g G) as (g0 & g1 & g2 & g3 & g4 & g5 &
                               g6 & g7 & g8 & g9 & g10 & g11 & ->).
  destruct (2 * (length x / 2))%nat as [|[|m]] eqn:E2; [| lia |];
    cbn [Np.zeros repeat bind] in H; discriminate H.
Qed.

(** C5: for a batch size [k >= 1] and batches [U], [Yh] with at least [k]
    samples, [loss_batch] is the arithmetic mean of [loss] over the samples
    [0..k-1] (and raises what the first failing sample raises); on a state
    of the model's twelve entries [gradient_batch] is the entry-wise
    arithmetic mean of the per-sample gradients (and raises what the first
    failing sample raises); and on any [x], whenever [gradient_batch] returns
    a value, that value is the entry-wise mean of the per-sample gradients. *)
Theorem batch_is_arithmetic_mean (k : nat) (x : list R) (U Yh : list (list R))
    (a b c : R) :
  (1 <= k)%nat -> (k <= length U)%nat -> (k <= length Yh)%nat ->
  loss_batch k x U Yh a b c =
    (ls <- sample_losses k x U Yh a b c ;; Ok (mean ls)) /\
  (length x = 12%nat ->
   gradient_batch k x U Yh a b c =
     (gs <- sample_gradients k x U Yh a b c ;; Ok (mean_vec 12 gs))) /\
  (forall dJ, gradient_batch k x U Yh a b c = Ok dJ ->
     exists gs, sample_gradients k x U Yh a b c = Ok gs /\
                dJ = mean_vec 12 gs).
Proof.
  intros Hk HU HY. split; [|split].
  - unfold loss_batch, sample_losses.
    rewrite loss_loop by (apply seq_in_range; assumption).
    destruct (mapM _ (seq 0 k)) as [ls|e] eqn:E; simpl; [|reflexivity].
    apply mapM_length in E. rewrite length_seq in E.
    destruct (Nat.eqb_spec k 0) as [->|_]; [lia|].
    unfold mean. rewrite E. f_equal. field. now apply INR_positive.
  - intro Hx. apply gradient_batch_mean; try assumption. now rewrite Hx.
  - intros dJ H.
    pose proof (gradient_batch_needs_12 k x U Yh a b c dJ Hk HU HY H) as H12.
    rewrite (gradient_batch_mean k x U Yh a b c Hk HU HY H12) in H.
    destruct (sample_gradients k x U Yh a b c) as [gs|]; [|discriminate H].
    cbn [bind] in H. exists gs. split; [reflexivity|]. now inversion H.
Qed.

Lemma batch_is_arithmetic_mean_witness :
  let x := [1; 0; 0; 0; 1; 0; 0; 0; 0; 0; 0; 0] in
  let U := [[1; 2]; [3; 4]] in
  let Yh := [[1; 2]; [0; 0]] in
  (exists ls, sample_losses 2 x U Yh 1 1 1 = Ok ls) /\
  loss_batch 2 x U Yh 1 1 1 =
    (ls <- sample_losses 2 x U Yh 1 1 1 ;; Ok (mean ls)) /\
  gradient_batch 2 x U Yh 1 1 1 =
    (gs <- sample_gradients 2 x U Yh 1 1 1 ;; Ok (mean_vec 12 gs)).
Proof.
  intros x U Yh.
  destruct (batch_is_arithmetic_mean 2 x U Yh 1 1 1) as (H1 & H2 & _);
    [simpl; lia ..|].
  split; [eexists; reflexivity|].
  split; [exact H1|apply H2; reflexivity].
Defined.

(** ** The vector fields *)

Lemma gradient_batch_length (bs : nat) (x : list R) (U Yh : list (list R))
    (a b c : R) (dJ : list R) :
  length x = 12%nat -> gradient_batch bs x U Yh a b c = Ok dJ ->
  length dJ = 12%nat.
Proof.
  intros Hx. unfold gradient_batch. rewrite Hx.
  change (2 * (12 / 2))%nat with 12%nat.
  assert (Inv : forall l acc r,
            length acc = 12%nat ->
            for_each l
              (fun dJ_tot i =>
                 u <- Np.getitem U i ;; yh <- Np.getitem Yh i ;;
                 g <- gradient x u yh a b c ;; Np.add dJ_tot g) acc = Ok r ->
            length r = 12%nat).
  { induction l as [|i l IH]; intros acc r Hacc H; simpl in H.
    - inversion H. now subst.
    - destruct (Np.getitem U i); [|discriminate]. simpl in H.
      destruct (Np.getitem Yh i); [|discriminate]. simpl in H.
      destruct (gradient x a0 a1 a b c) as [g|] eqn:G; [|discriminate].
      simpl in H. apply gradient_length in G.
      unfold Np.add at 1, Np.broadcast in H.
      rewrite Hacc, G, Nat.eqb_refl in H. simpl in H.
      apply IH in H; [exact H|]. rewrite zip_with_length; congruence. }
  intro H. destruct (for_each _ _ _) as [r|] eqn:E; [|discriminate].
  simpl in H. apply Inv in E; [|reflexivity].
  unfold Np.div_scalar in H. destruct (Req_dec_T (INR bs) 0); [discriminate|].
  inversion H. now rewrite length_map.
Qed.

Lemma zip_with_scaled (p q : R) (u v : list R) :
  Np.zip_with Rminus (Np.scale p u) (Np.scale q v) =
  Np.zip_with (fun gw gd => p * gw - q * gd) u v.
Proof.
  revert v. induction u as [|a u IH]; intros [|b v]; simpl; try reflexivity.
  f_equal. apply IH.
Qed.

Lemma set_slice_top (n : nat) (src : list R) :
  length src = n ->
  Phnn.set_slice (repeat 0 (2 * n)) 0 n src = Ok (src ++ repeat 0 n).
Proof.
  intro Hs. unfold Phnn.set_slice, Np.slice.
  replace (2 * n)%nat with (n + n)%nat by lia. rewrite repeat_app.
  rewrite Nat.sub_0_r. cbn [skipn firstn app Nat.add].
  rewrite firstn_app, repeat_length, Nat.sub_diag.
  cbn [firstn]. rewrite app_nil_r, firstn_all2 by (rewrite repeat_length; lia).
  rewrite repeat_length, Hs, Nat.eqb_refl.
  rewrite skipn_app, repeat_length, Nat.sub_diag.
  cbn [skipn]. rewrite skipn_all2 by (rewrite repeat_length; lia).
  reflexivity.
Qed.

Lemma set_slice_bottom (n : nat) (v src : list R) :
  length v = n -> length src = n ->
  Phnn.set_slice (v ++ repeat 0 n) n (2 * n) src = Ok (v ++ src).
Proof.
  intros Hv Hs. unfold Phnn.set_slice, Np.slice.
  replace (2 * n - n)%nat with n by lia.
  rewrite skipn_app, Hv, Nat.sub_diag. cbn [skipn].
  rewrite (skipn_all2 v) by lia. cbn [app].
  rewrite firstn_all2 by (rewrite repeat_length; lia).
  rewrite repeat_length, Hs, Nat.eqb_refl.
  rewrite firstn_app, Hv, Nat.sub_diag. cbn [firstn].
  rewrite app_nil_r, firstn_all2 by lia.
  rewrite skipn_all2 by (rewrite length_app, repeat_length; lia).
  now rewrite app_nil_r.
Qed.

Lemma ode_calcs_halves (self : Phnn.PHNN) (g : list R) (n : nat) :
  length g = (2 * n)%nat ->
  Phnn.ode_calcs self g =
    Ok (skipn n g
        ++ Np.zip_with (fun gw gd => -1 * gw - 1 * Phnn.beta self * gd)
             (firstn n g) (skipn n g)).
Proof.
  intro Hg. unfold Phnn.ode_calcs, Np.zeros.
  rewrite repeat_length, Hg, half_of_double.
  assert (Ls : length (skipn n g) = n) by (rewrite length_skipn; lia).
  assert (Lf : length (firstn n g) = n) by (rewrite length_firstn; lia).
  assert (S1 : Np.slice g n (2 * n) = skipn n g).
  { unfold Np.slice. replace (2 * n - n)%nat with n by lia.
    apply firstn_all2. lia. }
  assert (S0 : Np.slice g 0 n = firstn n g).
  { unfold Np.slice. now rewrite Nat.sub_0_r. }
  rewrite S1, S0, set_slice_top by exact Ls. cbn [bind].
  unfold Phnn.tsub, Np.sub, Np.broadcast, Np.scale.
  rewrite !length_map, Lf, Ls, Nat.eqb_refl. cbn [bind].
  rewrite set_slice_bottom;
    [|exact Ls|rewrite zip_with_length; rewrite !length_map; lia].
  f_equal. f_equal. apply zip_with_scaled.
Qed.

Lemma ham_mod_batch_on_12 (x : list R) (t : R) (bs : nat) (U Yh : list (list R))
    (beta a b c : R) (dJ : list R) :
  length x = 12%nat -> gradient_batch bs x U Yh a b c = Ok dJ ->
  exists F,
    ham_mod_batch_F x beta = Ok F /\
    ham_mod_batch x t bs U Yh beta a b c = Np.matvec F dJ /\
    Np.matvec F dJ =
      Ok (skipn 6 dJ
          ++ Np.zip_with (fun gw gd => - gw - beta * gd)
               (firstn 6 dJ) (skipn 6 dJ)).
Proof.
  intros Hx HdJ.
  pose proof (gradient_batch_length _ _ _ _ _ _ _ _ Hx HdJ) as LdJ.
  destruct (length_12 dJ LdJ) as (g0 & g1 & g2 & g3 & g4 & g5 &
                                   g6 & g7 & g8 & g9 & g10 & g11 & ->).
  unfold ham_mod_batch. rewrite HdJ.
  unfold ham_mod_batch_F. rewrite Hx.
  eexists. split; [reflexivity|]. split; [reflexivity|].
  unfold Np.matvec. simpl. f_equal. unfold Np.sum. simpl. list_ring.
Qed.

Lemma forward_returns_ode_calcs (backward : Phnn.state_dict_t -> list Phnn.tensor)
    (self : Phnn.PHNN) (t : R) (xi : list R) (self' : Phnn.PHNN) (dxdt : list R) :
  Phnn.forward backward self t xi = Ok (self', dxdt) ->
  Phnn.ode_calcs self' (Phnn.getConcatGradient self') = Ok dxdt.
Proof.
  unfold Phnn.forward. intro H.
  destruct (Phnn.loadStateDict _) as [s1|]; [|discriminate]. cbn [bind] in H.
  destruct (Phnn.gradient _ _) as [s2|]; [|discriminate]. cbn [bind] in H.
  destruct (Phnn.assignFlatGradient _) as [s3|]; [|discriminate].
  cbn [bind] in H.
  destruct (Phnn.ode_calcs s3 _) as [d|] eqn:E; [|discriminate].
  cbn [bind] in H. inversion H. subst. exact E.
Qed.

(** *** Totality on well-formed input *)

Lemma mapM_total {A B : Type} (f : A -> result B) (l : list A) :
  Forall (fun a => exists b, f a = Ok b) l -> exists bs, mapM f l = Ok bs.
Proof.
  induction 1 as [|a l [b Hb] _ [bs IH]]; simpl.
  - now eexists.
  - rewrite Hb, IH. simpl. now eexists.
Qed.

Lemma loss_total (x u yh : list R) (a b c : R) :
  length x = 12%nat -> (2 <= length u)%nat -> length yh = 2%nat ->
  exists v, loss x u yh a b c = Ok v.
Proof.
  intros Hx Hu Hyh.
  destruct (length_12 x Hx) as (w0 & w1 & w2 & w3 & w4 & w5 &
                                 d0 & d1 & d2 & d3 & d4 & d5 & ->).
  destruct u as [|u1 [|u2 u']]; simpl in Hu; try lia.
  destruct yh as [|yh1 [|yh2 [|? ?]]]; try discriminate Hyh.
  eexists. reflexivity.
Qed.

Lemma batch_ok_sample (bs : nat) (U Yh : list (list R)) (i : nat) :
  batch_ok bs U Yh -> (i < bs)%nat ->
  length (nth i U []) = 2%nat /\ length (nth i Yh []) = 2%nat.
Proof.
  intros (LU & LY & FU & FY) Hi.
  rewrite Forall_forall in FU, FY.
  split; [apply FU|apply FY]; apply nth_In; lia.
Qed.

Lemma loss_batch_total (bs : nat) (x : list R) (U Yh : list (list R))
    (a b c : R) :
  (1 <= bs)%nat -> length x = 12%nat -> batch_ok bs U Yh ->
  exists v, loss_batch bs x U Yh a b c = Ok v.
Proof.
  intros Hbs Hx Hok. pose proof Hok as (LU & LY & _).
  unfold loss_batch.
  rewrite loss_loop by (apply seq_in_range; lia).
  destruct (mapM_total
              (fun i => loss x (nth i U []) (nth i Yh []) a b c) (seq 0 bs))
    as [ls Hls].
  { apply Forall_forall. intros i Hi. apply in_seq in Hi.
    destruct (batch_ok_sample bs U Yh i Hok) as [H1 H2]; [lia|].
    apply loss_total; [exact Hx|lia|exact H2]. }
  rewrite Hls. cbn [bind].
  destruct (Nat.eqb_spec bs 0); [lia|]. now eexists.
Qed.

Lemma gradient_batch_total (bs : nat) (x : list R) (U Yh : list (list R))
    (a b c : R) :
  (1 <= bs)%nat -> length x = 12%nat -> batch_ok bs U Yh ->
  exists dJ, gradient_batch bs x U Yh a b c = Ok dJ.
Proof.
  intros Hbs Hx Hok. pose proof Hok as (LU & LY & _).
  unfold gradient_batch. rewrite Hx.
  change (2 * (12 / 2))%nat with 12%nat.
  pose proof (gradient_loop x U Yh a b c (seq 0 bs) (Np.zeros 12)
                (seq_in_range bs (length U) (length Yh) ltac:(lia) ltac:(lia))
                eq_refl) as HL.
  destruct (mapM_total
              (fun i => gradient x (nth i U []) (nth i Yh []) a b c) (seq 0 bs))
    as [gs Hgs].
  { apply Forall_forall. intros i Hi. apply in_seq in Hi.
    destruct (batch_ok_sample bs U Yh i Hok) as [H1 H2]; [lia|].
    destruct (gradient_total x (nth i U []) (nth i Yh []) a b c)
      as (g0 & g1 & g2 & g3 & g4 & g5 & g6 & g7 & g8 & g9 & g10 & g11 & G);
      [exact Hx|lia|lia|].
    eexists. exact G. }
  rewrite Hgs in HL. destruct HL as (acc' & -> & _). cbn [bind].
  rewrite div_scalar_ok by (now apply INR_positive). now eexists.
Qed.

Lemma ham_mod_batch_total (x : list R) (t : R) (bs : nat) (U Yh : list (list R))
    (beta a b c : R) :
  (1 <= bs)%nat -> length x = 12%nat -> batch_ok bs U Yh ->
  exists v, ham_mod_batch x t bs U Yh beta a b c = Ok v /\ length v = 12%nat.
Proof.
  intros Hbs Hx Hok.
  destruct (gradient_batch_total bs x U Yh a b c Hbs Hx Hok) as [dJ HdJ].
  destruct (ham_mod_batch_on_12 x t bs U Yh beta a b c dJ Hx HdJ)
    as (F & _ & Hrun & Hval).
  rewrite Hval in Hrun. eexists. split; [exact Hrun|].
  pose proof (gradient_batch_length _ _ _ _ _ _ _ _ Hx HdJ) as LdJ.
  destruct (length_12 dJ LdJ) as (g0 & g1 & g2 & g3 & g4 & g5 &
                                   g6 & g7 & g8 & g9 & g10 & g11 & ->).
  reflexivity.
Qed.

(** C3, as stated, fails for the low-level batch field: on a state of even
    length 14 (n = 7) the 14-by-14 matrix is built, but the accumulator
    [zeros(14)] cannot be added to a gradient of twelve entries. *)
Lemma ham_mod_batch_length_14 :
  Nat.even (length (repeat 0 14)) = true /\
  (exists F, ham_mod_batch_F (repeat 0 14) 0 = Ok F) /\
  ham_mod_batch (repeat 0 14) 0 1 [[0; 0]] [[0; 0]] 0 1 1 1 = Raise ValueError.
Proof.
  destruct (ham_mod_batch_F_blocks (repeat 0 14) 0) as (F & HF & _).
  split; [reflexivity|]. split; [exists F; exact HF|].
  unfold ham_mod_batch. rewrite HF. cbn [bind].
  unfold gradient_batch. cbn [seq for_each Np.getitem nth_error bind].
  rewrite gradient_of_14_zeros. reflexivity.
Qed.

(** C3 (amended): on a state of the model's twelve entries (n = 6)
    [ham_mod_batch] returns [F @ dJ] for the batch gradient [dJ], with no
    division by [b]: the top half is the velocity half of [dJ] and the bottom
    half is minus the weight half minus [beta] times the velocity half.
    The batch gradient exists for every batch of [bs >= 1] samples with two
    inputs and two targets each.  [PHNN.forward], for flat gradient halves
    of any common length, returns the same arrangement, assembled directly
    on the halves. *)
Theorem batch_vector_field_structure :
  (forall (x : list R) (t : R) (bs : nat) (U Yh : list (list R))
          (beta a b c : R) (dJ : list R),
     length x = 12%nat -> gradient_batch bs x U Yh a b c = Ok dJ ->
     exists F,
       ham_mod_batch_F x beta = Ok F /\
       ham_mod_batch x t bs U Yh beta a b c = Np.matvec F dJ /\
       ham_mod_batch x t bs U Yh beta a b c =
         Ok (skipn 6 dJ
             ++ Np.zip_with (fun gw gd => - gw - beta * gd)
                  (firstn 6 dJ) (skipn 6 dJ))) /\
  (forall (x : list R) (bs : nat) (U Yh : list (list R)) (a b c : R),
     length x = 12%nat -> (1 <= bs)%nat -> batch_ok bs U Yh ->
     exists dJ, gradient_batch bs x U Yh a b c = Ok dJ) /\
  (forall (backward : Phnn.state_dict_t -> list Phnn.tensor)
          (self : Phnn.PHNN) (t : R) (xi : list R)
          (self' : Phnn.PHNN) (dxdt : list R),
     Phnn.forward backward self t xi = Ok (self', dxdt) ->
     length (Phnn.flat_dJ self') = length (Phnn.flat_dJddw self') ->
     dxdt =
       Phnn.flat_dJddw self'
       ++ Np.zip_with (fun gw gd => -1 * gw - 1 * Phnn.beta self' * gd)
            (Phnn.flat_dJ self') (Phnn.flat_dJddw self')).
Proof.
  split; [|split].
  - intros x t bs U Yh beta a b c dJ Hx HdJ.
    destruct (ham_mod_batch_on_12 x t bs U Yh beta a b c dJ Hx HdJ)
      as (F & HF & Hrun & Hval).
    exists F. split; [exact HF|]. split; [exact Hrun|].
    now rewrite Hrun.
  - intros x bs U Yh a b c Hx Hbs Hok. now apply gradient_batch_total.
  - intros backward self t xi self' dxdt Hrun Hlen.
    apply forward_returns_ode_calcs in Hrun.
    rewrite (ode_calcs_halves self' _ (length (Phnn.flat_dJ self'))) in Hrun.
    + unfold Phnn.getConcatGradient in Hrun.
      rewrite skipn_app, firstn_app, Nat.sub_diag, skipn_all, firstn_all in Hrun.
      cbn [skipn firstn app] in Hrun. rewrite app_nil_r in Hrun.
      now inversion Hrun.
    + unfold Phnn.getConcatGradient. rewrite length_app. lia.
Qed.

(** *** Equilibrium *)

Lemma gradient_velocity_half (x u yh : list R) (a b c : R) (g : list R) :
  length x = 12%nat -> gradient x u yh a b c = Ok g ->
  skipn 6 g = map (fun d => 2 * b * d) (skipn 6 x).
Proof.
  intros Hx H.
  destruct (length_12 x Hx) as (w0 & w1 & w2 & w3 & w4 & w5 &
                                 d0 & d1 & d2 & d3 & d4 & d5 & ->).
  destruct u as [|u1 [|u2 u']]; try discriminate H.
  destruct yh as [|yh1 [|yh2 yh']]; try discriminate H.
  unfold gradient, simple_net, Np.add, Np.broadcast in H.
  cbn in H. injection H as <-. cbn. list_ring.
Qed.

Lemma gradient_batch_velocity_half (bs : nat) (x : list R)
    (U Yh : list (list R)) (a b c : R) (dJ : list R) :
  length x = 12%nat -> skipn 6 x = Np.zeros 6 ->
  gradient_batch bs x U Yh a b c = Ok dJ ->
  skipn 6 dJ = Np.zeros 6.
Proof.
  intros Hx Hdw. unfold gradient_batch. rewrite Hx.
  change (2 * (12 / 2))%nat with 12%nat.
  assert (Inv : forall l acc r,
            length acc = 12%nat -> skipn 6 acc = Np.zeros 6 ->
            for_each l
              (fun dJ_tot i =>
                 u <- Np.getitem U i ;; yh <- Np.getitem Yh i ;;
                 g <- gradient x u yh a b c ;; Np.add dJ_tot g) acc = Ok r ->
            length r = 12%nat /\ skipn 6 r = Np.zeros 6).
  { induction l as [|i l IH]; intros acc r Hacc Hz H; simpl in H.
    - inversion H. subst. now split.
    - destruct (Np.getitem U i); [|discriminate]. simpl in H.
      destruct (Np.getitem Yh i); [|discriminate]. simpl in H.
      destruct (gradient x a0 a1 a b c) as [g|] eqn:G; [|discriminate].
      simpl in H. pose proof (gradient_length _ _ _ _ _ _ _ G) as Lg.
      pose proof (gradient_velocity_half _ _ _ _ _ _ _ Hx G) as Vg.
      rewrite Hdw in Vg.
      unfold Np.add at 1, Np.broadcast in H.
      rewrite Hacc, Lg, Nat.eqb_refl in H. simpl in H.
      apply IH in H; [exact H|rewrite zip_with_length; congruence|].
      destruct (length_12 acc Hacc) as (p0 & p1 & p2 & p3 & p4 & p5 &
                                        p6 & p7 & p8 & p9 & p10 & p11 & ->).
      destruct (length_12 g Lg) as (q0 & q1 & q2 & q3 & q4 & q5 &
                                    q6 & q7 & q8 & q9 & q10 & q11 & ->).
      simpl in *. inversion Hz. inversion Vg. subst. list_ring. }
  intro H. destruct (for_each _ _ _) as [r|] eqn:E; [|discriminate].
  simpl in H. apply Inv in E; [|reflexivity|reflexivity].
  destruct E as [Lr Zr].
  unfold Np.div_scalar in H. destruct (Req_dec_T (INR bs) 0); [discriminate|].
  inversion H. rewrite skipn_map, Zr. unfold Np.zeros, Rdiv. simpl. list_ring.
Qed.

(** C9: at a state with zero velocities whose weight-half gradient is zero,
    and for [b > 0], the vector field is zero in both halves, in the
    single-sample form and in the batch form. *)
Theorem equilibrium_has_zero_derivative :
  (forall (x : list R) (t : R) (u yh : list R) (beta a b c : R) (dJ : list R),
     length x = 12%nat -> skipn 6 x = Np.zeros 6 -> 0 < b ->
     gradient x u yh a b c = Ok dJ -> firstn 6 dJ = Np.zeros 6 ->
     hamiltonian_model x t u yh beta a b c = Ok (Np.zeros 6 ++ Np.zeros 6)) /\
  (forall (x : list R) (t : R) (bs : nat) (U Yh : list (list R))
          (beta a b c : R) (dJ : list R),
     length x = 12%nat -> skipn 6 x = Np.zeros 6 -> 0 < b ->
     gradient_batch bs x U Yh a b c = Ok dJ -> firstn 6 dJ = Np.zeros 6 ->
     ham_mod_batch x t bs U Yh beta a b c = Ok (Np.zeros 6 ++ Np.zeros 6)).
Proof.
  split.
  - intros x t u yh beta a b c dJ Hx Hdw Hb G Hw.
    pose proof (gradient_length _ _ _ _ _ _ _ G) as LdJ.
    pose proof (gradient_velocity_half _ _ _ _ _ _ _ Hx G) as Vg.
    rewrite Hdw in Vg.
    unfold hamiltonian_model. rewrite G, Hx. cbn [bind].
    change (12 / 2)%nat with 6%nat.
    destruct (length_12 dJ LdJ) as (g0 & g1 & g2 & g3 & g4 & g5 &
                                     g6 & g7 & g8 & g9 & g10 & g11 & ->).
    simpl in Hw, Vg. inversion Hw. inversion Vg. subst.
    rewrite !div_scalar_ok by lra. simpl.
    f_equal. unfold Rdiv. list_ring.
  - intros x t bs U Yh beta a b c dJ Hx Hdw Hb G Hw.
    destruct (ham_mod_batch_on_12 x t bs U Yh beta a b c dJ Hx G)
      as (F & _ & Hrun & Hval).
    rewrite Hrun, Hval.
    rewrite (gradient_batch_velocity_half _ _ _ _ _ _ _ _ Hx Hdw G), Hw.
    simpl. f_equal. list_ring.
Qed.

Lemma equilibrium_has_zero_derivative_witness :
  let x := [1; 0; 0; 0; 1; 0; 0; 0; 0; 0; 0; 0] in
  hamiltonian_model x 0 [1; 2] [1; 2] 3 1 1 0 = Ok (Np.zeros 6 ++ Np.zeros 6) /\
  ham_mod_batch x 0 1 [[1; 2]] [[1; 2]] 3 1 1 0 = Ok (Np.zeros 6 ++ Np.zeros 6).
Proof.
  intro x. destruct equilibrium_has_zero_derivative as [H1 H2]. split.
  - eapply H1; [reflexivity|reflexivity|lra| |].
    + unfold gradient, simple_net, Np.add, Np.broadcast. cbn. reflexivity.
    + cbn. list_ring.
  - eapply H2; [reflexivity|reflexivity|lra| |].
    + unfold gradient_batch, gradient, simple_net, Np.add, Np.broadcast. cbn.
      rewrite div_scalar_ok by lra. reflexivity.
    + cbn. unfold Rdiv. list_ring.
Defined.

Lemma batch_vector_field_structure_witness :
  (exists dJ,
     gradient_batch 1 [1; 0; 0; 0; 1; 0; 0; 0; 0; 0; 0; 0] [[1; 2]] [[0; 0]]
       1 1 0 = Ok dJ /\
     ham_mod_batch [1; 0; 0; 0; 1; 0; 0; 0; 0; 0; 0; 0] 0 1 [[1; 2]] [[0; 0]]
       3 1 1 0 =
       Ok (skipn 6 dJ
           ++ Np.zip_with (fun gw gd => - gw - 3 * gd) (firstn 6 dJ) (skipn 6 dJ))) /\
  (exists self' dxdt,
     Phnn.forward example_backward example_phnn 0 [1; 2; 3; 4; 5; 6]
       = Ok (self', dxdt) /\
     dxdt =
       Phnn.flat_dJddw self'
       ++ Np.zip_with (fun gw gd => -1 * gw - 1 * Phnn.beta self' * gd)
            (Phnn.flat_dJ self') (Phnn.flat_dJddw self')).
Proof.
  destruct batch_vector_field_structure as (H1 & Htot & H2). split.
  - assert (G : exists dJ,
              gradient_batch 1 [1; 0; 0; 0; 1; 0; 0; 0; 0; 0; 0; 0]
                [[1; 2]] [[0; 0]] 1 1 0 = Ok dJ).
    { apply Htot; [reflexivity|lia|].
      repeat split; repeat constructor. }
    destruct G as [dJ G]. exists dJ. split; [exact G|].
    destruct (H1 [1; 0; 0; 0; 1; 0; 0; 0; 0; 0; 0; 0] 0 1%nat [[1; 2]] [[0; 0]]
                3 1 1 0 dJ eq_refl G)
      as (F & _ & _ & Hrun).
    exact Hrun.
  - eexists. eexists.
    assert (Hrun : Phnn.forward example_backward example_phnn 0 [1; 2; 3; 4; 5; 6]
                   = Ok (Phnn.mkPHNN
                           [("dense_layers.0.weight"%string,
                             Phnn.mkTensor [1; 2]%nat [1; 2]);
                            ("dense_layers.0.bias"%string,
                             Phnn.mkTensor [1%nat] [3])]
                           2 2 [1; 1; 0] 3 [1; 2; 3] [4; 5; 6]
                           [Phnn.mkTensor [1; 2]%nat
                              [2 * 1 + 2 * 0 * 1; 2 * 2 + 2 * 0 * 1];
                            Phnn.mkTensor [1%nat] [2 * 3 + 2 * 0 * 2]]
                           [2 * 1 * 4; 2 * 1 * 5; 2 * 1 * 6]
                           [2 * 1 + 2 * 0 * 1; 2 * 2 + 2 * 0 * 1;
                            2 * 3 + 2 * 0 * 2]
                           [2 * 1 * 4; 2 * 1 * 5; 2 * 1 * 6] 1,
                         [2 * 1 * 4; 2 * 1 * 5; 2 * 1 * 6;
                          -1 * (2 * 1 + 2 * 0 * 1) - 1 * 3 * (2 * 1 * 4);
                          -1 * (2 * 2 + 2 * 0 * 1) - 1 * 3 * (2 * 1 * 5);
                          -1 * (2 * 3 + 2 * 0 * 2) - 1 * 3 * (2 * 1 * 6)])).
    { reflexivity. }
    split; [exact Hrun|].
    apply (H2 _ _ _ _ _ _ Hrun). reflexivity.
Defined.

(** ** The state codec *)

Lemma flatten_loop (itr : list Phnn.tensor) (w : list R) (s : nat) :
  for_each (seq s (length itr))
    (fun (st : list R * list Phnn.tensor) (i : nat) =>
       p <- Phnn.next (snd st) ;;
       Ok (fst st ++ Phnn.view_flat (fst p), snd p)) (w, itr) =
  Ok (w ++ concat (map Phnn.data itr), []).
Proof.
  revert w s. induction itr as [|p itr IH]; intros w s; simpl.
  - now rewrite app_nil_r.
  - rewrite IH. unfold Phnn.view_flat. now rewrite <- app_assoc.
Qed.

Lemma tensor_eta (t : Phnn.tensor) :
  Phnn.mkTensor (Phnn.shape t) (Phnn.data t) = t.
Proof. now destruct t. Qed.

Lemma view_ok (v : list R) (s : list nat) :
  length v = Phnn.shape_numel s -> Phnn.view v s = Ok (Phnn.mkTensor s v).
Proof. intro H. unfold Phnn.view. now rewrite H, Nat.eqb_refl. Qed.

Lemma slice_middle {A : Type} (pre mid post : list A) (k : nat) :
  length mid = k ->
  Np.slice (pre ++ mid ++ post) (length pre) (length pre + k) = mid.
Proof.
  intro Hk. unfold Np.slice.
  replace (length pre + k - length pre)%nat with k by lia.
  rewrite skipn_app, Nat.sub_diag, skipn_all. cbn [skipn app].
  rewrite firstn_app, Hk, Nat.sub_diag. cbn [firstn].
  rewrite app_nil_r. apply firstn_all2. lia.
Qed.

Lemma unflatten_loop_general (self : Phnn.PHNN) (rest d : Phnn.state_dict_t)
    (pre v : list R) :
  Phnn.flat_w self = pre ++ v -> (total_numel rest <= length v)%nat ->
  for_each rest
    (fun (s : Phnn.state_dict_t * nat) (e : string * Phnn.tensor) =>
       let (d, k) := s in
       let key := fst e in
       let num_el := Phnn.numel (snd e) in
       t <- Phnn.view (Np.slice (Phnn.flat_w self) k (k + num_el))
                      (Phnn.shape (snd e)) ;;
       Ok (d ++ [(key, t)], (k + num_el)%nat))
    (d, length pre) =
  Ok (d ++ unflatten rest v, (length pre + total_numel rest)%nat).
Proof.
  revert d pre v. induction rest as [|[key t] rest IH]; intros d pre v Hflat Hlen.
  - simpl. now rewrite app_nil_r, Nat.add_0_r.
  - cbn [total_numel] in Hlen. cbn [for_each fst snd].
    assert (Lf : length (firstn (Phnn.numel t) v) = Phnn.numel t)
      by (rewrite length_firstn; lia).
    rewrite Hflat at 1. rewrite <- (firstn_skipn (Phnn.numel t) v) at 1.
    rewrite slice_middle by exact Lf.
    rewrite view_ok by exact Lf. cbn [bind].
    replace (length pre + Phnn.numel t)%nat
      with (length (pre ++ firstn (Phnn.numel t) v))
      by (rewrite length_app, Lf; reflexivity).
    etransitivity.
    + apply (IH _ (pre ++ firstn (Phnn.numel t) v) (skipn (Phnn.numel t) v)).
      * now rewrite <- app_assoc, firstn_skipn.
      * rewrite length_skipn. lia.
    + cbn [unflatten total_numel]. rewrite <- app_assoc, length_app, Lf.
      cbn [app]. f_equal. f_equal. lia.
Qed.

Lemma unflatten_length (sd : Phnn.state_dict_t) (v : list R) :
  length (unflatten sd v) = length sd.
Proof.
  revert v. induction sd as [|[key t] sd IH]; intro v; simpl;
    [reflexivity|now rewrite IH].
Qed.

Lemma flatten_unflatten (sd : Phnn.state_dict_t) (v : list R) :
  length v = total_numel sd -> flatten (unflatten sd v) = v.
Proof.
  unfold flatten, Phnn.parameters.
  revert v. induction sd as [|[key t] sd IH]; intros v Hv; simpl in *.
  - symmetry. now apply length_zero_iff_nil.
  - rewrite IH by (rewrite length_skipn; lia). apply firstn_skipn.
Qed.

Lemma unflatten_flatten (sd : Phnn.state_dict_t) :
  Forall Phnn.wf_tensor (Phnn.parameters sd) -> unflatten sd (flatten sd) = sd.
Proof.
  unfold flatten, Phnn.parameters.
  induction sd as [|[key t] sd IH]; intro Hwf; simpl in *; [reflexivity|].
  inversion Hwf as [|? ? Ht Hrest]; subst. unfold Phnn.wf_tensor in Ht.
  rewrite <- Ht, firstn_app, Nat.sub_diag, firstn_all, skipn_app, Nat.sub_diag,
    skipn_all.
  cbn [firstn skipn app]. rewrite app_nil_r, tensor_eta, IH by exact Hrest.
  reflexivity.
Qed.

Lemma flattenParamVector_flatten (self : Phnn.PHNN) :
  Phnn.predictor self <> [] ->
  Phnn.lenp self = length (Phnn.parameters (Phnn.predictor self)) ->
  Phnn.flattenParamVector self = Ok (flatten (Phnn.predictor self)).
Proof.
  intros Hne Hlen. unfold Phnn.flattenParamVector, flatten. rewrite Hlen.
  destruct (Phnn.predictor self) as [|[key p] rest]; [contradiction|].
  cbn [Phnn.parameters map snd Phnn.next bind fst length].
  rewrite Nat.sub_succ, Nat.sub_0_r.
  rewrite flatten_loop. reflexivity.
Qed.

Lemma makeStateDict_unflatten (self : Phnn.PHNN) :
  (total_numel (Phnn.predictor self) <= length (Phnn.flat_w self))%nat ->
  Phnn.makeStateDict self = Ok (unflatten (Phnn.predictor self) (Phnn.flat_w self)).
Proof.
  intro Hlen.
  pose proof (unflatten_loop_general self (Phnn.predictor self) [] []
                (Phnn.flat_w self) eq_refl Hlen) as Hloop.
  unfold Phnn.makeStateDict.
  run_head Hloop. reflexivity.
Qed.

Lemma flatten_total_numel (sd : Phnn.state_dict_t) :
  Forall Phnn.wf_tensor (Phnn.parameters sd) ->
  length (flatten sd) = total_numel sd.
Proof.
  unfold flatten, Phnn.parameters.
  induction sd as [|[key t] sd IH]; intro Hwf; simpl in *; [reflexivity|].
  inversion Hwf as [|? ? Ht Hrest]; subst.
  rewrite length_app, IH by exact Hrest. now rewrite Ht.
Qed.

(** C6: flattening the parameters of a predictor and unflattening the flat
    vector gives back the state dict itself: the same keys in the same
    order, every tensor with its shape and its values.  The code computes
    the [flatten] and [unflatten] of the specification, and in the other
    direction a flat vector of the right size that is unflattened, loaded
    and flattened again comes back unchanged. *)
Theorem flatten_unflatten_roundtrip (self : Phnn.PHNN) :
  Phnn.predictor self <> [] ->
  Phnn.lenp self = length (Phnn.parameters (Phnn.predictor self)) ->
  Forall Phnn.wf_tensor (Phnn.parameters (Phnn.predictor self)) ->
  (exists w,
     Phnn.flattenParamVector self = Ok w /\
     w = flatten (Phnn.predictor self) /\
     Phnn.makeStateDict (Phnn.with_state self w (Phnn.flat_wdot self)) =
       Ok (Phnn.predictor self)) /\
  (forall w wdot,
     length w = total_numel (Phnn.predictor self) ->
     exists sd,
       Phnn.makeStateDict (Phnn.with_state self w wdot) = Ok sd /\
       sd = unflatten (Phnn.predictor self) w /\
       Phnn.flattenParamVector
         (Phnn.with_predictor (Phnn.with_state self w wdot) sd) = Ok w).
Proof.
  intros Hne Hlen Hwf. split.
  - exists (flatten (Phnn.predictor self)).
    split; [now apply flattenParamVector_flatten|]. split; [reflexivity|].
    rewrite makeStateDict_unflatten.
    + cbn [Phnn.with_state Phnn.predictor Phnn.flat_w].
      now rewrite unflatten_flatten.
    + cbn [Phnn.with_state Phnn.predictor Phnn.flat_w].
      now rewrite flatten_total_numel.
  - intros w wdot Hw. eexists. split; [|split; [reflexivity|]].
    + rewrite makeStateDict_unflatten; [reflexivity|].
      cbn [Phnn.with_state Phnn.predictor Phnn.flat_w]. lia.
    + rewrite flattenParamVector_flatten.
      * cbn [Phnn.with_predictor Phnn.with_state Phnn.predictor].
        now rewrite flatten_unflatten.
      * cbn [Phnn.with_predictor Phnn.with_state Phnn.predictor].
        destruct (Phnn.predictor self) as [|[key t] rest]; [contradiction|].
        discriminate.
      * cbn [Phnn.with_predictor Phnn.with_state Phnn.predictor Phnn.lenp].
        unfold Phnn.parameters. rewrite Hlen.
        unfold Phnn.parameters. now rewrite !length_map, unflatten_length.
Qed.

Lemma flatten_unflatten_roundtrip_witness :
  exists self,
    Phnn.init example_predictor [1; 1; 0] 3 (fun _ => 0) = Ok self /\
    Phnn.flat_w self = [1; 2; 3] /\
    Phnn.makeStateDict self = Ok example_predictor.
Proof.
  eexists. split; [reflexivity|]. split; [reflexivity|].
  destruct (flatten_unflatten_roundtrip
              (Phnn.mkPHNN example_predictor 2 2 [1; 1; 0] 3 [] [0; 0; 0]
                 [] [] [] [] 0))
    as [(w & Hw & -> & Hd) _].
  - discriminate.
  - reflexivity.
  - repeat constructor.
  - exact Hd.
Defined.

(** ** The evaluators *)

Lemma skipn_cons_nth {A : Type} (l : list A) (s : nat) (d : A) :
  (s < length l)%nat -> skipn s l = nth s l d :: skipn (S s) l.
Proof.
  revert s. induction l as [|a l IH]; intros s Hs; simpl in Hs; [lia|].
  destruct s as [|s]; [reflexivity|]. simpl. apply IH. lia.
Qed.

Lemma accuracy_inner_loop (idx y : list nat) (n s tot count : nat) :
  (s + n = length idx)%nat -> (length idx <= length y)%nat ->
  for_each (seq s n)
    (fun (st : nat * nat) (i : nat) =>
       let (tot, count) := st in
       p <- Np.getitem idx i ;;
       l <- Np.getitem y i ;;
       let count := if (p =? l)%nat then S count else count in
       Ok (S tot, count)) (tot, count) =
  Ok ((tot + n)%nat,
      (count + agreements (combine (skipn s idx) (skipn s y)))%nat).
Proof.
  revert s tot count. induction n as [|n IH]; intros s tot count Hs Hy.
  - simpl. rewrite skipn_all2 by lia. simpl. now rewrite !Nat.add_0_r.
  - cbn [seq for_each].
    rewrite (getitem_nth idx s 0%nat) by lia.
    rewrite (getitem_nth y s 0%nat) by lia. cbn [bind].
    rewrite IH by lia.
    rewrite (skipn_cons_nth idx s 0%nat), (skipn_cons_nth y s 0%nat) by lia.
 unfold agreements. cbn [combine filter fst snd].
    destruct (nth s idx 0 =? nth s y 0)%nat; cbn [length];
      f_equal; f_equal; lia.
Qed.

Lemma agreements_app (a b : list (nat * nat)) :
  agreements (a ++ b) = (agreements a + agreements b)%nat.
Proof. unfold agreements. now rewrite filter_app, length_app. Qed.

Lemma pred_accuracy_counts {input : Type}
    (predict : Phnn.state_dict_t -> input -> list (list R))
    (self : Phnn.PHNN) (testloader : list (input * list nat)) :
  loader_ok predict self testloader ->
  loader_samples predict self testloader <> [] ->
  Phnn.pred_accuracy input predict self testloader =
    Ok (INR (agreements (loader_samples predict self testloader))
        / INR (length (loader_samples predict self testloader))).
Proof.
  intros Hok Hne. unfold Phnn.pred_accuracy.
  assert (Loop : forall tl tot count,
            loader_ok predict self tl ->
            for_each tl
              (fun (s : nat * nat) (d : input * list nat) =>
                 let (x, y) := d in
                 idx <- mapM Phnn.argmax
                          (map (map exp) (predict (Phnn.predictor self) x)) ;;
                 for_each (seq 0 (length idx))
                   (fun (s : nat * nat) (i : nat) =>
                      let (tot, count) := s in
                      p <- Np.getitem idx i ;;
                      l <- Np.getitem y i ;;
                      let count := if (p =? l)%nat then S count else count in
                      Ok (S tot, count)) s)
              (tot, count) =
            Ok ((tot + length (loader_samples predict self tl))%nat,
                (count + agreements (loader_samples predict self tl))%nat)).
  { induction tl as [|[x y] tl IH]; intros tot count Htl.
    - simpl. now rewrite !Nat.add_0_r.
    - inversion Htl as [|? ? (idx & Hidx & Hlen) Htl']; subst.
      cbn [fst snd] in Hidx, Hlen. unfold predicted_labels in Hidx.
      cbn [for_each]. rewrite Hidx. cbn [bind].
      run_head (accuracy_inner_loop idx y (length idx) 0 tot count
                  ltac:(lia) Hlen).
      cbn [bind skipn]. rewrite IH by exact Htl'.
      unfold loader_samples. cbn [map concat fst snd].
      unfold predicted_labels. rewrite Hidx.
      rewrite length_app, agreements_app, length_combine, Nat.min_l by exact Hlen.
      f_equal. f_equal; lia. }
  match goal with
  | |- bind ?m _ = _ =>
      assert (E : m = Ok ((0 + length (loader_samples predict self testloader))%nat,
                          (0 + agreements (loader_samples predict self testloader))%nat))
        by (apply Loop; exact Hok);
      rewrite E
  end.
  cbn [bind Nat.add].
  destruct (Nat.eqb_spec (length (loader_samples predict self testloader)) 0)
    as [E0|_]; [|reflexivity].
  apply length_zero_iff_nil in E0. contradiction.
Qed.

Lemma simple_net_two_outputs (u w y : list R) :
  simple_net u w = Ok y -> exists y0 y1, y = [y0; y1].
Proof.
  unfold simple_net. intro H.
  repeat match type of H with
         | context [bind ?m _] =>
             destruct m; cbn [bind] in H; [|discriminate H]
         end.
  inversion H. now eexists; eexists.
Qed.

(** The low-level evaluator counts a sample when both the prediction and the
    reference put the larger value first. *)
Lemma test_two_samples (x X1 X2 r1 r2 y1 y2 : list R) (trained train_test : bool) :
  simple_net X1 x = Ok y1 -> simple_net X2 x = Ok y2 ->
  length r1 = 2%nat -> length r2 = 2%nat ->
  test x [X1; X2] [r1; r2] trained train_test =
    Ok (INR ((if (label y1 =? 0)%nat && (label r1 =? 0)%nat then 1 else 0)
             + (if (label y2 =? 0)%nat && (label r2 =? 0)%nat then 1 else 0))
        * 100 / INR 2).
Proof.
  intros H1 H2 L1 L2.
  destruct (simple_net_two_outputs _ _ _ H1) as (a0 & a1 & ->).
  destruct (simple_net_two_outputs _ _ _ H2) as (b0 & b1 & ->).
  destruct r1 as [|p0 [|p1 [|? ?]]]; try discriminate L1.
  destruct r2 as [|q0 [|q1 [|? ?]]]; try discriminate L2.
  unfold test, label.
  cbn [length seq for_each Np.getitem nth_error bind nth].
  rewrite H1. cbn [bind Np.getitem nth_error].
  destruct (Rlt_dec a1 a0), (Rlt_dec p1 p0);
    cbn [for_each Np.getitem nth_error bind]; rewrite H2;
    cbn [bind Np.getitem nth_error];
    destruct (Rlt_dec b1 b0), (Rlt_dec q1 q0); reflexivity.
Qed.

Lemma example_predicted_labels (self : Phnn.PHNN) :
  predicted_labels example_predict self tt = Ok [0%nat; 1%nat].
Proof.
  unfold predicted_labels, example_predict.
  cbn [map mapM Phnn.argmax Phnn.argmax_from bind].
  assert (Hlt : exp (-1) < exp 0) by (apply exp_increasing; lra).
  destruct (Rlt_dec (exp 0) (exp (-1))) as [H|_]; [lra|].
  destruct (Rlt_dec (exp (-1)) (exp 0)) as [_|H]; [|lra].
  reflexivity.
Qed.

(** C7, as stated, fails for the high-level evaluator: when both predicted
    labels equal the reference labels, [pred_accuracy] returns the fraction
    [count/tot = 1], not the percentage [100]. *)
Lemma pred_accuracy_returns_fraction :
  predicted_labels example_predict example_phnn tt = Ok [0%nat; 1%nat] /\
  Phnn.pred_accuracy unit example_predict example_phnn [(tt, [0%nat; 1%nat])]
    = Ok 1 /\
  Ok 1 <> Ok 100.
Proof.
  split; [apply example_predicted_labels|]. split.
  - rewrite pred_accuracy_counts.
    + unfold loader_samples. cbn [map fst snd concat].
      rewrite example_predicted_labels. cbn. f_equal. field.
    + constructor; [|constructor]. exists [0%nat; 1%nat].
      split; [apply example_predicted_labels|cbn; lia].
    + unfold loader_samples. cbn [map fst snd concat].
      rewrite example_predicted_labels. discriminate.
  - intro H. injection H. lra.
Qed.

(** The low-level evaluator counts agreement on class 0 only: two samples
    that are predicted as class 1 and labelled class 1 score [0]. *)
Lemma test_ignores_class_1_agreement :
  simple_net [0; 0] [0; 0; 0; 0; 0; 1] = Ok [0 * 0 + 0 * 0 + 0; 0 * 0 + 0 * 0 + 1] /\
  label [0 * 0 + 0 * 0 + 0; 0 * 0 + 0 * 0 + 1] = 1%nat /\
  label [0; 1] = 1%nat /\
  test [0; 0; 0; 0; 0; 1] [[0; 0]; [0; 0]] [[0; 1]; [0; 1]] true false = Ok 0.
Proof.
  assert (L1 : label [0 * 0 + 0 * 0 + 0; 0 * 0 + 0 * 0 + 1] = 1%nat).
  { unfold label. cbn [nth]. destruct (Rlt_dec _ _) as [H|_]; [lra|reflexivity]. }
  assert (L2 : label [0; 1] = 1%nat).
  { unfold label. cbn [nth]. destruct (Rlt_dec _ _) as [H|_]; [lra|reflexivity]. }
  split; [reflexivity|]. split; [exact L1|]. split; [exact L2|].
  rewrite (test_two_samples [0; 0; 0; 0; 0; 1] [0; 0] [0; 0] [0; 1] [0; 1]
             [0 * 0 + 0 * 0 + 0; 0 * 0 + 0 * 0 + 1]
             [0 * 0 + 0 * 0 + 0; 0 * 0 + 0 * 0 + 1]
             true false eq_refl eq_refl eq_refl eq_refl).
  rewrite L1, L2. cbn. f_equal. field.
Qed.

(** C7 (amended): on a two-sample set, the low-level [test] returns [100]
    when in both samples the prediction and the reference put the larger
    value first, and [0] when neither predicted label matches its
    reference; [pred_accuracy] returns the fraction of samples whose
    arg-max class equals the reference label, [1] when both match and [0]
    when neither does. *)
Theorem accuracy_on_two_samples :
  (forall (x X1 X2 r1 r2 y1 y2 : list R) (trained train_test : bool),
     simple_net X1 x = Ok y1 -> simple_net X2 x = Ok y2 ->
     length r1 = 2%nat -> length r2 = 2%nat ->
     (label y1 = 0%nat /\ label r1 = 0%nat /\
      label y2 = 0%nat /\ label r2 = 0%nat ->
      test x [X1; X2] [r1; r2] trained train_test = Ok 100) /\
     (label y1 <> label r1 /\ label y2 <> label r2 ->
      test x [X1; X2] [r1; r2] trained train_test = Ok 0)) /\
  (forall (input : Type)
          (predict : Phnn.state_dict_t -> input -> list (list R))
          (self : Phnn.PHNN) (testloader : list (input * list nat)),
     loader_ok predict self testloader ->
     length (loader_samples predict self testloader) = 2%nat ->
     (Forall (fun p => fst p = snd p) (loader_samples predict self testloader) ->
      Phnn.pred_accuracy input predict self testloader = Ok 1) /\
     (Forall (fun p => fst p <> snd p) (loader_samples predict self testloader) ->
      Phnn.pred_accuracy input predict self testloader = Ok 0)).
Proof.
  split.
  - intros x X1 X2 r1 r2 y1 y2 trained train_test H1 H2 L1 L2.
    rewrite (test_two_samples _ _ _ _ _ _ _ trained train_test H1 H2 L1 L2).
    split.
    + intros (-> & -> & -> & ->). cbn. f_equal. field.
    + intros [N1 N2].
      destruct (Nat.eqb_spec (label y1) 0) as [E1|_],
               (Nat.eqb_spec (label r1) 0) as [E1'|_]; try congruence;
      destruct (Nat.eqb_spec (label y2) 0) as [E2|_],
               (Nat.eqb_spec (label r2) 0) as [E2'|_]; try congruence;
      cbn; f_equal; field.
  - intros input predict self testloader Hok Hlen.
    assert (Hne : loader_samples predict self testloader <> []).
    { intro E. rewrite E in Hlen. discriminate. }
    rewrite (pred_accuracy_counts predict self testloader Hok Hne), Hlen.
    destruct (loader_samples predict self testloader) as [|[p1 l1] [|[p2 l2] [|? ?]]];
      try discriminate Hlen.
    unfold agreements. cbn [filter fst snd]. split.
    + intro HF. inversion HF as [|? ? E1 HF']. inversion HF' as [|? ? E2 _].
      cbn [fst snd] in E1, E2. subst.
      rewrite !Nat.eqb_refl. cbn. f_equal. field.
    + intro HF. inversion HF as [|? ? E1 HF']. inversion HF' as [|? ? E2 _].
      cbn [fst snd] in E1, E2.
      apply Nat.eqb_neq in E1, E2. rewrite E1, E2. cbn. f_equal. field.
Qed.

Lemma accuracy_on_two_samples_witness :
  test [1; 0; 0; 0; 1; 0] [[2; 1]; [3; 0]] [[1; 0]; [1; 0]] true true = Ok 100 /\
  test [1; 0; 0; 0; 1; 0] [[2; 1]; [3; 0]] [[0; 1]; [0; 1]] true true = Ok 0 /\
  Phnn.pred_accuracy unit example_predict example_phnn [(tt, [0%nat; 1%nat])]
    = Ok 1 /\
  Phnn.pred_accuracy unit example_predict example_phnn [(tt, [1%nat; 0%nat])]
    = Ok 0.
Proof.
  destruct accuracy_on_two_samples as [Hlow Hhigh].
  assert (A : label [1 * 2 + 0 * 1 + 0; 0 * 2 + 1 * 1 + 0] = 0%nat).
  { unfold label. cbn [nth]. destruct (Rlt_dec _ _) as [_|H]; [reflexivity|lra]. }
  assert (B : label [1 * 3 + 0 * 0 + 0; 0 * 3 + 1 * 0 + 0] = 0%nat).
  { unfold label. cbn [nth]. destruct (Rlt_dec _ _) as [_|H]; [reflexivity|lra]. }
  assert (C : label [1; 0] = 0%nat).
  { unfold label. cbn [nth]. destruct (Rlt_dec _ _) as [_|H]; [reflexivity|lra]. }
  assert (D : label [0; 1] = 1%nat).
  { unfold label. cbn [nth]. destruct (Rlt_dec _ _) as [H|_]; [lra|reflexivity]. }
  assert (Hok : forall ys, length ys = 2%nat ->
            loader_ok example_predict example_phnn [(tt, ys)]).
  { intros ys Hys. constructor; [|constructor]. exists [0%nat; 1%nat].
    split; [apply example_predicted_labels|cbn [fst snd length]; lia]. }
  split; [|split; [|split]].
  - apply (Hlow [1; 0; 0; 0; 1; 0] [2; 1] [3; 0] [1; 0] [1; 0] _ _ true true
             eq_refl eq_refl eq_refl eq_refl).
    repeat split; assumption.
  - apply (Hlow [1; 0; 0; 0; 1; 0] [2; 1] [3; 0] [0; 1] [0; 1] _ _ true true
             eq_refl eq_refl eq_refl eq_refl).
    rewrite A, B, D. split; discriminate.
  - apply (Hhigh unit example_predict example_phnn [(tt, [0%nat; 1%nat])]).
    + apply Hok. reflexivity.
    + unfold loader_samples. cbn [map fst snd concat].
      now rewrite example_predicted_labels.
    + unfold loader_samples. cbn [map fst snd concat].
      rewrite example_predicted_labels. repeat constructor.
  - apply (Hhigh unit example_predict example_phnn [(tt, [1%nat; 0%nat])]).
    + apply Hok. reflexivity.
    + unfold loader_samples. cbn [map fst snd concat].
      now rewrite example_predicted_labels.
    + unfold loader_samples. cbn [map fst snd concat].
      rewrite example_predicted_labels. repeat constructor; discriminate.
Defined.

(** ** [train] *)

Lemma concat_pairs_length (X : list (list R)) :
  Forall (fun r => length r = 2%nat) X ->
  length (concat X) = (2 * length X)%nat.
Proof.
  induction 1 as [|r X Hr _ IH]; simpl; [reflexivity|].
  rewrite length_app, Hr, IH. lia.
Qed.

(** C8: a batch size that does not divide the number of samples is rejected
    by the reshape at the start of [train] with numpy's shape error, whatever
    the integrator is; the count of started integrations is unchanged, so no
    integration step has run and no prefix of the data has been processed. *)
Theorem train_rejects_uneven_batch_size
    (odeint : (list R -> R -> result (list R)) -> list R -> list R
              -> result (list (list R)))
    (X y : list (list R)) (bs epochs : nat) (x0 : list R)
    (a b c beta : R) (t : list R) (k : nat) :
  (0 < bs)%nat ->
  Forall (fun r => length r = 2%nat) X ->
  (length X mod bs <> 0)%nat ->
  train odeint X y bs epochs x0 a b c beta t k = (Raise ValueError, k).
Proof.
  intros Hbs HX Hmod.
  unfold train, tbind, lift.
  destruct (Nat.eqb_spec bs 0) as [E|_]; [lia|].
  unfold reshape3. rewrite (concat_pairs_length X HX).
  pose proof (Nat.div_mod_eq (length X) bs) as Hdiv.
  destruct (Nat.eqb_spec (2 * length X) (length X / bs * bs * 2)) as [E|_];
    [|reflexivity].
  exfalso. nia.
Qed.

Lemma train_rejects_uneven_batch_size_witness :
  train example_odeint (repeat [0; 0] 10) (repeat [0; 0] 10) 4%nat 3%nat
    (repeat 0 12) 1 1 1 1 [0; 1] 0%nat = (Raise ValueError, 0%nat).
Proof.
  apply train_rejects_uneven_batch_size.
  - lia.
  - repeat constructor.
  - cbn. discriminate.
Defined.

Lemma chunks_length {A : Type} (n k : nat) (l : list A) :
  length (chunks n k l) = n.
Proof.
  revert l. induction n as [|n IH]; intro l; simpl; [reflexivity|].
  now rewrite IH.
Qed.

Lemma chunks_sizes {A : Type} (n k : nat) (l : list A) :
  length l = (n * k)%nat -> Forall (fun ch => length ch = k) (chunks n k l).
Proof.
  revert l. induction n as [|n IH]; intros l Hl; simpl; constructor.
  - rewrite length_firstn. simpl in Hl. lia.
  - apply IH. rewrite length_skipn. simpl in Hl. lia.
Qed.

Lemma chunks_members {A : Type} (P : A -> Prop) (n k : nat) (l : list A) :
  Forall P l -> Forall (Forall P) (chunks n k l).
Proof.
  revert l. induction n as [|n IH]; intros l Hl; simpl; constructor.
  - rewrite <- (firstn_skipn k l) in Hl. now apply Forall_app in Hl.
  - apply IH. rewrite <- (firstn_skipn k l) in Hl. now apply Forall_app in Hl.
Qed.

Lemma reshape3_ok (X : list (list R)) (nb bs : nat) :
  Forall (fun r => length r = 2%nat) X -> length X = (nb * bs)%nat ->
  exists Ub,
    reshape3 X nb bs 2 = Ok Ub /\ length Ub = nb /\
    Forall (fun U => length U = bs /\ Forall (fun u => length u = 2%nat) U) Ub.
Proof.
  intros HX HN. unfold reshape3.
  rewrite (concat_pairs_length X HX), HN.
  replace (2 * (nb * bs))%nat with (nb * bs * 2)%nat by lia.
  rewrite Nat.eqb_refl. eexists. split; [reflexivity|].
  split; [apply chunks_length|].
  assert (Hrows : Forall (fun u => length u = 2%nat)
                    (chunks (nb * bs) 2 (concat X))).
  { apply chunks_sizes. rewrite (concat_pairs_length X HX), HN. lia. }
  pose proof (chunks_sizes nb bs (chunks (nb * bs) 2 (concat X))
                ltac:(now rewrite chunks_length)) as H1.
  pose proof (chunks_members _ nb bs _ Hrows) as H2.
  rewrite Forall_forall in *. intros U HU. split; [now apply H1|].
  apply Forall_forall. specialize (H2 U HU). now rewrite Forall_forall in H2.
Qed.

Lemma vstack_rows_ok (w : nat) (a b : list (list R)) :
  Forall (fun row => length row = w) a ->
  Forall (fun row => length row = w) b ->
  vstack_rows a b = Ok (a ++ b).
Proof.
  intros Ha Hb. unfold vstack_rows.
  destruct a as [|r a]; [reflexivity|]. destruct b as [|s b]; [reflexivity|].
  unfold Np.vstack2. cbn [Np.width].
  inversion Ha; inversion Hb; subst. now rewrite H5, Nat.eqb_refl.
Qed.

Lemma last_item_ok {A : Type} (l : list A) :
  l <> [] -> exists a, Np.last_item l = Ok a /\ In a l.
Proof.
  intro Hne. unfold Np.last_item.
  destruct (rev l) as [|a r] eqn:E.
  - apply (f_equal (@rev A)) in E. rewrite rev_involutive in E. now subst.
  - exists a. split; [reflexivity|]. apply in_rev. rewrite E. now left.
Qed.

Lemma slice_to_last_length {A : Type} (l : list A) (lo : nat) :
  length (Np.slice_to_last l lo) = (length l - 1 - lo)%nat.
Proof.
  unfold Np.slice_to_last, Np.slice. rewrite length_firstn, length_skipn. lia.
Qed.

Lemma nonempty_of_length {A : Type} (l : list A) (n : nat) :
  length l = S n -> l <> [].
Proof. intros H E. subst. discriminate. Qed.

Section TrainShape.

Variable odeint : (list R -> R -> result (list R)) -> list R -> list R
                  -> result (list (list R)).
Hypothesis Hode : odeint_contract odeint.

Variables (bs N_batch : nat) (Ub Yhb : list (list (list R))).
Variables (a b c beta : R) (t : list R).

Hypothesis Hbs : (1 <= bs)%nat.
Hypothesis LUb : length Ub = N_batch.
Hypothesis LYhb : length Yhb = N_batch.
Hypothesis HUb :
  Forall (fun U => length U = bs /\ Forall (fun u => length u = 2%nat) U) Ub.
Hypothesis HYhb :
  Forall (fun U => length U = bs /\ Forall (fun u => length u = 2%nat) U) Yhb.

Lemma batch_of_reshape (i : nat) :
  (i < N_batch)%nat -> batch_ok bs (nth i Ub []) (nth i Yhb []).
Proof.
  intro Hi. rewrite Forall_forall in HUb, HYhb.
  destruct (HUb (nth i Ub [])) as [H1 H2]; [apply nth_In; lia|].
  destruct (HYhb (nth i Yhb [])) as [H3 H4]; [apply nth_In; lia|].
  repeat split; assumption.
Qed.

Lemma loss_rows (U Yh : list (list R)) (sol : list (list R)) :
  batch_ok bs U Yh ->
  Forall (fun row => length row = 12%nat) sol ->
  exists Ji,
    mapM (fun row => l <- loss_batch bs row U Yh a b c ;; Ok [l]) sol = Ok Ji /\
    length Ji = length sol /\
    Forall (fun row => length row = 1%nat) Ji.
Proof.
  intros Hok. induction 1 as [|row sol Hrow _ (Ji & E & LJ & FJ)].
  - exists []. repeat split. constructor.
  - destruct (loss_batch_total bs row U Yh a b c Hbs Hrow Hok) as [v Hv].
    exists ([v] :: Ji). cbn [mapM]. rewrite Hv. cbn [bind]. rewrite E.
    cbn [bind length]. repeat split; [now rewrite LJ|].
    constructor; [reflexivity|exact FJ].
Qed.

Lemma train_batch_shape (m e : nat) (r : records) (i k : nat) :
  records_shape m e (length t) r -> (i < N_batch)%nat ->
  exists r',
    train_batch odeint bs Ub Yhb a b c beta t r i k = (Ok r', S k) /\
    records_shape (S m) e (length t) r'.
Proof.
  intros (Lxf & Fxf & Ltf & LJ & FJ & Lxep & Fxep & LJep & FJep) Hi.
  pose proof (batch_of_reshape i Hi) as Hok.
  destruct (last_item_ok (xf r) (nonempty_of_length _ _ Lxf)) as (x0 & Ex0 & Hin).
  assert (Lx0 : length x0 = 12%nat).
  { rewrite Forall_forall in Fxf. now apply Fxf. }
  destruct (Hode (fun x s => ham_mod_batch x s bs (nth i Ub []) (nth i Yhb [])
                               beta a b c) x0 t)
    as (sol & Esol & Lsol & Fsol).
  { intros x s Hx. rewrite Lx0 in *.
    apply ham_mod_batch_total; assumption. }
  rewrite Lx0 in Fsol.
  destruct (last_item_ok (tf r) (nonempty_of_length _ _ Ltf)) as (tl & Etl & _).
  destruct (loss_rows _ _ sol Hok Fsol) as (Ji & EJi & LJi & FJi).
  unfold train_batch, tbind, lift, call_odeint, tret.
  rewrite (getitem_nth Ub i []) by lia.
  rewrite (getitem_nth Yhb i []) by lia.
  rewrite Ex0, Esol, (vstack_rows_ok 12 _ _ Fxf Fsol), Etl, EJi,
    (vstack_rows_ok 1 _ _ FJ FJi).
  eexists. split; [reflexivity|].
  unfold records_shape. cbn [xf tf J xep Jep].
  rewrite !length_app, length_map, Lxf, Ltf, LJ, LJi, Lsol.
  repeat split; try assumption; try lia.
  - apply Forall_app. now split.
  - apply Forall_app. now split.
Qed.

Lemma train_batches_shape (n s m e : nat) (r : records) (k : nat) :
  records_shape m e (length t) r -> (s + n <= N_batch)%nat ->
  exists r',
    tfor_each (seq s n) (train_batch odeint bs Ub Yhb a b c beta t) r k
      = (Ok r', (k + n)%nat) /\
    records_shape (m + n) e (length t) r'.
Proof.
  revert s m r k. induction n as [|n IH]; intros s m r k Hr Hs.
  - exists r. cbn. unfold tret. now rewrite !Nat.add_0_r.
  - destruct (train_batch_shape m e r s k Hr) as (r1 & E1 & H1); [lia|].
    destruct (IH (S s) (S m) r1 (S k) H1) as (r2 & E2 & H2); [lia|].
    exists r2. cbn [seq tfor_each]. unfold tbind at 1. rewrite E1, E2.
    split; [f_equal; lia|].
    now replace (m + S n)%nat with (S m + n)%nat by lia.
Qed.

Lemma train_epoch_shape (m e : nat) (r : records) (j k : nat) :
  records_shape m e (length t) r ->
  exists r',
    train_epoch odeint bs N_batch Ub Yhb a b c beta t r j k
      = (Ok r', (k + N_batch)%nat) /\
    records_shape (m + N_batch) (S e) (length t) r'.
Proof.
  intro Hr.
  destruct (train_batches_shape N_batch 0 m e r k Hr)
    as (r1 & E1 & Lxf & Fxf & Ltf & LJ & FJ & Lxep & Fxep & LJep & FJep);
    [lia|].
  destruct (last_item_ok (xf r1) (nonempty_of_length _ _ Lxf))
    as (xlast & Ex & Hinx).
  destruct (last_item_ok (J r1) (nonempty_of_length _ _ LJ))
    as (Jlast & EJ & HinJ).
  assert (Fx : Forall (fun row => length row = 12%nat) [xlast]).
  { constructor; [|constructor]. rewrite Forall_forall in Fxf. now apply Fxf. }
  assert (FJl : Forall (fun row => length row = 1%nat) [Jlast]).
  { constructor; [|constructor]. rewrite Forall_forall in FJ. now apply FJ. }
  unfold train_epoch. unfold tbind at 1. rewrite E1.
  unfold tbind, lift, tret.
  rewrite Ex, (vstack_rows_ok 12 _ _ Fxep Fx), EJ,
    (vstack_rows_ok 1 _ _ FJep FJl).
  eexists. split; [reflexivity|].
  unfold records_shape. cbn [xf tf J xep Jep].
  rewrite !length_app, Lxep, LJep. cbn [length].
  repeat split; try assumption; try lia.
  - apply Forall_app. now split.
  - apply Forall_app. now split.
Qed.

Lemma train_epochs_shape (E s m e : nat) (r : records) (k : nat) :
  records_shape m e (length t) r ->
  exists r',
    tfor_each (seq s E)
      (train_epoch odeint bs N_batch Ub Yhb a b c beta t) r k
      = (Ok r', (k + E * N_batch)%nat) /\
    records_shape (m + E * N_batch) (e + E) (length t) r'.
Proof.
  revert s m e r k. induction E as [|E IH]; intros s m e r k Hr.
  - exists r. cbn. unfold tret. now rewrite !Nat.add_0_r.
  - destruct (train_epoch_shape m e r s k Hr) as (r1 & E1 & H1).
    destruct (IH (S s) _ _ r1 (k + N_batch)%nat H1) as (r2 & E2 & H2).
    exists r2. cbn [seq tfor_each]. unfold tbind at 1. rewrite E1, E2.
    split; [f_equal; lia|].
    replace (m + S E * N_batch)%nat with (m + N_batch + E * N_batch)%nat by lia.
    now replace (e + S E)%nat with (S e + E)%nat by lia.
Qed.

End TrainShape.

Lemma example_odeint_contract : odeint_contract example_odeint.
Proof.
  intros f x0 t _. unfold example_odeint. eexists. split; [reflexivity|].
  split; [apply length_map|].
  apply Forall_forall. intros row Hin. apply in_map_iff in Hin.
  now destruct Hin as (_ & <- & _).
Qed.

(** C10: on a non-empty dataset of two-entry samples and targets, with a
    batch size that divides the number of samples, a state of twelve
    entries, [E >= 1] epochs and a time grid of [L >= 2] points, and with an
    integrator that keeps its contract, [train] returns [tf], [xf] and [J]
    of the same length [E * (len(X)/bs) * L - 1] and [xep] with [E] rows;
    it has run [E * (len(X)/bs)] integrations. *)
Theorem train_record_lengths
    (odeint : (list R -> R -> result (list R)) -> list R -> list R
              -> result (list (list R)))
    (X y : list (list R)) (bs E : nat) (x0 : list R)
    (a b c beta : R) (t : list R) (k : nat) :
  odeint_contract odeint ->
  Forall (fun r => length r = 2%nat) X ->
  Forall (fun r => length r = 2%nat) y ->
  length y = length X ->
  (1 <= length X)%nat ->
  (length X mod bs = 0)%nat ->
  length x0 = 12%nat ->
  (1 <= E)%nat ->
  (2 <= length t)%nat ->
  exists r,
    train odeint X y bs E x0 a b c beta t k
      = (Ok r, (k + E * (length X / bs))%nat) /\
    length (tf r) = (E * (length X / bs) * length t - 1)%nat /\
    length (xf r) = (E * (length X / bs) * length t - 1)%nat /\
    length (J r) = (E * (length X / bs) * length t - 1)%nat /\
    length (xep r) = E.
Proof.
  intros Hode HX Hy Ly HN Hmod Hx0 HE HL.
  assert (Hbs : (1 <= bs)%nat).
  { destruct bs as [|bs']; [|lia]. cbn in Hmod. lia. }
  set (Nb := (length X / bs)%nat).
  assert (HNb : length X = (Nb * bs)%nat).
  { pose proof (Nat.div_mod_eq (length X) bs) as D. subst Nb. lia. }
  assert (Nbpos : (1 <= Nb)%nat).
  { destruct Nb; [lia|lia]. }
  destruct (reshape3_ok X Nb bs HX HNb) as (Ub & EUb & LUb & FUb).
  destruct (reshape3_ok y Nb bs Hy ltac:(now rewrite Ly)) as (Yhb & EYhb & LYhb & FYhb).
  assert (Hok0 : batch_ok bs (nth 0 Ub []) (nth 0 Yhb [])).
  { apply batch_of_reshape with (N_batch := Nb); assumption || lia. }
  destruct (loss_batch_total bs x0 _ _ a b c Hbs Hx0 Hok0) as [Jep0 EJep0].
  assert (Hinit : records_shape 0 0 (length t)
                    (mkRecords [repeat 1 12; x0] [0] [[0]]
                       [repeat 1 12; x0] [[Jep0]])).
  { unfold records_shape. cbn [xf tf J xep Jep length Nat.mul Nat.add].
    repeat split; repeat constructor; assumption. }
  destruct (train_epochs_shape odeint Hode bs Nb Ub Yhb a b c beta t
              Hbs LUb LYhb FUb FYhb E 0 0 0 _ k Hinit)
    as (r & Er & Lxf & _ & Ltf & LJ & _ & Lxep & _).
  unfold train. fold Nb. unfold tbind, lift, tret, two_rows.
  destruct (Nat.eqb_spec bs 0) as [E0|_]; [lia|].
  rewrite EUb, EYhb, Hx0. cbn [Nat.eqb].
  rewrite (getitem_nth Ub 0 []) by lia.
  rewrite (getitem_nth Yhb 0 []) by lia.
  rewrite EJep0.
  unfold tbind, lift, tret in Er. rewrite Er.
  eexists. split; [reflexivity|].
  cbn [xf tf J xep Jep]. rewrite !slice_to_last_length, Lxf, Ltf, LJ, Lxep.
  cbn [Nat.add]. repeat split; lia.
Qed.

Lemma train_record_lengths_witness :
  exists r,
    train example_odeint (repeat [1; 2] 4) (repeat [1; 0] 4) 2%nat 3%nat
      (repeat 0 12) 1 1 1 1 [0; 1; 2] 0%nat = (Ok r, 6%nat) /\
    length (tf r) = 17%nat /\ length (xf r) = 17%nat /\
    length (J r) = 17%nat /\ length (xep r) = 3%nat.
Proof.
  destruct (train_record_lengths example_odeint (repeat [1; 2] 4)
              (repeat [1; 0] 4) 2 3 (repeat 0 12) 1 1 1 1 [0; 1; 2] 0)
    as (r & Er & H1 & H2 & H3 & H4).
  - exact example_odeint_contract.
  - repeat constructor.
  - repeat constructor.
  - reflexivity.
  - cbn. lia.
  - reflexivity.
  - reflexivity.
  - lia.
  - cbn. lia.
  - exists r. repeat split; assumption.
Defined.

(** * Further properties of the code *)

(** ** The low-level predictor on malformed input *)

(** X1: a state with fewer than twelve entries is rejected with an
    [IndexError] by [loss], by [gradient] and by [hamiltonian_model], for
    every well-shaped input and target. *)
Theorem short_state_raises (x u yh : list R) (t beta a b c : R) :
  (length x < 12)%nat -> (2 <= length u)%nat -> (2 <= length yh)%nat ->
  loss x u yh a b c = Raise IndexError /\
  gradient x u yh a b c = Raise IndexError /\
  hamiltonian_model x t u yh beta a b c = Raise IndexError.
Proof.
  intros Hx Hu Hyh.
  destruct u as [|u1 [|u2 u']]; simpl in Hu; try lia.
  destruct yh as [|yh1 [|yh2 yh']]; simpl in Hyh; try lia.
  assert (G : gradient x (u1 :: u2 :: u') (yh1 :: yh2 :: yh') a b c
              = Raise IndexError).
  { do 12 (destruct x as [|? x]; [reflexivity|]). simpl in Hx. lia. }
  split; [|split].
  - do 12 (destruct x as [|? x]; [reflexivity|]). simpl in Hx. lia.
  - exact G.
  - unfold hamiltonian_model. now rewrite G.
Qed.

Lemma short_state_raises_witness :
  loss (repeat 0 10) [1; 2] [3; 4] 1 1 1 = Raise IndexError /\
  gradient (repeat 0 10) [1; 2] [3; 4] 1 1 1 = Raise IndexError /\
  hamiltonian_model (repeat 0 10) 0 [1; 2] [3; 4] 1 1 1 1 = Raise IndexError.
Proof.
  apply (short_state_raises (repeat 0 10) [1; 2] [3; 4] 0 1 1 1 1);
    simpl; lia.
Defined.

(** ** Sign and shape behaviour of the loss *)

Lemma sum_squares_nonneg (v : list R) : 0 <= Np.sum (Np.zip_with Rmult v v).
Proof.
  unfold Np.sum. induction v as [|a v IH]; simpl; [lra|].
  pose proof (Rle_0_sqr a) as H. unfold Rsqr in H. lra.
Qed.

Lemma dot_self (v : list R) : Np.dot v v = Ok (Np.sum (Np.zip_with Rmult v v)).
Proof. unfold Np.dot. now rewrite Nat.eqb_refl. Qed.

Lemma loss_nonneg (x u yh : list R) (a b c v : R) :
  0 <= a -> 0 <= b -> 0 <= c -> loss x u yh a b c = Ok v -> 0 <= v.
Proof.
  intros Ha Hb Hc H. unfold loss in H.
  set (dw := Np.slice x (length x / 2) _) in H.
  set (w := Np.slice x 0 _) in H.
  destruct (simple_net u _) as [y|]; [|discriminate H]. cbn [bind] in H.
  destruct (Np.sub yh y) as [J|]; [|discriminate H]. cbn [bind] in H.
  rewrite !dot_self in H. cbn [bind] in H. injection H as <-.
  pose proof (Rmult_le_pos _ _ Ha (sum_squares_nonneg J)).
  pose proof (Rmult_le_pos _ _ Hb (sum_squares_nonneg dw)).
  pose proof (Rmult_le_pos _ _ Hc (sum_squares_nonneg w)).
  lra.
Qed.

(** X2: with non-negative hyperparameters [a], [b], [c] the loss is never
    negative, per sample and averaged over a batch. *)
Theorem loss_is_nonnegative (a b c : R) :
  0 <= a -> 0 <= b -> 0 <= c ->
  (forall x u yh v, loss x u yh a b c = Ok v -> 0 <= v) /\
  (forall bs x U Yh v, loss_batch bs x U Yh a b c = Ok v -> 0 <= v).
Proof.
  intros Ha Hb Hc. split.
  - intros x u yh v. now apply loss_nonneg.
  - intros bs x U Yh v H. unfold loss_batch in H.
    assert (Inv : forall l acc r,
              0 <= acc ->
              for_each l
                (fun J_tot i =>
                   u <- Np.getitem U i ;; yh <- Np.getitem Yh i ;;
                   l <- loss x u yh a b c ;; Ok (J_tot + l)) acc = Ok r ->
              0 <= r).
    { induction l as [|i l IH]; intros acc r Hacc Hr; simpl in Hr.
      - now injection Hr as <-.
      - destruct (Np.getitem U i) as [u|]; [|discriminate Hr]. cbn [bind] in Hr.
        destruct (Np.getitem Yh i) as [yh|]; [|discriminate Hr]. cbn [bind] in Hr.
        destruct (loss x u yh a b c) as [w|] eqn:E; [|discriminate Hr].
        cbn [bind] in Hr. apply loss_nonneg in E; try assumption.
        apply (IH (acc + w) r); [lra|exact Hr]. }
    destruct (for_each _ _ _) as [tot|] eqn:E; [|discriminate H].
    cbn [bind] in H. apply Inv in E; [|lra].
    destruct (Nat.eqb_spec bs 0) as [_|Hne]; [discriminate H|].
    injection H as <-.
    assert (0 < INR bs) by (apply lt_0_INR; lia).
    apply Rmult_le_pos; [exact E|]. left. now apply Rinv_0_lt_compat.
Qed.

Lemma loss_is_nonnegative_witness :
  exists v, loss_batch 1 [1; 0; 0; 0; 1; 0; 0; 0; 0; 0; 0; 0]
              [[1; 2]] [[0; 0]] 1 1 1 = Ok v /\ 0 <= v.
Proof.
  destruct (loss_is_nonnegative 1 1 1) as [_ H]; try lra.
  destruct (loss_batch_total 1 [1; 0; 0; 0; 1; 0; 0; 0; 0; 0; 0; 0]
              [[1; 2]] [[0; 0]] 1 1 1) as [v Hv].
  - lia.
  - reflexivity.
  - repeat split; repeat constructor.
  - exists v. split; [exact Hv|]. exact (H _ _ _ _ _ Hv).
Defined.

(** X3: [loss] and [gradient] accept different target shapes.  A target
    with a single entry is broadcast by [loss] to both outputs, but
    [gradient] raises an [IndexError] on it; a target with three or more
    entries is rejected by [loss] with a shape error, while [gradient] reads
    its first two entries and ignores the rest. *)
Theorem target_shapes (x u : list R) (a b c : R) :
  length x = 12%nat -> (2 <= length u)%nat ->
  (forall t, loss x u [t] a b c = loss x u [t; t] a b c /\
             gradient x u [t] a b c = Raise IndexError) /\
  (forall t1 t2 t3 rest,
     loss x u (t1 :: t2 :: t3 :: rest) a b c = Raise ValueError /\
     gradient x u (t1 :: t2 :: t3 :: rest) a b c = gradient x u [t1; t2] a b c).
Proof.
  intros Hx Hu.
  destruct (length_12 x Hx) as (w0 & w1 & w2 & w3 & w4 & w5 &
                                 d0 & d1 & d2 & d3 & d4 & d5 & ->).
  destruct u as [|u1 [|u2 u']]; simpl in Hu; try lia.
  split.
  - intro t. split; reflexivity.
  - intros t1 t2 t3 rest. split; [|reflexivity].
    unfold loss, simple_net, Np.sub, Np.broadcast. cbn.
    destruct rest; reflexivity.
Qed.

Lemma target_shapes_witness :
  loss (repeat 0 12) [1; 2] [5] 1 1 1 = loss (repeat 0 12) [1; 2] [5; 5] 1 1 1 /\
  gradient (repeat 0 12) [1; 2] [5] 1 1 1 = Raise IndexError /\
  loss (repeat 0 12) [1; 2] [5; 6; 7] 1 1 1 = Raise ValueError.
Proof.
  destruct (target_shapes (repeat 0 12) [1; 2] 1 1 1) as [H1 H2];
    [reflexivity|simpl; lia|].
  destruct (H1 5) as [A B]. destruct (H2 5 6 7 []) as [C _].
  repeat split; assumption.
Defined.

(** ** One sample as a batch, and the unit velocity weight *)

Lemma gradient_batch_of_one (x u yh : list R) (a b c : R) :
  (2 * (length x / 2) = 12)%nat ->
  gradient_batch 1 x [u] [yh] a b c = gradient x u yh a b c.
Proof.
  intro H12. unfold gradient_batch.
  cbn [seq for_each Np.getitem nth_error bind]. rewrite H12.
  destruct (gradient x u yh a b c) as [g|e] eqn:G; [|reflexivity].
  pose proof (gradient_length _ _ _ _ _ _ _ G) as Lg.
  destruct (length_12 g Lg) as (g0 & g1 & g2 & g3 & g4 & g5 &
                                 g6 & g7 & g8 & g9 & g10 & g11 & ->).
  cbn. rewrite div_scalar_ok by lra. f_equal. cbn. list_field.
Qed.

(** X4: a batch that holds a single sample gives the per-sample values:
    [loss_batch] and [gradient_batch] with [bs = 1] equal [loss] and
    [gradient] on that sample (errors included); and for [b = 1] the
    single-sample vector field [hamiltonian_model] coincides with the batch
    vector field [ham_mod_batch] on the one-sample batch, whatever the
    time arguments. *)
Theorem single_sample_as_batch (x u yh : list R) (t t' beta a b c : R) :
  length x = 12%nat ->
  loss_batch 1 x [u] [yh] a b c = loss x u yh a b c /\
  gradient_batch 1 x [u] [yh] a b c = gradient x u yh a b c /\
  hamiltonian_model x t u yh beta a 1 c
    = ham_mod_batch x t' 1 [u] [yh] beta a 1 c.
Proof.
  intro Hx.
  assert (H12 : (2 * (length x / 2) = 12)%nat) by now rewrite Hx.
  split; [|split].
  - unfold loss_batch. cbn [seq for_each Np.getitem nth_error bind].
    destruct (loss x u yh a b c) as [v|e]; [|reflexivity].
    cbn. f_equal. field.
  - now apply gradient_batch_of_one.
  - destruct (gradient x u yh a 1 c) as [g|e] eqn:G.
    + pose proof (gradient_batch_of_one x u yh a 1 c H12) as GB.
      rewrite G in GB.
      destruct (ham_mod_batch_on_12 x t' 1 [u] [yh] beta a 1 c g Hx GB)
        as (F & _ & Hrun & Hval).
      rewrite Hrun, Hval. unfold hamiltonian_model. rewrite G, Hx.
      pose proof (gradient_length _ _ _ _ _ _ _ G) as Lg.
      destruct (length_12 g Lg) as (g0 & g1 & g2 & g3 & g4 & g5 &
                                     g6 & g7 & g8 & g9 & g10 & g11 & ->).
      cbn. rewrite !div_scalar_ok by lra. cbn. f_equal. list_field.
    + unfold hamiltonian_model, ham_mod_batch. rewrite G.
      destruct (ham_mod_batch_F_blocks x beta) as (F & -> & _).
      cbn [bind]. rewrite (gradient_batch_of_one x u yh a 1 c H12), G.
      reflexivity.
Qed.

Lemma single_sample_as_batch_witness :
  let x := [1; 2; 3; 4; 5; 6; 7; 8; 9; 10; 11; 12] in
  (exists v, hamiltonian_model x 0 [1; 2] [3; 4] 2 1 1 1 = Ok v) /\
  hamiltonian_model x 0 [1; 2] [3; 4] 2 1 1 1
    = ham_mod_batch x 5 1 [[1; 2]] [[3; 4]] 2 1 1 1.
Proof.
  intro x. split.
  - unfold hamiltonian_model, gradient, simple_net, Np.add, Np.broadcast. cbn.
    rewrite !div_scalar_ok by lra. cbn. eexists. reflexivity.
  - apply (single_sample_as_batch x [1; 2] [3; 4] 0 5 2 1 1 1). reflexivity.
Defined.

(** ** Dissipation and the symmetric part of [F] *)

(** X5: along the batch vector field the loss can only be dissipated
    through the velocities: the inner product of the batch gradient with
    the returned derivative is [-beta] times the squared norm of the
    velocity half of the gradient. *)
Theorem batch_field_dissipation (x : list R) (t : R) (bs : nat)
    (U Yh : list (list R)) (beta a b c : R) (dJ : list R) :
  length x = 12%nat -> gradient_batch bs x U Yh a b c = Ok dJ ->
  exists dxdt,
    ham_mod_batch x t bs U Yh beta a b c = Ok dxdt /\
    Np.dot dJ dxdt = Ok (- beta * sum_squares (skipn 6 dJ)).
Proof.
  intros Hx HdJ.
  destruct (ham_mod_batch_on_12 x t bs U Yh beta a b c dJ Hx HdJ)
    as (F & _ & Hrun & Hval).
  rewrite Hval in Hrun. eexists. split; [exact Hrun|].
  pose proof (gradient_batch_length _ _ _ _ _ _ _ _ Hx HdJ) as LdJ.
  destruct (length_12 dJ LdJ) as (g0 & g1 & g2 & g3 & g4 & g5 &
                                   g6 & g7 & g8 & g9 & g10 & g11 & ->).
  unfold Np.dot, sum_squares, Np.sum. cbn. f_equal. ring.
Qed.

Lemma batch_field_dissipation_witness :
  exists dJ dxdt,
    gradient_batch 1 [1; 0; 0; 0; 1; 0; 1; 2; 3; 4; 5; 6] [[1; 2]] [[0; 0]]
      1 1 0 = Ok dJ /\
    ham_mod_batch [1; 0; 0; 0; 1; 0; 1; 2; 3; 4; 5; 6] 0 1 [[1; 2]] [[0; 0]]
      3 1 1 0 = Ok dxdt /\
    Np.dot dJ dxdt = Ok (- 3 * sum_squares (skipn 6 dJ)).
Proof.
  destruct (gradient_batch_total 1 [1; 0; 0; 0; 1; 0; 1; 2; 3; 4; 5; 6]
              [[1; 2]] [[0; 0]] 1 1 0) as [dJ HdJ].
  - lia.
  - reflexivity.
  - repeat split; repeat constructor.
  - destruct (batch_field_dissipation [1; 0; 0; 0; 1; 0; 1; 2; 3; 4; 5; 6]
                0 1 [[1; 2]] [[0; 0]] 3 1 1 0 dJ eq_refl HdJ)
      as (dxdt & H1 & H2).
    exists dJ, dxdt. repeat split; assumption.
Defined.

(** X6: the matrix of [ham_mod_batch] is skew-symmetric up to the damping:
    [F + F^T] vanishes everywhere except on the diagonal of the
    velocity block, where it is [-2*beta]; this holds for every size of the
    state. *)
Theorem structure_matrix_symmetric_part (x : list R) (beta : R) :
  exists F,
    ham_mod_batch_F x beta = Ok F /\
    forall i j, (i < 2 * (length x / 2))%nat -> (j < 2 * (length x / 2))%nat ->
      entry F i j + entry F j i =
      if (i =? j)%nat && (length x / 2 <=? i)%nat then - (2 * beta) else 0.
Proof.
  destruct (ham_mod_batch_F_blocks x beta) as (F & HF & _ & _ & HB).
  exists F. split; [exact HF|].
  set (n := (length x / 2)%nat) in *.
  intros i j Hi Hj.
  destruct (Nat.lt_ge_cases i n) as [Hin|Hin];
    destruct (Nat.lt_ge_cases j n) as [Hjn|Hjn].
  - destruct (HB i j Hin Hjn) as (E1 & _). destruct (HB j i Hjn Hin) as (E2 & _).
    rewrite E1, E2.
    replace (n <=? i)%nat with false by (symmetry; apply Nat.leb_gt; lia).
    rewrite andb_false_r. ring.
  - replace j with (n + (j - n))%nat by lia.
    destruct (HB i (j - n)%nat Hin ltac:(lia)) as (_ & E1 & _).
    destruct (HB (j - n)%nat i ltac:(lia) Hin) as (_ & _ & E2 & _).
    rewrite E1, E2, (Nat.eqb_sym (j - n) i).
    replace (i =? n + (j - n))%nat with false by (symmetry; apply Nat.eqb_neq; lia).
    cbn [andb]. ring.
  - replace i with (n + (i - n))%nat by lia.
    destruct (HB (i - n)%nat j ltac:(lia) Hjn) as (_ & _ & E1 & _).
    destruct (HB j (i - n)%nat Hjn ltac:(lia)) as (_ & E2 & _).
    rewrite E1, E2, (Nat.eqb_sym j (i - n)).
    replace (n + (i - n) =? j)%nat with false by (symmetry; apply Nat.eqb_neq; lia).
    cbn [andb]. ring.
  - replace i with (n + (i - n))%nat by lia.
    replace j with (n + (j - n))%nat by lia.
    destruct (HB (i - n)%nat (j - n)%nat ltac:(lia) ltac:(lia)) as (_ & _ & _ & E1).
    destruct (HB (j - n)%nat (i - n)%nat ltac:(lia) ltac:(lia)) as (_ & _ & _ & E2).
    rewrite E1, E2, (Nat.eqb_sym (j - n) (i - n)).
    replace (n <=? n + (i - n))%nat with true by (symmetry; apply Nat.leb_le; lia).
    rewrite andb_true_r.
    destruct (Nat.eqb_spec (i - n) (j - n)) as [E|E].
    + replace (n + (i - n) =? n + (j - n))%nat with true
        by (symmetry; apply Nat.eqb_eq; lia). ring.
    + replace (n + (i - n) =? n + (j - n))%nat with false
        by (symmetry; apply Nat.eqb_neq; lia). ring.
Qed.

Lemma structure_matrix_symmetric_part_witness :
  exists F,
    ham_mod_batch_F [0; 0; 0; 0] 3 = Ok F /\
    entry F 2 2 + entry F 2 2 = - (2 * 3).
Proof.
  destruct (structure_matrix_symmetric_part [0; 0; 0; 0] 3) as (F & H1 & H2).
  exists F. split; [exact H1|].
  apply (H2 2%nat 2%nat); cbn; lia.
Defined.

(** ** Batches that are shorter than the batch size *)

Lemma for_each_app {A S : Type} (l1 l2 : list A) (body : S -> A -> result S)
    (s : S) :
  for_each (l1 ++ l2) body s = (s' <- for_each l1 body s ;; for_each l2 body s').
Proof.
  revert s. induction l1 as [|i l1 IH]; intro s; simpl; [reflexivity|].
  destruct (body s i) as [s'|e]; simpl; [apply IH|reflexivity].
Qed.

Lemma getitem_out_of_range {A : Type} (v : list A) (i : nat) :
  (length v <= i)%nat -> Np.getitem v i = Raise IndexError.
Proof.
  intro H. unfold Np.getitem.
  now rewrite (proj2 (nth_error_None v i) H).
Qed.

(** X7: when the batch holds fewer samples than the batch size, the batch
    functions raise an [IndexError] after the last sample; they never
    average over the samples that are there. *)
Theorem short_batch_raises (bs : nat) (x : list R) (U Yh : list (list R))
    (a b c : R) :
  length x = 12%nat -> batch_ok (length U) U Yh -> (length U < bs)%nat ->
  loss_batch bs x U Yh a b c = Raise IndexError /\
  gradient_batch bs x U Yh a b c = Raise IndexError.
Proof.
  intros Hx Hok Hbs. pose proof Hok as (_ & LY & _).
  set (m := length U) in *.
  assert (Hseq : seq 0 bs = seq 0 m ++ m :: seq (S m) (bs - m - 1)).
  { replace bs with (m + S (bs - m - 1))%nat at 1 by lia.
    rewrite seq_app. reflexivity. }
  assert (Hin : Forall (fun i => (i < length U)%nat /\ (i < length Yh)%nat)
                  (seq 0 m)).
  { apply seq_in_range; fold m; lia. }
  assert (Hsample : forall i, In i (seq 0 m) ->
            length (nth i U []) = 2%nat /\ length (nth i Yh []) = 2%nat).
  { intros i Hi. apply in_seq in Hi. apply (batch_ok_sample m); [exact Hok|lia]. }
  split.
  - unfold loss_batch. rewrite Hseq, for_each_app.
    rewrite loss_loop by exact Hin.
    destruct (mapM_total
                (fun i => loss x (nth i U []) (nth i Yh []) a b c) (seq 0 m))
      as [ls Hls].
    { apply Forall_forall. intros i Hi. destruct (Hsample i Hi) as [H1 H2].
      apply loss_total; [exact Hx|lia|exact H2]. }
    rewrite Hls. cbn [bind for_each].
    rewrite (getitem_out_of_range U m) by (fold m; lia). reflexivity.
  - unfold gradient_batch. rewrite Hx.
    change (2 * (12 / 2))%nat with 12%nat.
    rewrite Hseq, for_each_app.
    pose proof (gradient_loop x U Yh a b c (seq 0 m) (Np.zeros 12) Hin eq_refl)
      as HL.
    destruct (mapM_total
                (fun i => gradient x (nth i U []) (nth i Yh []) a b c) (seq 0 m))
      as [gs Hgs].
    { apply Forall_forall. intros i Hi. destruct (Hsample i Hi) as [H1 H2].
      destruct (gradient_total x (nth i U []) (nth i Yh []) a b c)
        as (g0 & g1 & g2 & g3 & g4 & g5 & g6 & g7 & g8 & g9 & g10 & g11 & G);
        [exact Hx|lia|lia|].
      eexists. exact G. }
    rewrite Hgs in HL. destruct HL as (acc' & -> & _).
    cbn [bind for_each].
    rewrite (getitem_out_of_range U m) by (fold m; lia). reflexivity.
Qed.

Lemma short_batch_raises_witness :
  loss_batch 3 (repeat 0 12) [[1; 2]; [3; 4]] [[0; 0]; [1; 1]] 1 1 1
    = Raise IndexError /\
  gradient_batch 3 (repeat 0 12) [[1; 2]; [3; 4]] [[0; 0]; [1; 1]] 1 1 1
    = Raise IndexError.
Proof.
  apply short_batch_raises.
  - reflexivity.
  - repeat split; repeat constructor.
  - simpl. lia.
Defined.

(** ** The low-level evaluator on any number of samples *)

Lemma label_class0 (v : list R) :
  (label v =? 0)%nat = if Rlt_dec (nth 1 v 0) (nth 0 v 0) then true else false.
Proof. unfold label. now destruct (Rlt_dec _ _). Qed.

Lemma simple_net_ok (u w : list R) :
  (2 <= length u)%nat -> (6 <= length w)%nat ->
  exists y0 y1, simple_net u w = Ok [y0; y1].
Proof.
  intros Hu Hw.
  destruct u as [|u1 [|u2 u']]; simpl in Hu; try lia.
  destruct w as [|w0 [|w1 [|w2 [|w3 [|w4 [|w5 w']]]]]]; simpl in Hw; try lia.
  eexists. eexists. reflexivity.
Qed.

Lemma filter_none {A : Type} (f : A -> bool) (l : list A) :
  (forall a, In a l -> f a = false) -> filter f l = [].
Proof.
  induction l as [|a l IH]; intro H; simpl; [reflexivity|].
  rewrite (H a) by now left. apply IH. intros b Hb. apply H. now right.
Qed.

Lemma test_loop (x : list R) (Xh yh : list (list R)) (n s count : nat) :
  (6 <= length x)%nat ->
  (s + n <= length Xh)%nat -> (s + n <= length yh)%nat ->
  Forall (fun xi => (2 <= length xi)%nat) Xh ->
  Forall (fun r => (2 <= length r)%nat) yh ->
  for_each (seq s n)
    (fun count_predicted i =>
       xi <- Np.getitem Xh i ;;
       y <- simple_net xi x ;;
       y0 <- Np.getitem y 0 ;; y1 <- Np.getitem y 1 ;;
       if Rlt_dec y1 y0 then
         row <- Np.getitem yh i ;;
         r0 <- Np.getitem row 0 ;; r1 <- Np.getitem row 1 ;;
         if Rlt_dec r1 r0 then Ok (S count_predicted)
         else Ok count_predicted
       else Ok count_predicted) count =
  Ok (count + length (filter (counted x Xh yh) (seq s n)))%nat.
Proof.
  intros Hx HX Hy FX Fy. revert s count HX Hy.
  induction n as [|n IH]; intros s count HX Hy.
  - cbn. now rewrite Nat.add_0_r.
  - assert (Lxi : (2 <= length (nth s Xh []))%nat).
    { rewrite Forall_forall in FX. apply FX. apply nth_In. lia. }
    assert (Lr : (2 <= length (nth s yh []))%nat).
    { rewrite Forall_forall in Fy. apply Fy. apply nth_In. lia. }
    destruct (simple_net_ok _ x Lxi Hx) as (y0 & y1 & Ey).
    assert (Ec : counted x Xh yh s =
                 (if Rlt_dec y1 y0 then true else false)
                 && (if Rlt_dec (nth 1 (nth s yh []) 0) (nth 0 (nth s yh []) 0)
                     then true else false)).
    { unfold counted, net_output. rewrite Ey, !label_class0. reflexivity. }
    cbn [seq for_each filter]. rewrite Ec.
    rewrite (getitem_nth Xh s []) by lia. cbn [bind]. rewrite Ey.
    cbn [bind]. unfold Np.getitem at 1 2. cbn [nth_error bind].
    destruct (Rlt_dec y1 y0); cbn [bind andb].
    + rewrite (getitem_nth yh s []) by lia. cbn [bind].
      destruct (nth s yh []) as [|r0 [|r1 r']]; simpl in Lr; try lia.
      unfold Np.getitem at 1 2. cbn [nth_error bind nth].
      destruct (Rlt_dec r1 r0); cbn [bind length];
        (etransitivity; [apply IH; lia|f_equal; lia]).
    + etransitivity; [apply IH; lia|reflexivity].
Qed.

Lemma test_value (x : list R) (Xh yh : list (list R))
    (trained train_test : bool) :
  (6 <= length x)%nat -> (1 <= length yh)%nat -> (length yh <= length Xh)%nat ->
  Forall (fun xi => (2 <= length xi)%nat) Xh ->
  Forall (fun r => (2 <= length r)%nat) yh ->
  test x Xh yh trained train_test =
    Ok (INR (count_predicted_of x Xh yh) * 100 / INR (length yh)).
Proof.
  intros Hx Hn HX FX Fy. unfold test.
  rewrite (test_loop x Xh yh (length yh) 0 0 Hx) by (assumption || lia).
  cbn [bind Nat.add].
  destruct (Nat.eqb_spec (length yh) 0) as [E0|_]; [lia|reflexivity].
Qed.

(** X8: on well-shaped data with at least one sample, [test] returns the
    percentage of the samples in which prediction and reference both put
    the first output strictly first; in particular it returns [0] whenever
    no reference does, whatever the weights are. *)
Theorem test_percentage (x : list R) (Xh yh : list (list R))
    (trained train_test : bool) :
  (6 <= length x)%nat -> (1 <= length yh)%nat -> (length yh <= length Xh)%nat ->
  Forall (fun xi => (2 <= length xi)%nat) Xh ->
  Forall (fun r => (2 <= length r)%nat) yh ->
  test x Xh yh trained train_test =
    Ok (INR (count_predicted_of x Xh yh) * 100 / INR (length yh)) /\
  (Forall (fun r => label r <> 0%nat) yh ->
   test x Xh yh trained train_test = Ok 0).
Proof.
  intros Hx Hn HX FX Fy.
  pose proof (test_value x Xh yh trained train_test Hx Hn HX FX Fy) as E.
  split; [exact E|].
  intro Hno. rewrite E. unfold count_predicted_of.
  replace (filter (counted x Xh yh) (seq 0 (length yh))) with (@nil nat).
  - cbn. f_equal. unfold Rdiv. ring.
  - symmetry. apply filter_none. intros i Hi. apply in_seq in Hi.
    unfold counted. rewrite Forall_forall in Hno.
    specialize (Hno (nth i yh []) ltac:(apply nth_In; lia)).
    apply Nat.eqb_neq in Hno. rewrite Hno. now rewrite andb_false_r.
Qed.

Lemma test_percentage_witness :
  test [1; 0; 0; 0; 1; 0] [[2; 1]; [0; 3]; [5; 4]] [[1; 0]; [1; 0]; [0; 1]]
    true false
  = Ok (INR (count_predicted_of [1; 0; 0; 0; 1; 0] [[2; 1]; [0; 3]; [5; 4]]
              [[1; 0]; [1; 0]; [0; 1]]) * 100 / INR 3).
Proof.
  apply (test_percentage [1; 0; 0; 0; 1; 0] [[2; 1]; [0; 3]; [5; 4]]
           [[1; 0]; [1; 0]; [0; 1]] true false).
  - simpl. lia.
  - simpl. lia.
  - simpl. lia.
  - repeat constructor.
  - repeat constructor.
Defined.

Lemma test_loop_bounds (x : list R) (Xh yh : list (list R)) (l : list nat)
    (count r : nat) :
  for_each l
    (fun count_predicted i =>
       xi <- Np.getitem Xh i ;;
       y <- simple_net xi x ;;
       y0 <- Np.getitem y 0 ;; y1 <- Np.getitem y 1 ;;
       if Rlt_dec y1 y0 then
         row <- Np.getitem yh i ;;
         r0 <- Np.getitem row 0 ;; r1 <- Np.getitem row 1 ;;
         if Rlt_dec r1 r0 then Ok (S count_predicted)
         else Ok count_predicted
       else Ok count_predicted) count = Ok r ->
  (count <= r <= count + length l)%nat.
Proof.
  revert count. induction l as [|i l IH]; intros count H.
  - cbn in H. injection H as <-. cbn. lia.
  - cbn [for_each] in H.
    match type of H with
    | bind ?m _ = _ => destruct m as [c'|] eqn:Em; [|discriminate H]
    end.
    cbn [bind] in H. apply IH in H.
    assert (Hc : (count <= c' <= S count)%nat).
    { destruct (Np.getitem Xh i) as [xi|]; [|discriminate Em]. cbn [bind] in Em.
      destruct (simple_net xi x) as [y|]; [|discriminate Em]. cbn [bind] in Em.
      destruct (Np.getitem y 0) as [y0|]; [|discriminate Em]. cbn [bind] in Em.
      destruct (Np.getitem y 1) as [y1|]; [|discriminate Em]. cbn [bind] in Em.
      destruct (Rlt_dec y1 y0); [|injection Em as <-; lia].
      destruct (Np.getitem yh i) as [row|]; [|discriminate Em]. cbn [bind] in Em.
      destruct (Np.getitem row 0) as [q0|]; [|discriminate Em]. cbn [bind] in Em.
      destruct (Np.getitem row 1) as [q1|]; [|discriminate Em]. cbn [bind] in Em.
      destruct (Rlt_dec q1 q0); injection Em as <-; lia. }
    cbn [length]. lia.
Qed.

(** X9: whatever the arguments are, a value that [test] returns is a
    percentage between [0] and [100]; and on an empty reference set [test]
    raises a [ZeroDivisionError]. *)
Theorem test_range :
  (forall x Xh yh trained train_test v,
     test x Xh yh trained train_test = Ok v -> 0 <= v <= 100) /\
  (forall x Xh trained train_test,
     test x Xh [] trained train_test = Raise ZeroDivisionError).
Proof.
  split; [|reflexivity].
  intros x Xh yh trained train_test v H. unfold test in H.
  match type of H with
  | bind ?m _ = _ => destruct m as [cnt|] eqn:Em; [|discriminate H]
  end.
  cbn [bind] in H. apply test_loop_bounds in Em. rewrite length_seq in Em.
  destruct (Nat.eqb_spec (length yh) 0) as [_|Hn]; [discriminate H|].
  injection H as <-.
  assert (Hpos : 0 < INR (length yh)) by (apply lt_0_INR; lia).
  assert (H0 : 0 <= INR cnt) by apply pos_INR.
  assert (H1 : INR cnt <= INR (length yh)) by (apply le_INR; lia).
  split.
  - apply Rmult_le_pos; [lra|]. left. now apply Rinv_0_lt_compat.
  - apply (Rmult_le_reg_r (INR (length yh))); [exact Hpos|].
    unfold Rdiv. rewrite Rmult_assoc, Rinv_l by lra. lra.
Qed.

Lemma test_range_witness :
  exists v,
    test [1; 0; 0; 0; 1; 0] [[2; 1]; [0; 3]] [[1; 0]; [1; 0]] true false = Ok v /\
    0 <= v <= 100.
Proof.
  destruct test_range as [H _].
  pose proof (test_value [1; 0; 0; 0; 1; 0] [[2; 1]; [0; 3]] [[1; 0]; [1; 0]]
                true false ltac:(simpl; lia) ltac:(simpl; lia) ltac:(simpl; lia)
                ltac:(repeat constructor) ltac:(repeat constructor)) as E.
  eexists. split; [exact E|]. exact (H _ _ _ _ _ _ E).
Defined.

(** ** [train]: validation, empty runs and the epoch records *)

(** X10: [train] checks its arguments before it integrates.  A batch size
    of zero raises a [ZeroDivisionError]; targets whose element count differs
    from that of the samples, and an initial state that does not have twelve
    entries, raise a shape error; an empty dataset raises an [IndexError].
    In every case no integration has been started. *)
Theorem train_validates_first
    (odeint : (list R -> R -> result (list R)) -> list R -> list R
              -> result (list (list R)))
    (X y : list (list R)) (bs epochs : nat) (x0 : list R)
    (a b c beta : R) (t : list R) (k : nat) :
  (bs = 0%nat ->
   train odeint X y bs epochs x0 a b c beta t k = (Raise ZeroDivisionError, k)) /\
  ((1 <= bs)%nat -> Forall (fun r => length r = 2%nat) X ->
   (length X mod bs = 0)%nat -> length (concat y) <> (2 * length X)%nat ->
   train odeint X y bs epochs x0 a b c beta t k = (Raise ValueError, k)) /\
  ((1 <= bs)%nat -> Forall (fun r => length r = 2%nat) X ->
   Forall (fun r => length r = 2%nat) y -> length y = length X ->
   (length X mod bs = 0)%nat -> length x0 <> 12%nat ->
   train odeint X y bs epochs x0 a b c beta t k = (Raise ValueError, k)) /\
  ((1 <= bs)%nat -> length x0 = 12%nat -> X = [] -> y = [] ->
   train odeint X y bs epochs x0 a b c beta t k = (Raise IndexError, k)).
Proof.
  split; [|split; [|split]].
  - intros ->. reflexivity.
  - intros Hbs HX Hmod Hy.
    assert (HN : length X = (length X / bs * bs)%nat).
    { pose proof (Nat.div_mod_eq (length X) bs). lia. }
    destruct (reshape3_ok X (length X / bs) bs HX HN) as (Ub & EUb & _).
    unfold train, tbind, lift.
    destruct (Nat.eqb_spec bs 0) as [E0|_]; [lia|].
    rewrite EUb. unfold reshape3.
    destruct (Nat.eqb_spec (length (concat y)) (length X / bs * bs * 2))
      as [E|_]; [|reflexivity].
    exfalso. lia.
  - intros Hbs HX Hy Ly Hmod Hx0.
    assert (HN : length X = (length X / bs * bs)%nat).
    { pose proof (Nat.div_mod_eq (length X) bs). lia. }
    destruct (reshape3_ok X (length X / bs) bs HX HN) as (Ub & EUb & _).
    destruct (reshape3_ok y (length X / bs) bs Hy ltac:(now rewrite Ly))
      as (Yhb & EYhb & _).
    unfold train, tbind, lift, two_rows.
    destruct (Nat.eqb_spec bs 0) as [E0|_]; [lia|].
    rewrite EUb, EYhb.
    destruct (Nat.eqb_spec (length x0) 12) as [E|_]; [contradiction|reflexivity].
  - intros Hbs Hx0 -> ->.
    unfold train, tbind, lift, two_rows, reshape3.
    destruct (Nat.eqb_spec bs 0) as [E0|_]; [lia|].
    cbn [length concat]. rewrite Nat.Div0.div_0_l. cbn [Nat.mul Nat.eqb chunks].
    rewrite Hx0. reflexivity.
Qed.

Lemma train_validates_first_witness :
  train example_odeint [[1; 2]; [3; 4]] [[1; 0]] 2 3 (repeat 0 12) 1 1 1 1
    [0; 1] 7%nat = (Raise ValueError, 7%nat) /\
  train example_odeint [[1; 2]; [3; 4]] [[1; 0]; [0; 1]] 2 3 (repeat 0 11)
    1 1 1 1 [0; 1] 7%nat = (Raise ValueError, 7%nat) /\
  train example_odeint [] [] 2 3 (repeat 0 12) 1 1 1 1 [0; 1] 7%nat
    = (Raise IndexError, 7%nat).
Proof.
  split; [|split].
  - destruct (train_validates_first example_odeint [[1; 2]; [3; 4]] [[1; 0]]
                2 3 (repeat 0 12) 1 1 1 1 [0; 1] 7) as (_ & H & _).
    apply H; [lia|repeat constructor|reflexivity|cbn; lia].
  - destruct (train_validates_first example_odeint [[1; 2]; [3; 4]]
                [[1; 0]; [0; 1]] 2 3 (repeat 0 11) 1 1 1 1 [0; 1] 7)
      as (_ & _ & H & _).
    apply H; [lia|repeat constructor|repeat constructor|reflexivity
             |reflexivity|cbn; lia].
  - destruct (train_validates_first example_odeint [] [] 2 3
                (repeat 0 12) 1 1 1 1 [0; 1] 7) as (_ & _ & _ & H).
    apply H; [lia|reflexivity..].
Defined.

Lemma chunks_concat_pairs (X : list (list R)) :
  Forall (fun r => length r = 2%nat) X ->
  chunks (length X) 2 (concat X) = X.
Proof.
  induction 1 as [|r X Hr _ IH]; [reflexivity|].
  destruct r as [|p [|q [|? ?]]]; try discriminate Hr.
  cbn [length chunks concat app firstn skipn]. now rewrite IH.
Qed.

Lemma first_batch (X : list (list R)) (nb bs : nat) (Ub : list (list (list R))) :
  Forall (fun r => length r = 2%nat) X -> length X = (nb * bs)%nat ->
  (1 <= nb)%nat -> reshape3 X nb bs 2 = Ok Ub ->
  nth 0 Ub [] = firstn bs X.
Proof.
  intros HX HN Hnb H. unfold reshape3 in H.
  rewrite (concat_pairs_length X HX), HN in H.
  replace (2 * (nb * bs))%nat with (nb * bs * 2)%nat in H by lia.
  rewrite Nat.eqb_refl in H. injection H as <-.
  rewrite <- HN, (chunks_concat_pairs X HX).
  destruct nb as [|nb]; [lia|]. reflexivity.
Qed.

(** A run of [train] on well-formed arguments, up to the final trimming. *)
Lemma train_run
    (odeint : (list R -> R -> result (list R)) -> list R -> list R
              -> result (list (list R)))
    (X y : list (list R)) (bs E : nat) (x0 : list R)
    (a b c beta : R) (t : list R) (k : nat) :
  odeint_contract odeint ->
  Forall (fun r => length r = 2%nat) X ->
  Forall (fun r => length r = 2%nat) y ->
  length y = length X -> (1 <= length X)%nat ->
  (length X mod bs = 0)%nat -> length x0 = 12%nat ->
  exists Ub Yhb Jep0 r1,
    length Ub = (length X / bs)%nat /\
    loss_batch bs x0 (firstn bs X) (firstn bs y) a b c = Ok Jep0 /\
    tfor_each (seq 0 E)
      (train_epoch odeint bs (length X / bs) Ub Yhb a b c beta t)
      (mkRecords [repeat 1 12; x0] [0] [[0]] [repeat 1 12; x0] [[Jep0]]) k
      = (Ok r1, (k + E * (length X / bs))%nat) /\
    records_shape (E * (length X / bs)) E (length t) r1 /\
    train odeint X y bs E x0 a b c beta t k
      = (Ok (mkRecords (Np.slice_to_last (xf r1) 2)
                       (Np.slice_to_last (tf r1) 1)
                       (Np.slice_to_last (J r1) 1)
                       (Np.slice_to_last (xep r1) 1)
                       (Jep r1)),
         (k + E * (length X / bs))%nat).
Proof.
  intros Hode HX Hy Ly HN Hmod Hx0.
  assert (Hbs : (1 <= bs)%nat).
  { destruct bs as [|bs']; [|lia]. cbn in Hmod. lia. }
  set (Nb := (length X / bs)%nat).
  assert (HNb : length X = (Nb * bs)%nat).
  { pose proof (Nat.div_mod_eq (length X) bs) as D. subst Nb. lia. }
  assert (Nbpos : (1 <= Nb)%nat) by (destruct Nb; lia).
  destruct (reshape3_ok X Nb bs HX HNb) as (Ub & EUb & LUb & FUb).
  destruct (reshape3_ok y Nb bs Hy ltac:(now rewrite Ly))
    as (Yhb & EYhb & LYhb & FYhb).
  assert (Hok0 : batch_ok bs (nth 0 Ub []) (nth 0 Yhb [])).
  { apply batch_of_reshape with (N_batch := Nb); assumption || lia. }
  destruct (loss_batch_total bs x0 _ _ a b c Hbs Hx0 Hok0) as [Jep0 EJep0].
  assert (Hinit : records_shape 0 0 (length t)
                    (mkRecords [repeat 1 12; x0] [0] [[0]]
                       [repeat 1 12; x0] [[Jep0]])).
  { unfold records_shape. cbn [xf tf J xep Jep length Nat.mul Nat.add].
    repeat split; repeat constructor; assumption. }
  destruct (train_epochs_shape odeint Hode bs Nb Ub Yhb a b c beta t
              Hbs LUb LYhb FUb FYhb E 0 0 0 _ k Hinit)
    as (r & Er & Hshape).
  exists Ub, Yhb, Jep0, r.
  split; [exact LUb|]. split.
  { rewrite <- (first_batch X Nb bs Ub HX HNb Nbpos EUb).
    rewrite <- (first_batch y Nb bs Yhb Hy ltac:(now rewrite Ly) Nbpos EYhb).
    exact EJep0. }
  split; [exact Er|]. split; [exact Hshape|].
  unfold train. fold Nb. unfold tbind, lift, tret, two_rows.
  destruct (Nat.eqb_spec bs 0) as [E0|_]; [lia|].
  rewrite EUb, EYhb, Hx0. cbn [Nat.eqb].
  rewrite (getitem_nth Ub 0 []) by lia.
  rewrite (getitem_nth Yhb 0 []) by lia.
  rewrite EJep0.
  unfold tbind, lift, tret in Er. rewrite Er. reflexivity.
Qed.

(** X11: with zero epochs [train] integrates nothing and returns empty
    trajectory and epoch records; the only value it reports is the loss of
    the initial state on the first [bs] samples, in [Jep]. *)
Theorem train_zero_epochs
    (odeint : (list R -> R -> result (list R)) -> list R -> list R
              -> result (list (list R)))
    (X y : list (list R)) (bs : nat) (x0 : list R)
    (a b c beta : R) (t : list R) (k : nat) :
  odeint_contract odeint ->
  Forall (fun r => length r = 2%nat) X ->
  Forall (fun r => length r = 2%nat) y ->
  length y = length X -> (1 <= length X)%nat ->
  (length X mod bs = 0)%nat -> length x0 = 12%nat ->
  exists Jep0,
    loss_batch bs x0 (firstn bs X) (firstn bs y) a b c = Ok Jep0 /\
    train odeint X y bs 0 x0 a b c beta t k
      = (Ok (mkRecords [] [] [] [] [[Jep0]]), k).
Proof.
  intros Hode HX Hy Ly HN Hmod Hx0.
  destruct (train_run odeint X y bs 0 x0 a b c beta t k
              Hode HX Hy Ly HN Hmod Hx0)
    as (Ub & Yhb & Jep0 & r1 & _ & EJ & Er & _ & Etrain).
  exists Jep0. split; [exact EJ|].
  rewrite Etrain. cbn in Er. unfold tret in Er. injection Er as <-.
  cbn. now rewrite Nat.add_0_r.
Qed.

Lemma train_zero_epochs_witness :
  exists Jep0,
    train example_odeint (repeat [1; 2] 4) (repeat [1; 0] 4) 2%nat 0%nat
      (repeat 0 12) 1 1 1 1 [0; 1; 2] 5%nat
      = (Ok (mkRecords [] [] [] [] [[Jep0]]), 5%nat).
Proof.
  destruct (train_zero_epochs example_odeint (repeat [1; 2] 4)
              (repeat [1; 0] 4) 2 (repeat 0 12) 1 1 1 1 [0; 1; 2] 5)
    as (Jep0 & _ & H).
  - exact example_odeint_contract.
  - repeat constructor.
  - repeat constructor.
  - reflexivity.
  - cbn. lia.
  - reflexivity.
  - reflexivity.
  - exists Jep0. exact H.
Defined.

Lemma vstack_rows_app (a b c : list (list R)) :
  vstack_rows a b = Ok c -> c = a ++ b.
Proof.
  unfold vstack_rows, Np.vstack2. intro H.
  destruct a as [|r a]; [now injection H as <-|].
  destruct b as [|s b]; [now injection H as <-|].
  destruct (_ =? _)%nat; [now injection H as <-|discriminate H].
Qed.

Lemma tfor_each_relates {A S : Type} (Rel : S -> S -> Prop)
    (body : S -> A -> traced S) :
  (forall s, Rel s s) ->
  (forall s1 s2 s3, Rel s1 s2 -> Rel s2 s3 -> Rel s1 s3) ->
  (forall s i k s' k', body s i k = (Ok s', k') -> Rel s s') ->
  forall l s k s' k', tfor_each l body s k = (Ok s', k') -> Rel s s'.
Proof.
  intros Hrefl Htrans Hbody. induction l as [|i l IH]; intros s k s' k' H.
  - cbn in H. unfold tret in H. injection H as <- _. apply Hrefl.
  - cbn [tfor_each] in H. unfold tbind at 1 in H.
    destruct (body s i k) as [[s1|e] k1] eqn:E; [|discriminate H].
    apply Hbody in E. apply IH in H. now apply (Htrans _ s1).
Qed.

(** A batch step leaves the epoch records alone. *)
Lemma train_batch_keeps_epoch_records
    (odeint : (list R -> R -> result (list R)) -> list R -> list R
              -> result (list (list R)))
    (bs : nat) (Ub Yhb : list (list (list R))) (a b c beta : R) (t : list R)
    (r : records) (i k : nat) (r' : records) (k' : nat) :
  train_batch odeint bs Ub Yhb a b c beta t r i k = (Ok r', k') ->
  xep r' = xep r /\ Jep r' = Jep r.
Proof.
  unfold train_batch, tbind, lift, call_odeint, tret. intro H.
  destruct (Np.getitem Ub i); [|discriminate H].
  destruct (Np.getitem Yhb i); [|discriminate H].
  destruct (Np.last_item (xf r)); [|discriminate H].
  destruct (odeint _ _ _); [|discriminate H].
  destruct (vstack_rows (xf r) _); [|discriminate H].
  destruct (Np.last_item (tf r)); [|discriminate H].
  destruct (mapM _ _); [|discriminate H].
  destruct (vstack_rows (J r) _); [|discriminate H].
  injection H as <- _. split; reflexivity.
Qed.

(** An epoch appends one row to each of the epoch records. *)
Lemma train_epoch_appends
    (odeint : (list R -> R -> result (list R)) -> list R -> list R
              -> result (list (list R)))
    (bs N_batch : nat) (Ub Yhb : list (list (list R))) (a b c beta : R)
    (t : list R) (r : records) (j k : nat) (r' : records) (k' : nat) :
  train_epoch odeint bs N_batch Ub Yhb a b c beta t r j k = (Ok r', k') ->
  (exists l, xep r' = xep r ++ l) /\ (exists l, Jep r' = Jep r ++ l).
Proof.
  unfold train_epoch. unfold tbind at 1. intro H.
  destruct (tfor_each _ _ r k) as [[r1|e] k1] eqn:E1; [|discriminate H].
  apply (tfor_each_relates
           (fun s s' => xep s' = xep s /\ Jep s' = Jep s)) in E1.
  - destruct E1 as [Ex EJ].
    unfold tbind, lift, tret in H.
    destruct (Np.last_item (xf r1)); [|discriminate H].
    destruct (vstack_rows (xep r1) _) as [xep'|] eqn:V1; [|discriminate H].
    destruct (Np.last_item (J r1)); [|discriminate H].
    destruct (vstack_rows (Jep r1) _) as [Jep'|] eqn:V2; [|discriminate H].
    injection H as <- _. cbn [xep Jep].
    apply vstack_rows_app in V1, V2. rewrite V1, V2, Ex, EJ.
    split; eexists; reflexivity.
  - intro s. now split.
  - intros s1 s2 s3 [A1 A2] [B1 B2]. split; congruence.
  - intros s i k0 s' k0'. apply train_batch_keeps_epoch_records.
Qed.

(** X12: on well-formed arguments and for at least one epoch, the returned
    epoch records start with the initial state and its loss: the first row
    of [xep] is [x0], [Jep] starts with the loss of [x0] on the first [bs]
    samples, and [Jep] has one row more than [xep], [E + 1] against [E]. *)
Theorem train_epoch_records
    (odeint : (list R -> R -> result (list R)) -> list R -> list R
              -> result (list (list R)))
    (X y : list (list R)) (bs E : nat) (x0 : list R)
    (a b c beta : R) (t : list R) (k : nat) :
  odeint_contract odeint ->
  Forall (fun r => length r = 2%nat) X ->
  Forall (fun r => length r = 2%nat) y ->
  length y = length X -> (1 <= length X)%nat ->
  (length X mod bs = 0)%nat -> length x0 = 12%nat -> (1 <= E)%nat ->
  exists r Jep0 k',
    train odeint X y bs E x0 a b c beta t k = (Ok r, k') /\
    loss_batch bs x0 (firstn bs X) (firstn bs y) a b c = Ok Jep0 /\
    nth 0 (xep r) [] = x0 /\
    nth 0 (Jep r) [] = [Jep0] /\
    length (xep r) = E /\ length (Jep r) = (E + 1)%nat.
Proof.
  intros Hode HX Hy Ly HN Hmod Hx0 HE.
  destruct (train_run odeint X y bs E x0 a b c beta t k
              Hode HX Hy Ly HN Hmod Hx0)
    as (Ub & Yhb & Jep0 & r1 & _ & EJ & Er & Hshape & Etrain).
  destruct Hshape as (_ & _ & _ & _ & _ & Lxep & _ & LJep & _).
  apply (tfor_each_relates
           (fun s s' => (exists l, xep s' = xep s ++ l) /\
                        (exists l, Jep s' = Jep s ++ l))) in Er.
  - destruct Er as [[lx Ex] [lJ EJep]]. cbn [xep Jep] in Ex, EJep.
    eexists. exists Jep0. eexists. split; [exact Etrain|].
    split; [exact EJ|]. cbn [xep Jep].
    rewrite slice_to_last_length, Lxep, LJep.
    assert (Llx : length lx = E).
    { rewrite Ex in Lxep. cbn [length app] in Lxep. lia. }
    repeat split; try lia.
    + unfold Np.slice_to_last, Np.slice. rewrite Lxep, Ex.
      cbn [app skipn]. destruct lx as [|p lx]; [cbn in Llx; lia|].
      replace (2 + E - 1 - 1)%nat with (S (E - 1)) by lia. reflexivity.
    + now rewrite EJep.
  - intro s. split; exists []; now rewrite app_nil_r.
  - intros s1 s2 s3 [[l1 A1] [l2 A2]] [[m1 B1] [m2 B2]].
    split; [exists (l1 ++ m1)|exists (l2 ++ m2)];
      rewrite ?B1, ?B2, ?A1, ?A2; now rewrite app_assoc.
  - intros s i k0 s' k0'. apply train_epoch_appends.
Qed.

Lemma train_epoch_records_witness :
  exists r,
    fst (train example_odeint (repeat [1; 2] 4) (repeat [1; 0] 4) 2%nat 3%nat
           (repeat 0 12) 1 1 1 1 [0; 1; 2] 0%nat) = Ok r /\
    nth 0 (xep r) [] = repeat 0 12 /\
    length (xep r) = 3%nat /\ length (Jep r) = 4%nat.
Proof.
  destruct (train_epoch_records example_odeint (repeat [1; 2] 4)
              (repeat [1; 0] 4) 2 3 (repeat 0 12) 1 1 1 1 [0; 1; 2] 0)
    as (r & Jep0 & k' & Er & _ & H1 & _ & H2 & H3).
  - exact example_odeint_contract.
  - repeat constructor.
  - repeat constructor.
  - reflexivity.
  - cbn. lia.
  - reflexivity.
  - reflexivity.
  - lia.
  - exists r. rewrite Er. repeat split; assumption.
Defined.

(** ** The flat state of a [PHNN] object *)




(** ** The codec on vectors of the wrong size *)

Lemma unflatten_loop_short (self : Phnn.PHNN) (rest d : Phnn.state_dict_t)
    (pre v : list R) :
  Phnn.flat_w self = pre ++ v -> (length v < total_numel rest)%nat ->
  for_each rest
    (fun (s : Phnn.state_dict_t * nat) (e : string * Phnn.tensor) =>
       let (d, k) := s in
       let key := fst e in
       let num_el := Phnn.numel (snd e) in
       t <- Phnn.view (Np.slice (Phnn.flat_w self) k (k + num_el))
                      (Phnn.shape (snd e)) ;;
       Ok (d ++ [(key, t)], (k + num_el)%nat))
    (d, length pre) = Raise RuntimeError.
Proof.
  revert d pre v. induction rest as [|[key t] rest IH]; intros d pre v Hflat Hlen.
  - cbn in Hlen. lia.
  - cbn [total_numel] in Hlen. cbn [for_each fst snd].
    destruct (Nat.le_gt_cases (Phnn.numel t) (length v)) as [Hfit|Hshort].
    + assert (Lf : length (firstn (Phnn.numel t) v) = Phnn.numel t)
        by (rewrite length_firstn; lia).
      rewrite Hflat at 1. rewrite <- (firstn_skipn (Phnn.numel t) v) at 1.
      rewrite slice_middle by exact Lf.
      rewrite view_ok by exact Lf. cbn [bind].
      replace (length pre + Phnn.numel t)%nat
        with (length (pre ++ firstn (Phnn.numel t) v))
        by (rewrite length_app, Lf; reflexivity).
      apply (IH _ (pre ++ firstn (Phnn.numel t) v) (skipn (Phnn.numel t) v)).
      * now rewrite <- app_assoc, firstn_skipn.
      * rewrite length_skipn. lia.
    + assert (Es : Np.slice (Phnn.flat_w self) (length pre)
                     (length pre + Phnn.numel t) = v).
      { rewrite Hflat. unfold Np.slice.
        rewrite skipn_app, Nat.sub_diag, skipn_all. cbn [skipn app].
        apply firstn_all2. lia. }
      rewrite Es. unfold Phnn.view.
      destruct (Nat.eqb_spec (length v) (Phnn.shape_numel (Phnn.shape t)))
        as [E|_]; [|reflexivity].
      unfold Phnn.numel in Hshort. lia.
Qed.

Lemma unflatten_ignores_tail (sd : Phnn.state_dict_t) (w extra : list R) :
  length w = total_numel sd -> unflatten sd (w ++ extra) = unflatten sd w.
Proof.
  revert w. induction sd as [|[key t] sd IH]; intros w Hw; [reflexivity|].
  cbn [total_numel] in Hw. cbn [unflatten].
  rewrite firstn_app, skipn_app.
  replace (Phnn.numel t - length w)%nat with 0%nat by lia.
  cbn [firstn skipn]. rewrite app_nil_r.
  rewrite IH; [reflexivity|]. rewrite length_skipn. lia.
Qed.

(** X14: [makeStateDict] detects a flat weight vector that is too short,
    with torch's shape error, but not one that is too long: the elements
    behind the last parameter are ignored without an error. *)
Theorem makeStateDict_sizes (self : Phnn.PHNN) (w wdot : list R) :
  ((length w < total_numel (Phnn.predictor self))%nat ->
   Phnn.makeStateDict (Phnn.with_state self w wdot) = Raise RuntimeError) /\
  (length w = total_numel (Phnn.predictor self) ->
   forall extra,
     Phnn.makeStateDict (Phnn.with_state self (w ++ extra) wdot)
     = Phnn.makeStateDict (Phnn.with_state self w wdot) /\
     Phnn.makeStateDict (Phnn.with_state self w wdot)
     = Ok (unflatten (Phnn.predictor self) w)).
Proof.
  split.
  - intro Hshort.
    pose proof (unflatten_loop_short (Phnn.with_state self w wdot)
                  (Phnn.predictor self) [] [] w eq_refl Hshort) as Hloop.
    unfold Phnn.makeStateDict.
    change (Phnn.predictor (Phnn.with_state self w wdot))
      with (Phnn.predictor self).
    run_head Hloop. reflexivity.
  - intros Hw extra.
    rewrite !makeStateDict_unflatten
      by (cbn [Phnn.with_state Phnn.predictor Phnn.flat_w];
          rewrite ?length_app; lia).
    cbn [Phnn.with_state Phnn.predictor Phnn.flat_w].
    now rewrite unflatten_ignores_tail.
Qed.

Lemma makeStateDict_sizes_witness :
  Phnn.makeStateDict (Phnn.with_state example_phnn [1; 2] []) = Raise RuntimeError /\
  Phnn.makeStateDict (Phnn.with_state example_phnn ([1; 2; 3] ++ [4; 5]) [])
  = Phnn.makeStateDict (Phnn.with_state example_phnn [1; 2; 3] []).
Proof.
  destruct (makeStateDict_sizes example_phnn [1; 2] []) as [H1 _].
  destruct (makeStateDict_sizes example_phnn [1; 2; 3] []) as [_ H2].
  split; [apply H1; cbn; lia|].
  apply (H2 eq_refl [4; 5]).
Defined.

(** ** Flattening with a wrong parameter count *)

Lemma flatten_loop_general (itr : list Phnn.tensor) (w : list R) (s m : nat) :
  for_each (seq s m)
    (fun (st : list R * list Phnn.tensor) (i : nat) =>
       p <- Phnn.next (snd st) ;;
       Ok (fst st ++ Phnn.view_flat (fst p), snd p)) (w, itr) =
  if (m <=? length itr)%nat
  then Ok (w ++ concat (map Phnn.data (firstn m itr)), skipn m itr)
  else Raise StopIteration.
Proof.
  revert itr w s. induction m as [|m IH]; intros itr w s.
  - cbn. now rewrite app_nil_r.
  - cbn [seq for_each]. destruct itr as [|p itr]; [reflexivity|].
    cbn [snd fst Phnn.next bind]. rewrite IH. cbn [length].
    change (S m <=? S (length itr))%nat with (m <=? length itr)%nat.
    destruct (m <=? length itr)%nat; [|reflexivity].
    cbn [firstn skipn map concat]. unfold Phnn.view_flat.
    now rewrite <- app_assoc.
Qed.

(** X15: [flattenParamVector] follows the stored count [lenp], not the
    predictor: without parameters, or with a count above the number of
    parameters, it raises [StopIteration]; with a smaller count it returns
    the flattening of the first [max(1, lenp)] tensors only, without an
    error. *)
Theorem flattenParamVector_counts (self : Phnn.PHNN) :
  (Phnn.predictor self = [] ->
   Phnn.flattenParamVector self = Raise StopIteration) /\
  ((length (Phnn.predictor self) < Phnn.lenp self)%nat ->
   Phnn.flattenParamVector self = Raise StopIteration) /\
  (Phnn.predictor self <> [] ->
   (Phnn.lenp self <= length (Phnn.predictor self))%nat ->
   Phnn.flattenParamVector self =
     Ok (flatten (firstn (Nat.max 1 (Phnn.lenp self)) (Phnn.predictor self)))).
Proof.
  unfold Phnn.flattenParamVector, flatten.
  destruct (Phnn.predictor self) as [|[key p] rest].
  - split; [reflexivity|]. split; [reflexivity|]. intro H. now contradiction H.
  - cbn [Phnn.parameters map snd Phnn.next bind fst length].
    rewrite flatten_loop_general, length_map.
    split; [discriminate|]. split.
    + intro H.
      destruct (Nat.leb_spec (Phnn.lenp self - 1) (length rest)); [lia|reflexivity].
    + intros _ H.
      destruct (Nat.leb_spec (Phnn.lenp self - 1) (length rest)); [|lia].
      cbn [bind fst].
      replace (Nat.max 1 (Phnn.lenp self)) with (S (Phnn.lenp self - 1)) by lia.
      cbn [firstn map snd concat]. unfold Phnn.view_flat.
      now rewrite firstn_map.
Qed.

Lemma flattenParamVector_counts_witness :
  Phnn.flattenParamVector
    (Phnn.mkPHNN example_predictor 2 3 [1; 1; 0] 3 [] [] [] [] [] [] 0)
  = Raise StopIteration /\
  Phnn.flattenParamVector
    (Phnn.mkPHNN example_predictor 2 1 [1; 1; 0] 3 [] [] [] [] [] [] 0)
  = Ok [1; 2].
Proof.
  split.
  - destruct (flattenParamVector_counts
                (Phnn.mkPHNN example_predictor 2 3 [1; 1; 0] 3 [] [] [] []
                   [] [] 0)) as (_ & H & _).
    apply H. cbn. lia.
  - destruct (flattenParamVector_counts
                (Phnn.mkPHNN example_predictor 2 1 [1; 1; 0] 3 [] [] [] []
                   [] [] 0)) as (_ & _ & H).
    apply H; [discriminate|cbn; lia].
Defined.

(** ** The gradient that [forward] assembles *)

Lemma map_add_data (gs : list Phnn.tensor) (reg : list R) :
  map Phnn.data (Phnn.map_add gs reg) =
  map (fun p => map (fun v => v + snd p) (Phnn.data (fst p))) (combine gs reg).
Proof.
  revert reg. induction gs as [|g gs IH]; intros [|r reg]; try reflexivity.
  cbn. now rewrite IH.
Qed.

Lemma map_add_length (gs : list Phnn.tensor) (reg : list R) :
  length (Phnn.map_add gs reg) = Nat.min (length gs) (length reg).
Proof.
  revert reg. induction gs as [|g gs IH]; intros [|r reg]; try reflexivity.
  cbn. now rewrite IH.
Qed.

Lemma flattenGradient_loop (dJ : list Phnn.tensor) (m s : nat) (acc : list R) :
  (s + m <= length dJ)%nat ->
  for_each (seq s m)
    (fun g i => t <- Np.getitem dJ i ;; Ok (g ++ Phnn.view_flat t)) acc =
  Ok (acc ++ concat (map Phnn.data (firstn m (skipn s dJ)))).
Proof.
  revert s acc. induction m as [|m IH]; intros s acc H.
  - cbn. now rewrite app_nil_r.
  - cbn [seq for_each].
    rewrite (getitem_nth dJ s (Phnn.mkTensor [] [])) by lia. cbn [bind].
    rewrite IH by lia.
    rewrite (skipn_cons_nth dJ s (Phnn.mkTensor [] [])) by lia.
    cbn [firstn map concat]. unfold Phnn.view_flat. now rewrite <- app_assoc.
Qed.

Lemma combine_map_r {A B C : Type} (f : B -> C) (l : list A) (l' : list B) :
  combine l (map f l') = map (fun p => (fst p, f (snd p))) (combine l l').
Proof.
  revert l'. induction l as [|a l IH]; intros [|b l']; try reflexivity.
  cbn. now rewrite IH.
Qed.

Lemma regularised_flat_zero (gs : list Phnn.tensor) (w : list R) :
  (length gs <= length w)%nat ->
  regularised_flat 0 gs w = concat (map Phnn.data gs).
Proof.
  unfold regularised_flat.
  revert w. induction gs as [|g gs IH]; intros [|x w] L;
    try reflexivity; [cbn in L; lia|].
  cbn [combine map concat fst snd]. rewrite IH by (cbn in L; lia).
  f_equal. rewrite <- (map_id (Phnn.data g)) at 2. apply map_ext.
  intro v. ring.
Qed.

Lemma gradient_then_flatten (self : Phnn.PHNN) (grads : list Phnn.tensor)
    (a b c : R) (rest : list R) :
  Phnn.hparams self = a :: b :: c :: rest ->
  (1 <= Phnn.len self)%nat ->
  (Phnn.len self <= length grads)%nat ->
  (Phnn.len self <= length (Phnn.flat_w self))%nat ->
  exists dJ,
    Phnn.gradient self grads =
      Ok (Phnn.with_gradient self dJ (Np.scale (2 * b) (Phnn.flat_wdot self))) /\
    Phnn.assignFlatGradient
      (Phnn.with_gradient self dJ (Np.scale (2 * b) (Phnn.flat_wdot self))) =
      Ok (Phnn.with_flat_gradient
            (Phnn.with_gradient self dJ
               (Np.scale (2 * b) (Phnn.flat_wdot self)))
            (regularised_flat c (firstn (Phnn.len self) grads)
               (Phnn.flat_w self))
            (Np.scale (2 * b) (Phnn.flat_wdot self))).
Proof.
  intros Hhp Hlen Hg Hw.
  unfold Phnn.gradient. rewrite Hhp. cbn [Np.getitem nth_error bind].
  destruct (Nat.ltb_spec (length grads) (Phnn.len self)) as [Hlt|_]; [lia|].
  eexists. split; [reflexivity|].
  set (dJ := Phnn.map_add (firstn (Phnn.len self) grads)
               (Np.scale (2 * c) (Phnn.flat_w self))).
  assert (LdJ : length dJ = Phnn.len self).
  { unfold dJ, Np.scale. rewrite map_add_length, length_firstn, length_map. lia. }
  assert (Ereg : concat (map Phnn.data dJ) =
                 regularised_flat c (firstn (Phnn.len self) grads)
                   (Phnn.flat_w self)).
  { unfold dJ, regularised_flat, Np.scale.
    rewrite map_add_data, combine_map_r, map_map. reflexivity. }
  assert (Eflat : Phnn.flattenGradient
                    (Phnn.with_gradient self dJ
                       (Np.scale (2 * b) (Phnn.flat_wdot self)))
                  = Ok (concat (map Phnn.data dJ),
                        Np.scale (2 * b) (Phnn.flat_wdot self))).
  { unfold Phnn.flattenGradient.
    cbn [Phnn.with_gradient Phnn.dJ Phnn.len Phnn.dJddw].
    rewrite (getitem_nth dJ 0 (Phnn.mkTensor [] [])) by lia. cbn [bind].
    rewrite flattenGradient_loop by lia. cbn [bind].
    destruct dJ as [|t0 dJ'] eqn:EdJ; [cbn in LdJ; lia|].
    cbn [nth skipn map concat]. unfold Phnn.view_flat.
    rewrite firstn_all2 by (cbn in LdJ; lia). reflexivity. }
  unfold Phnn.assignFlatGradient. rewrite Eflat. cbn [bind fst snd].
  now rewrite Ereg.
Qed.

(** X16: what [gradient] followed by [assignFlatGradient] stores, given the
    gradients of automatic differentiation.  The velocity half is
    [2*b*flat_wdot].  The weight half is the flattening of the gradient
    tensors, where the regularisation that is added to every entry of the
    [k]-th tensor is [2*c] times the [k]-th entry of the flat weight vector
    (one number per tensor), not [2*c] times the weight the entry belongs
    to; with [c = 0] it is the flattened gradient itself. *)
Theorem flat_gradient_of_forward (self : Phnn.PHNN) (grads : list Phnn.tensor)
    (a b c : R) (rest : list R) :
  Phnn.hparams self = a :: b :: c :: rest ->
  (1 <= Phnn.len self)%nat ->
  (Phnn.len self <= length grads)%nat ->
  (Phnn.len self <= length (Phnn.flat_w self))%nat ->
  exists self1 self2,
    Phnn.gradient self grads = Ok self1 /\
    Phnn.assignFlatGradient self1 = Ok self2 /\
    Phnn.flat_dJddw self2 = map (fun v => 2 * b * v) (Phnn.flat_wdot self) /\
    Phnn.flat_dJ self2 =
      regularised_flat c (firstn (Phnn.len self) grads) (Phnn.flat_w self) /\
    (c = 0 ->
     Phnn.flat_dJ self2 =
       concat (map Phnn.data (firstn (Phnn.len self) grads))).
Proof.
  intros Hhp Hlen Hg Hw.
  destruct (gradient_then_flatten self grads a b c rest Hhp Hlen Hg Hw)
    as (dJ & H1 & H2).
  eexists. eexists. split; [exact H1|]. split; [exact H2|].
  cbn [Phnn.with_flat_gradient Phnn.flat_dJ Phnn.flat_dJddw].
  split; [reflexivity|]. split; [reflexivity|].
  intros ->. apply regularised_flat_zero. rewrite length_firstn. lia.
Qed.

Lemma flat_gradient_of_forward_witness :
  exists self2,
    (self1 <- Phnn.gradient example_phnn (example_backward example_predictor) ;;
     Phnn.assignFlatGradient self1) = Ok self2 /\
    Phnn.flat_dJ self2 =
      concat (map Phnn.data (example_backward example_predictor)).
Proof.
  destruct (flat_gradient_of_forward example_phnn
              (example_backward example_predictor) 1 1 0 [] eq_refl)
    as (self1 & self2 & H1 & H2 & _ & _ & H5).
  - cbn. lia.
  - cbn. lia.
  - cbn. lia.
  - exists self2. split.
    + rewrite H1. exact H2.
    + exact (H5 eq_refl).
Defined.

(** ** The vector field of [forward] *)

Lemma zip_with_app (op : R -> R -> R) (u u' v v' : list R) :
  length u = length v ->
  Np.zip_with op (u ++ u') (v ++ v') = Np.zip_with op u v ++ Np.zip_with op u' v'.
Proof.
  revert v. induction u as [|a u IH]; intros [|b v] H; try discriminate H.
  - reflexivity.
  - cbn. f_equal. apply IH. cbn in H. lia.
Qed.

Lemma dissipation_sum (beta : R) (u v : list R) :
  length u = length v ->
  Np.sum (Np.zip_with Rmult u v)
  + Np.sum (Np.zip_with Rmult v
              (Np.zip_with (fun gw gd => -1 * gw - 1 * beta * gd) u v))
  = - beta * sum_squares v.
Proof.
  unfold sum_squares, Np.sum.
  revert v. induction u as [|a u IH]; intros [|b v] H; try discriminate H.
  - cbn. ring.
  - cbn in H. cbn. specialize (IH v ltac:(lia)). lra.
Qed.

Lemma skipn_repeat {A : Type} (a : A) (k m : nat) :
  skipn k (repeat a m) = repeat a (m - k).
Proof.
  revert m. induction k as [|k IH]; intros [|m]; try reflexivity.
  cbn. apply IH.
Qed.

Lemma firstn_repeat {A : Type} (a : A) (k m : nat) :
  (k <= m)%nat -> firstn k (repeat a m) = repeat a k.
Proof.
  revert m. induction k as [|k IH]; intros [|m] H; try reflexivity; [lia|].
  cbn. f_equal. apply IH. lia.
Qed.

Lemma set_slice_top_general (n r : nat) (src : list R) :
  length src = n ->
  Phnn.set_slice (repeat 0 (2 * n + r)) 0 n src = Ok (src ++ repeat 0 (n + r)).
Proof.
  intro Hs. unfold Phnn.set_slice, Np.slice.
  rewrite Nat.sub_0_r. cbn [skipn firstn app Nat.add].
  rewrite firstn_repeat, repeat_length, Hs, Nat.eqb_refl by lia.
  rewrite skipn_repeat. do 3 f_equal. lia.
Qed.

Lemma set_slice_bottom_general (n r : nat) (v src : list R) :
  length v = n -> length src = n ->
  Phnn.set_slice (v ++ repeat 0 (n + r)) n (2 * n) src
  = Ok (v ++ src ++ repeat 0 r).
Proof.
  intros Hv Hs. unfold Phnn.set_slice, Np.slice.
  replace (2 * n - n)%nat with n by lia.
  rewrite skipn_app, Hv, Nat.sub_diag. cbn [skipn].
  rewrite (skipn_all2 v) by lia. cbn [app].
  rewrite firstn_repeat, repeat_length, Hs, Nat.eqb_refl by lia.
  rewrite firstn_app, Hv, Nat.sub_diag. cbn [firstn].
  rewrite app_nil_r, firstn_all2 by lia.
  rewrite skipn_app, Hv, (skipn_all2 v) by lia. cbn [app].
  rewrite skipn_repeat. do 4 f_equal. lia.
Qed.

Lemma ode_calcs_general (self : Phnn.PHNN) (g : list R) (n r : nat) :
  length g = (2 * n + r)%nat -> (r < 2)%nat ->
  Phnn.ode_calcs self g =
    Ok (firstn n (skipn n g)
        ++ Np.zip_with (fun gw gd => -1 * gw - 1 * Phnn.beta self * gd)
             (firstn n g) (firstn n (skipn n g))
        ++ repeat 0 r).
Proof.
  intros Hg Hr. unfold Phnn.ode_calcs, Np.zeros.
  rewrite repeat_length, Hg.
  replace ((2 * n + r) / 2)%nat with n
    by (apply (Nat.div_unique (2 * n + r) 2 n r); [exact Hr|reflexivity]).
  assert (Ls : length (firstn n (skipn n g)) = n)
    by (rewrite length_firstn, length_skipn; lia).
  assert (Lf : length (firstn n g) = n) by (rewrite length_firstn; lia).
  assert (S1 : Np.slice g n (2 * n) = firstn n (skipn n g)).
  { unfold Np.slice. now replace (2 * n - n)%nat with n by lia. }
  assert (S0 : Np.slice g 0 n = firstn n g).
  { unfold Np.slice. now rewrite Nat.sub_0_r. }
  rewrite S1, S0, set_slice_top_general by exact Ls. cbn [bind].
  unfold Phnn.tsub, Np.sub, Np.broadcast, Np.scale.
  rewrite !length_map, Lf, Ls, Nat.eqb_refl. cbn [bind].
  rewrite set_slice_bottom_general;
    [|exact Ls|rewrite zip_with_length; rewrite !length_map; lia].
  do 3 f_equal. apply zip_with_scaled.
Qed.

(** X17: the vector field of [forward] dissipates through the velocities
    only, for a gradient of any even length: the inner product of the flat
    gradient with the derivative that the ODE step builds from it is
    [-beta] times the squared norm of the velocity half of the gradient. *)
Theorem forward_field_dissipation (self : Phnn.PHNN) (g : list R) (n : nat) :
  length g = (2 * n)%nat ->
  exists dxdt,
    Phnn.ode_calcs self g = Ok dxdt /\
    Np.dot g dxdt = Ok (- Phnn.beta self * sum_squares (skipn n g)).
Proof.
  intro Hg. rewrite (ode_calcs_halves self g n Hg).
  eexists. split; [reflexivity|].
  assert (Ls : length (skipn n g) = n) by (rewrite length_skipn; lia).
  assert (Lf : length (firstn n g) = n) by (rewrite length_firstn; lia).
  unfold Np.dot. rewrite length_app, zip_with_length by lia.
  rewrite Ls, Lf, Hg.
  replace (2 * n =? n + n)%nat with true by (symmetry; apply Nat.eqb_eq; lia).
  f_equal.
  rewrite <- (firstn_skipn n g) at 1.
  rewrite zip_with_app, sum_app by lia.
  apply dissipation_sum. lia.
Qed.

Lemma forward_field_dissipation_witness :
  exists dxdt,
    Phnn.ode_calcs example_phnn [1; 2; 3; 4] = Ok dxdt /\
    Np.dot [1; 2; 3; 4] dxdt = Ok (- 3 * sum_squares [3; 4]).
Proof.
  exact (forward_field_dissipation example_phnn [1; 2; 3; 4] 2 eq_refl).
Defined.

(** X18: the ODE step of [forward] accepts a flat gradient of any length:
    it never raises and returns a vector as long as the gradient.  For an
    odd length the last gradient entry is ignored and the last derivative
    is zero. *)
Theorem ode_calcs_any_length (self : Phnn.PHNN) (g : list R) :
  (exists dxdt,
     Phnn.ode_calcs self g = Ok dxdt /\ length dxdt = length g) /\
  (forall g' z n, g = g' ++ [z] -> length g' = (2 * n)%nat ->
     exists d, Phnn.ode_calcs self g' = Ok d /\
               Phnn.ode_calcs self g = Ok (d ++ [0])).
Proof.
  split.
  - pose proof (Nat.div_mod_eq (length g) 2) as Hdm.
    pose proof (Nat.mod_upper_bound (length g) 2 ltac:(discriminate)) as Hr.
    rewrite (ode_calcs_general self g (length g / 2) (length g mod 2))
      by (exact Hr || lia).
    eexists. split; [reflexivity|].
    rewrite !length_app, zip_with_length, repeat_length;
      rewrite !length_firstn, ?length_skipn; lia.
  - intros g' z n -> Hg'.
    rewrite (ode_calcs_halves self g' n Hg').
    rewrite (ode_calcs_general self (g' ++ [z]) n 1)
      by (rewrite ?length_app; cbn; lia).
    eexists. split; [reflexivity|].
    assert (E1 : firstn n (g' ++ [z]) = firstn n g').
    { rewrite firstn_app. replace (n - length g')%nat with 0%nat by lia.
      cbn [firstn]. now rewrite app_nil_r. }
    assert (E2 : firstn n (skipn n (g' ++ [z])) = skipn n g').
    { rewrite skipn_app. replace (n - length g')%nat with 0%nat by lia.
      cbn [skipn]. rewrite firstn_app, length_skipn.
      replace (n - (length g' - n))%nat with 0%nat by lia.
      cbn [firstn]. rewrite app_nil_r. apply firstn_all2.
      rewrite length_skipn. lia. }
    rewrite E1, E2. cbn [repeat]. now rewrite <- app_assoc.
Qed.

Lemma ode_calcs_any_length_witness :
  exists d, Phnn.ode_calcs example_phnn [1; 2] = Ok d /\
            Phnn.ode_calcs example_phnn [1; 2; 7] = Ok (d ++ [0]).
Proof.
  destruct (ode_calcs_any_length example_phnn [1; 2; 7]) as [_ H].
  exact (H [1; 2] 7 1%nat eq_refl eq_refl).
Defined.

(** ** One evaluation of [forward] *)




(** ** The two implementations of the vector field *)

Lemma row_from_entries (F : list (list R)) (i m : nat) :
  length (nth i F []) = m ->
  nth i F [] = map (fun j => entry F i j) (seq 0 m).
Proof.
  intro H. apply (nth_ext _ _ 0 0).
  - now rewrite length_map, length_seq.
  - intros k Hk. rewrite nth_map_seq by lia. reflexivity.
Qed.

Lemma sum_zip_map_seq (e : nat -> R) (g : list R) (s : nat) :
  Np.sum (Np.zip_with Rmult (map e (seq s (length g))) g) =
  Np.sum (map (fun j => e j * nth (j - s) g 0) (seq s (length g))).
Proof.
  unfold Np.sum. revert s. induction g as [|a g IH]; intro s; [reflexivity|].
  cbn [length seq map Np.zip_with fold_right].
  rewrite IH, Nat.sub_diag. cbn [nth]. f_equal. f_equal.
  apply map_ext_in. intros j Hj. apply in_seq in Hj.
  replace (j - s)%nat with (S (j - S s)) by lia. reflexivity.
Qed.

Lemma sum_pick (h : nat -> R) (k s m : nat) :
  Np.sum (map (fun j => if (j =? k)%nat then h j else 0) (seq s m)) =
  if (s <=? k)%nat && (k <? s + m)%nat then h k else 0.
Proof.
  rewrite (map_ext _ (fun j => if (j =? k)%nat && true then h k else 0)).
  - rewrite sum_indicator. now rewrite andb_true_r.
  - intro j. rewrite andb_true_r.
    destruct (Nat.eqb_spec j k) as [->|_]; reflexivity.
Qed.

Lemma sum_map_zero {A : Type} (f : A -> R) (l : list A) :
  (forall a, In a l -> f a = 0) -> Np.sum (map f l) = 0.
Proof.
  unfold Np.sum. induction l as [|a l IH]; intro H; [reflexivity|].
  cbn. rewrite (H a (or_introl eq_refl)), IH; [ring|].
  intros b Hb. apply H. now right.
Qed.

Lemma zip_with_nth (op : R -> R -> R) (u v : list R) (j : nat) :
  length u = length v -> (j < length u)%nat ->
  nth j (Np.zip_with op u v) 0 = op (nth j u 0) (nth j v 0).
Proof.
  revert v j. induction u as [|p u IH]; intros [|q v] j H Hj; simpl in *;
    try discriminate; try lia.
  destruct j as [|j]; [reflexivity|]. apply IH; lia.
Qed.

Lemma dense_field (x g : list R) (beta : R) (n : nat) :
  length x = (2 * n)%nat -> length g = (2 * n)%nat ->
  exists F,
    ham_mod_batch_F x beta = Ok F /\
    Np.matvec F g =
      Ok (skipn n g
          ++ Np.zip_with (fun gw gd => -1 * gw - 1 * beta * gd)
               (firstn n g) (skipn n g)).
Proof.
  intros Hx Hg.
  destruct (ham_mod_batch_F_blocks x beta) as (F & HF & HL & HR & HB).
  rewrite Hx, half_of_double in HL, HR, HB.
  exists F. split; [exact HF|].
  assert (Ls : length (skipn n g) = n) by (rewrite length_skipn; lia).
  assert (Lf : length (firstn n g) = n) by (rewrite length_firstn; lia).
  unfold Np.matvec.
  assert (W : Np.width F = length g).
  { destruct F as [|r F'].
    - cbn in HL. cbn. lia.
    - cbn. inversion HR; subst. lia. }
  rewrite W, Nat.eqb_refl. f_equal.
  apply (nth_ext _ _ 0 0).
  { rewrite length_map, length_app, zip_with_length by lia. lia. }
  intros i Hi. rewrite length_map, HL in Hi.
  rewrite (nth_map_lt _ _ _ []) by lia.
  assert (Lrow : length (nth i F []) = length g).
  { rewrite Hg. rewrite Forall_forall in HR. apply HR. apply nth_In. lia. }
  rewrite (row_from_entries F i (length g) Lrow).
  rewrite sum_zip_map_seq.
  rewrite (map_ext _ (fun j => entry F i j * nth j g 0))
    by (intro j; now rewrite Nat.sub_0_r).
  rewrite Hg. replace (2 * n)%nat with (n + n)%nat by lia.
  rewrite seq_app, map_app, sum_app. cbn [Nat.add].
  destruct (Nat.lt_ge_cases i n) as [Hlt|Hge].
  - rewrite app_nth1 by lia. rewrite nth_skipn.
    rewrite sum_map_zero.
    2:{ intros j Hj. apply in_seq in Hj.
        destruct (HB i j) as (E & _); [lia|lia|]. rewrite E. ring. }
    rewrite (map_ext_in _ (fun j => if (j =? n + i)%nat then nth j g 0 else 0)).
    2:{ intros j Hj. apply in_seq in Hj.
        destruct (HB i (j - n)%nat) as (_ & E & _); [lia|lia|].
        replace (n + (j - n))%nat with j in E by lia. rewrite E.
        destruct (Nat.eqb_spec i (j - n)), (Nat.eqb_spec j (n + i));
          try lia; ring. }
    rewrite sum_pick.
    replace ((n <=? n + i)%nat && (n + i <? n + n)%nat) with true.
    + ring.
    + symmetry. apply andb_true_iff. split;
        [apply Nat.leb_le|apply Nat.ltb_lt]; lia.
  - rewrite app_nth2 by lia. rewrite Ls.
    rewrite zip_with_nth by lia.
    rewrite nth_skipn, nth_firstn.
    replace (i - n <? n)%nat with true by (symmetry; apply Nat.ltb_lt; lia).
    rewrite (map_ext_in _ (fun j => if (j =? i - n)%nat
                                    then - nth j g 0 else 0)).
    2:{ intros j Hj. apply in_seq in Hj.
        destruct (HB (i - n)%nat j) as (_ & _ & E & _); [lia|lia|].
        replace (n + (i - n))%nat with i in E by lia. rewrite E.
        destruct (Nat.eqb_spec (i - n) j), (Nat.eqb_spec j (i - n));
          try lia; ring. }
    rewrite (map_ext_in
               (fun j => entry F i j * nth j g 0)
               (fun j => if (j =? i)%nat then - (beta * nth j g 0) else 0)
               (seq n n)).
    2:{ intros j Hj. apply in_seq in Hj.
        destruct (HB (i - n)%nat (j - n)%nat) as (_ & _ & _ & E); [lia|lia|].
        replace (n + (i - n))%nat with i in E by lia.
        replace (n + (j - n))%nat with j in E by lia. rewrite E.
        destruct (Nat.eqb_spec (i - n) (j - n)), (Nat.eqb_spec j i);
          try lia; ring. }
    rewrite !sum_pick.
    replace ((0 <=? i - n)%nat && (i - n <? 0 + n)%nat) with true.
    2:{ symmetry. apply andb_true_iff. split;
          [apply Nat.leb_le|apply Nat.ltb_lt]; lia. }
    replace ((n <=? i)%nat && (i <? n + n)%nat) with true.
    2:{ symmetry. apply andb_true_iff. split;
          [apply Nat.leb_le|apply Nat.ltb_lt]; lia. }
    replace (n + (i - n))%nat with i by lia. ring.
Qed.

(** X20: the two implementations compute the same vector field.  For a
    state and a gradient of any even length, multiplying the gradient by
    the matrix [F] of [numpy_simple.ham_mod_batch] gives what the slice
    assignments of [PHNN.forward] give; so on a state of length 12
    [ham_mod_batch] is the batch gradient followed by the ODE step of
    [forward]. *)
Theorem dense_F_is_forward_step (self : Phnn.PHNN) :
  (forall (x g : list R) (n : nat),
     length x = (2 * n)%nat -> length g = (2 * n)%nat ->
     exists F, ham_mod_batch_F x (Phnn.beta self) = Ok F /\
               Np.matvec F g = Phnn.ode_calcs self g) /\
  (forall (x : list R) (t : R) (bs : nat) (U Yh : list (list R)) (a b c : R),
     length x = 12%nat ->
     ham_mod_batch x t bs U Yh (Phnn.beta self) a b c =
       (dJ <- gradient_batch bs x U Yh a b c ;; Phnn.ode_calcs self dJ)).
Proof.
  split.
  - intros x g n Hx Hg.
    destruct (dense_field x g (Phnn.beta self) n Hx Hg) as (F & HF & HM).
    exists F. split; [exact HF|].
    now rewrite HM, (ode_calcs_halves self g n Hg).
  - intros x t bs U Yh a b c Hx.
    unfold ham_mod_batch.
    destruct (gradient_batch bs x U Yh a b c) as [dJ|e] eqn:G.
    + pose proof (gradient_batch_length _ _ _ _ _ _ _ _ Hx G) as LdJ.
      destruct (dense_field x dJ (Phnn.beta self) 6 Hx LdJ) as (F & HF & HM).
      rewrite HF. cbn [bind].
      now rewrite HM, (ode_calcs_halves self dJ 6 LdJ).
    + destruct (ham_mod_batch_F_blocks x (Phnn.beta self)) as (F & HF & _).
      rewrite HF. reflexivity.
Qed.

Lemma dense_F_is_forward_step_witness :
  exists F, ham_mod_batch_F [0; 0; 0; 0] 3 = Ok F /\
            Np.matvec F [1; 2; 3; 4] = Phnn.ode_calcs example_phnn [1; 2; 3; 4].
Proof.
  destruct (dense_F_is_forward_step example_phnn) as [H _].
  exact (H [0; 0; 0; 0] [1; 2; 3; 4] 2%nat eq_refl eq_refl).
Defined.

(** ** The sparse matrix of [makeFMatrix] *)

Lemma sparse_F_blocks (self : Phnn.PHNN) :
  (1 <= length (Phnn.flat_wdot self))%nat ->
  exists Fs,
    Phnn.makeFMatrix self = Ok Fs /\
    block_structure (Phnn.sparse_get Fs) (length (Phnn.flat_wdot self))
      (Phnn.beta self).
Proof.
  intro Hn. rewrite makeFMatrix_closed_form by exact Hn.
  eexists. split; [reflexivity|].
  intros i j Hi Hj. unfold Phnn.sparse_get. cbn [Phnn.indices Phnn.values].
  rewrite !combine_app_same
    by (now rewrite ?length_map, ?repeat_length, ?length_seq).
  rewrite !combine_map_repeat, !filter_app, !map_app, !sum_app.
  rewrite !sum_diagonal.
  repeat split.
  all: repeat match goal with
         | |- context [if ?b then _ else _] =>
             match b with
             | context [Nat.leb] => idtac
             | (_ =? _)%nat => idtac
             end;
             let E := fresh "E" in destruct b eqn:E
         end.
  all: try lra.
  all: exfalso.
  all: repeat match goal with
         | H : _ && _ = true |- _ => apply andb_true_iff in H; destruct H
         | H : _ && _ = false |- _ => apply andb_false_iff in H; destruct H
         | H : (_ =? _)%nat = true |- _ => apply Nat.eqb_eq in H
         | H : (_ =? _)%nat = false |- _ => apply Nat.eqb_neq in H
         | H : (_ <=? _)%nat = true |- _ => apply Nat.leb_le in H
         | H : (_ <=? _)%nat = false |- _ => apply Nat.leb_gt in H
         | H : (_ <? _)%nat = true |- _ => apply Nat.ltb_lt in H
         | H : (_ <? _)%nat = false |- _ => apply Nat.ltb_ge in H
         end.
  all: lia.
Qed.

Lemma block_structure_unique (get get' : nat -> nat -> R) (n : nat) (beta : R) :
  block_structure get n beta -> block_structure get' n beta ->
  forall i j, (i < 2 * n)%nat -> (j < 2 * n)%nat -> get i j = get' i j.
Proof.
  intros H H' i j Hi Hj.
  destruct (Nat.lt_ge_cases i n) as [Hi'|Hi'],
           (Nat.lt_ge_cases j n) as [Hj'|Hj'].
  - destruct (H i j Hi' Hj') as (E & _), (H' i j Hi' Hj') as (E' & _).
    congruence.
  - destruct (H i (j - n)%nat) as (_ & E & _); [lia|lia|].
    destruct (H' i (j - n)%nat) as (_ & E' & _); [lia|lia|].
    replace (n + (j - n))%nat with j in E, E' by lia. congruence.
  - destruct (H (i - n)%nat j) as (_ & _ & E & _); [lia|lia|].
    destruct (H' (i - n)%nat j) as (_ & _ & E' & _); [lia|lia|].
    replace (n + (i - n))%nat with i in E, E' by lia. congruence.
  - destruct (H (i - n)%nat (j - n)%nat) as (_ & _ & _ & E); [lia|lia|].
    destruct (H' (i - n)%nat (j - n)%nat) as (_ & _ & _ & E'); [lia|lia|].
    replace (n + (i - n))%nat with i in E, E' by lia.
    replace (n + (j - n))%nat with j in E, E' by lia. congruence.
Qed.

(** X21: the sparse matrix of [PHNN.makeFMatrix] and the dense matrix of
    [numpy_simple.ham_mod_batch] are the same matrix: with at least one
    velocity and a state twice as long as the velocity vector, both are
    built and every entry of the one equals the entry of the other.
    Without velocities [makeFMatrix] raises (it lists three index pairs
    and no value), where the dense construction returns the empty
    matrix. *)
Theorem makeFMatrix_matches_dense (self : Phnn.PHNN) (x : list R) :
  ((1 <= length (Phnn.flat_wdot self))%nat ->
   length x = (2 * length (Phnn.flat_wdot self))%nat ->
   exists Fs F,
     Phnn.makeFMatrix self = Ok Fs /\
     ham_mod_batch_F x (Phnn.beta self) = Ok F /\
     forall i j, (i < length x)%nat -> (j < length x)%nat ->
       Phnn.sparse_get Fs i j = entry F i j) /\
  (Phnn.flat_wdot self = [] ->
   Phnn.makeFMatrix self = Raise RuntimeError /\
   ham_mod_batch_F [] (Phnn.beta self) = Ok []).
Proof.
  split.
  - intros Hn Hx.
    destruct (sparse_F_blocks self Hn) as (Fs & HFs & HBs).
    destruct (ham_mod_batch_F_blocks x (Phnn.beta self)) as (F & HF & _ & _ & HB).
    rewrite Hx, half_of_double in HB.
    exists Fs, F. split; [exact HFs|]. split; [exact HF|].
    rewrite Hx. apply (block_structure_unique _ _ _ _ HBs HB).
  - intro H0. unfold Phnn.makeFMatrix. rewrite H0. split; reflexivity.
Qed.

Lemma makeFMatrix_matches_dense_witness :
  exists Fs F,
    Phnn.makeFMatrix example_phnn = Ok Fs /\
    ham_mod_batch_F [0; 0; 0; 0; 0; 0] 3 = Ok F /\
    Phnn.sparse_get Fs 4 4 = entry F 4 4.
Proof.
  destruct (makeFMatrix_matches_dense example_phnn [0; 0; 0; 0; 0; 0])
    as [H _].
  destruct H as (Fs & F & H1 & H2 & H3).
  - cbn. lia.
  - reflexivity.
  - exists Fs, F. split; [exact H1|]. split; [exact H2|].
    apply H3; cbn; lia.
Defined.

(** ** [pred_accuracy] on any loader *)

Lemma agreements_le (l : list (nat * nat)) : (agreements l <= length l)%nat.
Proof. unfold agreements. apply filter_length_le. Qed.

Lemma pred_accuracy_loop {input : Type}
    (predict : Phnn.state_dict_t -> input -> list (list R))
    (self : Phnn.PHNN) (tl : list (input * list nat)) (tot count : nat) :
  loader_ok predict self tl ->
  for_each tl
    (fun (s : nat * nat) (d : input * list nat) =>
       let (x, y) := d in
       idx <- mapM Phnn.argmax
                (map (map exp) (predict (Phnn.predictor self) x)) ;;
       for_each (seq 0 (length idx))
         (fun (s : nat * nat) (i : nat) =>
            let (tot, count) := s in
            p <- Np.getitem idx i ;;
            l <- Np.getitem y i ;;
            let count := if (p =? l)%nat then S count else count in
            Ok (S tot, count)) s)
    (tot, count) =
  Ok ((tot + length (loader_samples predict self tl))%nat,
      (count + agreements (loader_samples predict self tl))%nat).
Proof.
  revert tot count. induction tl as [|[x y] tl IH]; intros tot count Htl.
  - simpl. now rewrite !Nat.add_0_r.
  - inversion Htl as [|? ? (idx & Hidx & Hlen) Htl']; subst.
    cbn [fst snd] in Hidx, Hlen. unfold predicted_labels in Hidx.
    cbn [for_each]. rewrite Hidx. cbn [bind].
    run_head (accuracy_inner_loop idx y (length idx) 0 tot count
                ltac:(lia) Hlen).
    cbn [bind skipn]. rewrite IH by exact Htl'.
    unfold loader_samples. cbn [map concat fst snd].
    unfold predicted_labels. rewrite Hidx.
    rewrite length_app, agreements_app, length_combine, Nat.min_l by exact Hlen.
    f_equal. f_equal; lia.
Qed.

Lemma accuracy_inner_loop_short (idx y : list nat) (n s tot count : nat) :
  (s <= length y)%nat -> (length y < s + n)%nat -> (s + n <= length idx)%nat ->
  for_each (seq s n)
    (fun (st : nat * nat) (i : nat) =>
       let (tot, count) := st in
       p <- Np.getitem idx i ;;
       l <- Np.getitem y i ;;
       let count := if (p =? l)%nat then S count else count in
       Ok (S tot, count)) (tot, count) =
  Raise IndexError.
Proof.
  revert s tot count. induction n as [|n IH]; intros s tot count H1 H2 H3.
  - lia.
  - cbn [seq for_each].
    rewrite (getitem_nth idx s 0%nat) by lia. cbn [bind].
    destruct (Nat.eq_dec s (length y)) as [E|E].
    + rewrite (getitem_out_of_range y s) by lia. reflexivity.
    + rewrite (getitem_nth y s 0%nat) by lia. cbn [bind].
      apply IH; lia.
Qed.

Lemma for_each_app_fail {A S : Type} (l1 l2 : list A) (a : A)
    (body : S -> A -> result S) (s s' : S) (e : exn) :
  for_each l1 body s = Ok s' -> body s' a = Raise e ->
  for_each (l1 ++ a :: l2) body s = Raise e.
Proof.
  intros H1 H2. rewrite for_each_app, H1. cbn [bind for_each].
  now rewrite H2.
Qed.

(** X22: on any loader whose batches yield labels, with at least one
    sample, [pred_accuracy] returns the number of samples whose arg-max
    class equals the reference label over the number of samples, a value
    between 0 and 1; reference labels beyond the predictions of a batch are
    not looked at. *)
Theorem pred_accuracy_fraction {input : Type}
    (predict : Phnn.state_dict_t -> input -> list (list R))
    (self : Phnn.PHNN) (testloader : list (input * list nat)) :
  loader_ok predict self testloader ->
  loader_samples predict self testloader <> [] ->
  exists v,
    Phnn.pred_accuracy input predict self testloader = Ok v /\
    v = INR (agreements (loader_samples predict self testloader))
        / INR (length (loader_samples predict self testloader)) /\
    0 <= v <= 1 /\
    Phnn.pred_accuracy input predict self
      (map (fun d => (fst d, snd d ++ [0%nat])) testloader) = Ok v.
Proof.
  intros Hok Hne.
  set (l := loader_samples predict self testloader) in *.
  assert (Hpos : 0 < INR (length l)).
  { apply lt_0_INR. destruct l; [contradiction|cbn; lia]. }
  assert (Hsame : loader_samples predict self
                    (map (fun d => (fst d, snd d ++ [0%nat])) testloader) = l
                  /\ loader_ok predict self
                       (map (fun d => (fst d, snd d ++ [0%nat])) testloader)).
  { subst l. clear Hne Hpos. induction Hok as [|[x y] tl (idx & Hidx & Hlen) Htl IH].
    - split; [reflexivity|constructor].
    - destruct IH as [IH1 IH2]. cbn [fst snd] in Hidx, Hlen. split.
      + unfold loader_samples in *. cbn [map concat fst snd].
        rewrite IH1, Hidx. f_equal.
        clear -Hlen. revert y Hlen.
        induction idx as [|p idx IH]; intros y Hlen; [reflexivity|].
        destruct y as [|q y]; [cbn in Hlen; lia|].
        cbn. f_equal. apply IH. cbn in Hlen. lia.
      + cbn [map]. constructor; [|exact IH2].
        exists idx. cbn [fst snd]. split; [exact Hidx|].
        rewrite length_app. cbn. lia. }
  destruct Hsame as [Hs1 Hs2].
  eexists. split; [apply (pred_accuracy_counts predict self testloader Hok Hne)|].
  fold l. split; [reflexivity|]. split.
  - pose proof (agreements_le l) as Hle. apply le_INR in Hle.
    pose proof (pos_INR (agreements l)) as H0. split.
    + apply Rmult_le_pos; [exact H0|]. left. now apply Rinv_0_lt_compat.
    + apply (Rmult_le_reg_r (INR (length l))); [exact Hpos|].
      unfold Rdiv. rewrite Rmult_assoc, Rinv_l by lra. lra.
  - rewrite pred_accuracy_counts; [now rewrite Hs1|exact Hs2|now rewrite Hs1].
Qed.

Lemma pred_accuracy_fraction_witness :
  exists v,
    Phnn.pred_accuracy unit example_predict example_phnn [(tt, [0%nat; 0%nat])]
      = Ok v /\ 0 <= v <= 1.
Proof.
  destruct (pred_accuracy_fraction example_predict example_phnn
              [(tt, [0%nat; 0%nat])]) as (v & H1 & _ & H3 & _).
  - constructor; [|constructor]. exists [0%nat; 1%nat].
    split; [apply example_predicted_labels|cbn; lia].
  - unfold loader_samples. cbn [map fst snd concat].
    rewrite example_predicted_labels. discriminate.
  - exists v. split; assumption.
Defined.

(** X23: how [pred_accuracy] fails.  A loader without any sample (no
    batch, or only batches without rows) ends in a division by zero; a
    batch with fewer reference labels than predictions raises
    [IndexError], and a batch whose prediction fails raises that error,
    whatever the batches behind it hold. *)
Theorem pred_accuracy_failures {input : Type}
    (predict : Phnn.state_dict_t -> input -> list (list R))
    (self : Phnn.PHNN) (pre post : list (input * list nat))
    (x : input) (y : list nat) :
  loader_ok predict self pre ->
  (loader_samples predict self pre = [] ->
   Phnn.pred_accuracy input predict self pre = Raise ZeroDivisionError) /\
  (forall idx, predicted_labels predict self x = Ok idx ->
     (length y < length idx)%nat ->
     Phnn.pred_accuracy input predict self (pre ++ (x, y) :: post)
     = Raise IndexError) /\
  (forall e, predicted_labels predict self x = Raise e ->
     Phnn.pred_accuracy input predict self (pre ++ (x, y) :: post) = Raise e).
Proof.
  intro Hok.
  pose proof (pred_accuracy_loop predict self pre 0 0 Hok) as HL.
  split; [|split].
  - intro Hnil. unfold Phnn.pred_accuracy.
    run_head HL. rewrite Hnil. reflexivity.
  - intros idx Hidx Hshort. unfold Phnn.pred_accuracy.
    match goal with
    | |- bind ?m _ = _ => assert (E : m = Raise IndexError)
    end.
    { eapply for_each_app_fail; [exact HL|].
      unfold predicted_labels in Hidx. rewrite Hidx. cbn [bind].
      apply (accuracy_inner_loop_short idx y (length idx) 0); lia. }
    rewrite E. reflexivity.
  - intros e He. unfold Phnn.pred_accuracy.
    match goal with
    | |- bind ?m _ = _ => assert (E : m = Raise e)
    end.
    { eapply for_each_app_fail; [exact HL|].
      unfold predicted_labels in He. rewrite He. reflexivity. }
    rewrite E. reflexivity.
Qed.

Lemma pred_accuracy_failures_witness :
  Phnn.pred_accuracy unit example_predict example_phnn [] = Raise ZeroDivisionError /\
  Phnn.pred_accuracy unit example_predict example_phnn [(tt, [0%nat])]
  = Raise IndexError.
Proof.
  destruct (pred_accuracy_failures example_predict example_phnn [] [] tt
              [0%nat] (Forall_nil _)) as (H1 & H2 & _).
  split.
  - exact (H1 eq_refl).
  - apply (H2 [0%nat; 1%nat]).
    + apply example_predicted_labels.
    + cbn. lia.
Defined.

(** ** The penalty terms of the loss *)

Lemma with_coord_length (v : list R) (i : nat) (t : R) :
  length (with_coord v i t) = length v.
Proof.
  revert i. induction v as [|a v IH]; intros [|i]; cbn; try reflexivity.
  now rewrite IH.
Qed.

Lemma sum_squares_with_coord (v : list R) (i : nat) (t : R) :
  (i < length v)%nat ->
  Np.sum (Np.zip_with Rmult (with_coord v i t) (with_coord v i t)) =
  Np.sum (Np.zip_with Rmult v v) - nth i v 0 * nth i v 0 + t * t.
Proof.
  unfold Np.sum. revert i. induction v as [|a v IH]; intros [|i] Hi;
    cbn in Hi; try lia.
  - cbn. ring.
  - cbn [with_coord Np.zip_with fold_right nth]. rewrite IH by lia. ring.
Qed.

Lemma tdot_self (v : list R) :
  Phnn.tdot v v = Ok (Np.sum (Np.zip_with Rmult v v)).
Proof. unfold Phnn.tdot. now rewrite dot_self. Qed.

Lemma additionalTermsLoss_value (self : Phnn.PHNN) (a b c : R) (rest : list R) :
  Phnn.hparams self = a :: b :: c :: rest ->
  Phnn.additionalTermsLoss self =
    Ok (b * Np.sum (Np.zip_with Rmult (Phnn.flat_wdot self) (Phnn.flat_wdot self))
        + c * Np.sum (Np.zip_with Rmult (Phnn.flat_w self) (Phnn.flat_w self))).
Proof.
  intro Hhp. unfold Phnn.additionalTermsLoss.
  rewrite Hhp, !tdot_self. reflexivity.
Qed.

(** X24: the penalty terms [additionalTermsLoss] and the hand-written part
    of [gradient] fit together.  The penalty is returned for every state,
    and is not negative when [b] and [c] are not; the velocity gradient
    that [gradient] stores is, entry by entry, the derivative of the
    penalty in that velocity, and the derivative in the [i]-th weight is
    [2*c*w_i]. *)
Theorem penalty_gradient (self self1 : Phnn.PHNN) (grads : list Phnn.tensor)
    (a b c : R) (rest : list R) :
  Phnn.hparams self = a :: b :: c :: rest ->
  Phnn.gradient self grads = Ok self1 ->
  (exists v, Phnn.additionalTermsLoss self = Ok v /\
             (0 <= b -> 0 <= c -> 0 <= v)) /\
  (forall i, (i < length (Phnn.flat_wdot self))%nat ->
     exists f,
       (forall t, Phnn.additionalTermsLoss
                    (Phnn.with_state self (Phnn.flat_w self)
                       (with_coord (Phnn.flat_wdot self) i t)) = Ok (f t)) /\
       derivable_pt_lim f (nth i (Phnn.flat_wdot self) 0)
         (nth i (Phnn.dJddw self1) 0)) /\
  (forall i, (i < length (Phnn.flat_w self))%nat ->
     exists f,
       (forall t, Phnn.additionalTermsLoss
                    (Phnn.with_state self
                       (with_coord (Phnn.flat_w self) i t)
                       (Phnn.flat_wdot self)) = Ok (f t)) /\
       derivable_pt_lim f (nth i (Phnn.flat_w self) 0)
         (2 * c * nth i (Phnn.flat_w self) 0)).
Proof.
  intros Hhp Hg.
  assert (EdJ : Phnn.dJddw self1 = Np.scale (2 * b) (Phnn.flat_wdot self)).
  { unfold Phnn.gradient in Hg. rewrite Hhp in Hg.
    cbn [Np.getitem nth_error bind] in Hg.
    destruct (length grads <? Phnn.len self)%nat; [discriminate|].
    injection Hg as <-. reflexivity. }
  split; [|split].
  - eexists. split; [apply (additionalTermsLoss_value self a b c rest Hhp)|].
    intros Hb Hc.
    pose proof (sum_squares_nonneg (Phnn.flat_wdot self)).
    pose proof (sum_squares_nonneg (Phnn.flat_w self)).
    apply Rplus_le_le_0_compat; apply Rmult_le_pos; assumption.
  - intros i Hi.
    set (D := Np.sum (Np.zip_with Rmult (Phnn.flat_wdot self) (Phnn.flat_wdot self))).
    set (W := Np.sum (Np.zip_with Rmult (Phnn.flat_w self) (Phnn.flat_w self))).
    set (d := nth i (Phnn.flat_wdot self) 0).
    exists (fun t => b * (D - d * d + t * t) + c * W). split.
    + intro t.
      rewrite (additionalTermsLoss_value _ a b c rest) by exact Hhp.
      cbn [Phnn.with_state Phnn.flat_w Phnn.flat_wdot].
      now rewrite sum_squares_with_coord by exact Hi.
    + rewrite EdJ. unfold Np.scale.
      rewrite (nth_map_lt _ _ _ 0) by exact Hi. fold d.
      apply quadratic_derivative; [intro t; field|field].
  - intros i Hi.
    set (D := Np.sum (Np.zip_with Rmult (Phnn.flat_wdot self) (Phnn.flat_wdot self))).
    set (W := Np.sum (Np.zip_with Rmult (Phnn.flat_w self) (Phnn.flat_w self))).
    set (w := nth i (Phnn.flat_w self) 0).
    exists (fun t => b * D + c * (W - w * w + t * t)). split.
    + intro t.
      rewrite (additionalTermsLoss_value _ a b c rest) by exact Hhp.
      cbn [Phnn.with_state Phnn.flat_w Phnn.flat_wdot].
      now rewrite sum_squares_with_coord by exact Hi.
    + apply quadratic_derivative; [intro t; field|field].
Qed.

Lemma penalty_gradient_witness :
  exists v, Phnn.additionalTermsLoss example_phnn = Ok v /\
            (0 <= 1 -> 0 <= 0 -> 0 <= v).
Proof.
  destruct (penalty_gradient example_phnn
              (Phnn.with_gradient example_phnn
                 (Phnn.map_add (firstn 2 (example_backward example_predictor))
                    (Np.scale (2 * 0) [1; 2; 3]))
                 (Np.scale (2 * 1) [0; 0; 0]))
              (example_backward example_predictor) 1 1 0 [] eq_refl eq_refl)
    as [H _].
  exact H.
Defined.

(** ** [PHNN/predictors.py] *)

Lemma apply_linear_ok (l : Predictors.linear) (x : list (list R)) (d : nat) :
  Forall (fun w => length w = d) (Predictors.weight l) ->
  length (Predictors.bias l) = length (Predictors.weight l) ->
  Forall (fun r => length r = d) x ->
  exists y,
    Predictors.apply_linear l x = Ok y /\
    length y = length x /\
    Forall (fun r => length r = length (Predictors.weight l)) y.
Proof.
  intros Hw Hb Hx. unfold Predictors.apply_linear.
  induction Hx as [|r x Hr Hx (y & Hy & Ly & Fy)].
  - exists []. repeat split. constructor.
  - cbn [mapM]. rewrite Hy.
    replace (forallb (fun w => (length w =? length r)%nat) (Predictors.weight l))
      with true.
    2:{ symmetry. apply forallb_forall. intros w Hin.
        rewrite Forall_forall in Hw. apply Nat.eqb_eq.
        rewrite (Hw w Hin). now symmetry. }
    unfold Np.add, Np.broadcast. rewrite length_map, Hb, Nat.eqb_refl.
    cbn [bind].
    eexists. split; [reflexivity|]. split; [cbn; now rewrite Ly|].
    constructor; [|exact Fy].
    rewrite zip_with_length; rewrite length_map; [reflexivity|now symmetry].
Qed.

Lemma run_layers_ok (layers : list Predictors.linear) :
  forall (d : nat) (x : list (list R)) (l_x : option (list (list R))),
    layers_fit d layers -> Forall (fun r => length r = d) x ->
    exists out x',
      Predictors.run_layers layers l_x x = Ok (out, x') /\
      (layers = [] -> out = l_x) /\
      (layers <> [] ->
       exists y, out = Some y /\ length y = length x /\
                 Forall (fun r => length r = out_features layers) y).
Proof.
  induction layers as [|l layers IH]; intros d x l_x Hfit Hx.
  - exists l_x, x. split; [reflexivity|]. split; [reflexivity|].
    intro H. now contradiction H.
  - destruct Hfit as (Hw & Hb & Hfit).
    destruct (apply_linear_ok l x d Hw Hb Hx) as (y & Hy & Ly & Fy).
    cbn [Predictors.run_layers]. rewrite Hy. cbn [bind].
    destruct (IH (length (Predictors.weight l))
                 (map (map Predictors.softplus) y) (Some y) Hfit)
      as (out & x' & Hrun & Hnil & Hcons).
    { apply Forall_forall. intros r Hin. apply in_map_iff in Hin.
      destruct Hin as (r0 & <- & Hin0). rewrite length_map.
      rewrite Forall_forall in Fy. now apply Fy. }
    exists out, x'. split; [exact Hrun|]. split; [discriminate|].
    intros _. destruct layers as [|l' layers'].
    + exists y. rewrite (Hnil eq_refl). split; [reflexivity|].
      split; [exact Ly|exact Fy].
    + destruct (Hcons ltac:(discriminate)) as (y' & -> & Ly' & Fy').
      exists y'. split; [reflexivity|]. split.
      * rewrite Ly', length_map. exact Ly.
      * exact Fy'.
Qed.

Lemma sum_exp_positive (row : list R) :
  row <> [] -> 0 < Np.sum (map exp row).
Proof.
  unfold Np.sum. destruct row as [|a row]; [intro H; now contradiction H|].
  intros _. revert a. induction row as [|b row IH]; intro a.
  - cbn. pose proof (exp_pos a). lra.
  - cbn [map fold_right]. pose proof (exp_pos a). specialize (IH b).
    cbn [map fold_right] in IH. lra.
Qed.

Lemma sum_scaled (k : R) (v : list R) :
  Np.sum (map (fun a => a * k) v) = Np.sum v * k.
Proof.
  unfold Np.sum. induction v as [|a v IH]; cbn; [ring|]. rewrite IH. ring.
Qed.

Lemma log_softmax_normalised (row : list R) :
  row <> [] -> Np.sum (map exp (Predictors.log_softmax row)) = 1.
Proof.
  intro Hne. pose proof (sum_exp_positive row Hne) as Hpos.
  unfold Predictors.log_softmax. rewrite map_map.
  rewrite (map_ext _ (fun v => exp v * / Np.sum (map exp row))).
  - rewrite <- (map_map exp (fun e => e * / Np.sum (map exp row))).
    rewrite sum_scaled. field. lra.
  - intro v. unfold Rminus. rewrite exp_plus, exp_Ropp, exp_ln by exact Hpos.
    reflexivity.
Qed.

(** X25: an [MLP] whose layers fit the input returns on every batch with
    at least one row.  Without the softmax flag the result is the output
    of the last linear layer (the softplus of that layer is computed and
    dropped); with the flag it is the log-softmax of that output.  Either
    has one row per sample and one column per output of the last layer,
    and the exponentials of each log-softmax row add up to one. *)
Theorem mlp_forward_returns (layers : list Predictors.linear)
    (x : list (list R)) (d : nat) :
  layers <> [] -> layers_fit d layers ->
  x <> [] -> Forall (fun r => length r = d) x ->
  exists l_x,
    Predictors.forward (Predictors.mkMLP layers false) x
      = Predictors.Returns l_x /\
    Predictors.forward (Predictors.mkMLP layers true) x
      = Predictors.Returns (map Predictors.log_softmax l_x) /\
    length l_x = length x /\
    Forall (fun r => length r = out_features layers) l_x /\
    Forall (fun r => length r = out_features layers)
      (map Predictors.log_softmax l_x) /\
    ((1 <= out_features layers)%nat ->
     Forall (fun r => Np.sum (map exp r) = 1)
       (map Predictors.log_softmax l_x)).
Proof.
  intros Hl Hfit Hx HF.
  destruct (run_layers_ok layers d x None Hfit HF)
    as (out & x' & Hrun & _ & Hcons).
  destruct (Hcons Hl) as (y & -> & Ly & Fy).
  exists y. unfold Predictors.forward.
  cbn [Predictors.dense_layers Predictors.softmax negb]. rewrite Hrun.
  destruct x as [|r x]; [now contradiction Hx|].
  split; [reflexivity|]. split; [reflexivity|]. split; [exact Ly|].
  split; [exact Fy|]. split.
  - apply Forall_forall. intros r' Hin. apply in_map_iff in Hin.
    destruct Hin as (r0 & <- & Hin0). unfold Predictors.log_softmax.
    rewrite length_map. rewrite Forall_forall in Fy. now apply Fy.
  - intro Hout. apply Forall_forall. intros r' Hin. apply in_map_iff in Hin.
    destruct Hin as (r0 & <- & Hin0). apply log_softmax_normalised.
    rewrite Forall_forall in Fy. specialize (Fy r0 Hin0).
    intro E. rewrite E in Fy. cbn in Fy. lia.
Qed.

Lemma mlp_forward_returns_witness :
  exists l_x,
    Predictors.forward (Predictors.mkMLP example_mlp_layers true) [[1; 2]]
      = Predictors.Returns (map Predictors.log_softmax l_x) /\
    Forall (fun r => Np.sum (map exp r) = 1) (map Predictors.log_softmax l_x).
Proof.
  destruct (mlp_forward_returns example_mlp_layers [[1; 2]] 2)
    as (l_x & _ & H2 & _ & _ & _ & H6).
  - discriminate.
  - cbn. repeat split; repeat constructor.
  - discriminate.
  - repeat constructor.
  - exists l_x. split; [exact H2|]. apply H6. cbn. lia.
Defined.

(** X26: how [MLP.forward] fails.  A batch without rows cannot be viewed;
    an [MLP] without layers (built from fewer than two sizes) leaves [l_x]
    unbound; a row whose length differs from that of a weight row of the
    first layer makes the matrix product fail. *)
Theorem mlp_forward_failures (self : Predictors.MLP) (x : list (list R)) :
  Predictors.forward self [] = Predictors.Fails RuntimeError /\
  (x <> [] -> Predictors.getLength self = 0%nat ->
   Predictors.forward self x = Predictors.UnboundLocalError) /\
  (forall l layers r x' w,
     Predictors.dense_layers self = l :: layers -> x = r :: x' ->
     In w (Predictors.weight l) -> length w <> length r ->
     Predictors.forward self x = Predictors.Fails RuntimeError).
Proof.
  split; [reflexivity|]. split.
  - intros Hx Hlen. unfold Predictors.getLength in Hlen.
    apply length_zero_iff_nil in Hlen.
    unfold Predictors.forward. rewrite Hlen.
    destruct x; [now contradiction Hx|reflexivity].
  - intros l layers r x' w Hl -> Hin Hne.
    unfold Predictors.forward. rewrite Hl.
    cbn [Predictors.run_layers Predictors.apply_linear mapM].
    replace (forallb (fun w0 => (length w0 =? length r)%nat) (Predictors.weight l))
      with false; [reflexivity|].
    symmetry. apply not_true_is_false. intro H.
    rewrite forallb_forall in H. apply H in Hin.
    apply Nat.eqb_eq in Hin. contradiction.
Qed.

Lemma mlp_forward_failures_witness :
  Predictors.forward (Predictors.mkMLP [] true) [[1; 2]]
    = Predictors.UnboundLocalError /\
  Predictors.forward (Predictors.mkMLP example_mlp_layers true) [[1; 2; 3]]
    = Predictors.Fails RuntimeError.
Proof.
  split.
  - destruct (mlp_forward_failures (Predictors.mkMLP [] true) [[1; 2]])
      as (_ & H & _).
    apply H; [discriminate|reflexivity].
  - destruct (mlp_forward_failures
                (Predictors.mkMLP example_mlp_layers true) [[1; 2; 3]])
      as (_ & _ & H).
    apply (H (Predictors.mkLinear [[1; 0]; [0; 1]] [0; 0]) [] [1; 2; 3] []
             [1; 0] eq_refl eq_refl).
    + now left.
    + cbn. lia.
Defined.

Lemma argmax_from_increasing (h : R -> R) (l : list R) :
  (forall a b, a < b -> h a < h b) ->
  forall best besti i,
    Phnn.argmax_from (h best) besti i (map h l)
    = Phnn.argmax_from best besti i l.
Proof.
  intro Hh.
  assert (Hinv : forall a b, h a < h b -> a < b).
  { intros a b H. destruct (Rtotal_order a b) as [Hlt|[->|Hgt]].
    - exact Hlt.
    - lra.
    - apply Hh in Hgt. lra. }
  induction l as [|v l IH]; intros best besti i; [reflexivity|].
  cbn [map Phnn.argmax_from].
  destruct (Rlt_dec (h best) (h v)) as [H|H], (Rlt_dec best v) as [H'|H'].
  - apply IH.
  - contradiction H'. now apply Hinv.
  - contradiction H. now apply Hh.
  - apply IH.
Qed.

(** X27: the class that [pred_accuracy] predicts from the output of an
    [MLP] with softmax, the arg-max of the exponential of the log-softmax,
    is the arg-max of the output of the last linear layer: neither the
    log-softmax nor the exponential changes the predicted labels. *)
Theorem predicted_labels_of_log_softmax {input : Type}
    (raw : Phnn.state_dict_t -> input -> list (list R))
    (self : Phnn.PHNN) (x : input) :
  predicted_labels (fun sd x => map Predictors.log_softmax (raw sd x)) self x
  = mapM Phnn.argmax (raw (Phnn.predictor self) x).
Proof.
  unfold predicted_labels.
  induction (raw (Phnn.predictor self) x) as [|row rows IH]; [reflexivity|].
  cbn [map mapM]. rewrite IH. f_equal.
  destruct row as [|v row]; [reflexivity|].
  unfold Predictors.log_softmax. rewrite map_map.
  cbn [map Phnn.argmax]. f_equal.
  apply (argmax_from_increasing
           (fun a => exp (a - ln (Np.sum (map exp (v :: row)))))).
  intros a b Hab. apply exp_increasing. lra.
Qed.

(** ** [PHNN/utils.py] *)

Lemma linspace_length (a b : R) (n : nat) : length (Utils.linspace a b n) = n.
Proof.
  destruct n as [|[|n]]; try reflexivity.
  unfold Utils.linspace. now rewrite length_map, length_seq.
Qed.

Lemma linspace_nth (a b : R) (n i : nat) :
  (2 <= n)%nat -> (i < n)%nat ->
  nth i (Utils.linspace a b n) 0 = a + INR i * ((b - a) / INR (n - 1)).
Proof.
  intros Hn Hi. destruct n as [|[|n]]; try lia.
  unfold Utils.linspace. now rewrite nth_map_seq by exact Hi.
Qed.

Lemma linspace_bounds (a b : R) (n i : nat) :
  a <= b -> (i < n)%nat ->
  a <= nth i (Utils.linspace a b n) 0 <= b.
Proof.
  intros Hab Hi. destruct n as [|[|n]]; [lia| |].
  - destruct i as [|i]; [cbn; lra|lia].
  - rewrite linspace_nth by lia.
    set (k := INR (S (S n) - 1)).
    assert (Hk : 0 < k) by (apply lt_0_INR; lia).
    assert (Hi0 : 0 <= INR i) by apply pos_INR.
    assert (Hik : INR i <= k) by (apply le_INR; lia).
    assert (Hd : 0 <= (b - a) / k).
    { apply Rmult_le_pos; [lra|]. left. now apply Rinv_0_lt_compat. }
    pose proof (Rmult_le_pos _ _ Hi0 Hd) as H1.
    pose proof (Rmult_le_compat_r _ _ _ Hd Hik) as H2.
    replace (k * ((b - a) / k)) with (b - a) in H2 by (field; lra).
    lra.
Qed.

Lemma linspace_ends (a b : R) (n : nat) :
  (2 <= n)%nat ->
  nth 0 (Utils.linspace a b n) 0 = a /\
  nth (n - 1) (Utils.linspace a b n) 0 = b.
Proof.
  intro Hn. rewrite !linspace_nth by lia. split.
  - cbn [INR]. ring.
  - assert (Hk : 0 < INR (n - 1)) by (apply lt_0_INR; lia).
    field. lra.
Qed.

Lemma genpoints_row (xi : R) (yy : list R) (m s : nat) (p : list (list R)) :
  (s + m <= length yy)%nat ->
  for_each (seq s m)
    (fun p j => xi' <- Ok xi ;; yj <- Np.getitem yy j ;;
                Ok (p ++ [[xi'; yj]])) p =
  Ok (p ++ map (fun j => [xi; nth j yy 0]) (seq s m)).
Proof.
  revert s p. induction m as [|m IH]; intros s p Hs.
  - cbn. now rewrite app_nil_r.
  - cbn [seq for_each bind].
    rewrite (getitem_nth yy s 0) by lia. cbn [bind].
    etransitivity; [apply IH; lia|].
    cbn [map]. now rewrite <- app_assoc.
Qed.

Lemma genpoints_inner (xx yy : list R) (i m s : nat) (p : list (list R)) :
  (i < length xx)%nat -> (s + m <= length yy)%nat ->
  for_each (seq s m)
    (fun p j => xi <- Np.getitem xx i ;; yj <- Np.getitem yy j ;;
                Ok (p ++ [[xi; yj]])) p =
  Ok (p ++ map (fun j => [nth i xx 0; nth j yy 0]) (seq s m)).
Proof.
  intros Hi Hs. rewrite (getitem_nth xx i 0) by exact Hi.
  now apply genpoints_row.
Qed.

Lemma genpoints_outer (xx yy : list R) (n m s : nat) (p : list (list R)) :
  (s + m <= length xx)%nat -> n = length yy ->
  for_each (seq s m)
    (fun p i =>
       for_each (seq 0 n)
         (fun p j => xi <- Np.getitem xx i ;; yj <- Np.getitem yy j ;;
                     Ok (p ++ [[xi; yj]])) p) p =
  Ok (p ++ concat (map (fun i => map (fun j => [nth i xx 0; nth j yy 0])
                                    (seq 0 n)) (seq s m))).
Proof.
  intros Hs Hn. revert s p Hs. induction m as [|m IH]; intros s p Hs.
  - cbn. now rewrite app_nil_r.
  - cbn [seq for_each].
    rewrite genpoints_inner by lia. cbn [bind].
    etransitivity; [apply IH; lia|].
    cbn [map concat]. now rewrite <- app_assoc.
Qed.

Lemma nth_concat_grid {A : Type} (f : nat -> nat -> A) (d : A)
    (n m s i j : nat) :
  (i < m)%nat -> (j < n)%nat ->
  nth (i * n + j)
    (concat (map (fun i => map (f i) (seq 0 n)) (seq s m))) d = f (s + i)%nat j.
Proof.
  revert s i. induction m as [|m IH]; intros s i Hi Hj; [lia|].
  cbn [seq map concat]. destruct i as [|i].
  - rewrite app_nth1 by (rewrite length_map, length_seq; lia).
    cbn [Nat.mul Nat.add]. rewrite nth_map_seq by lia.
    now rewrite Nat.add_0_r.
  - rewrite app_nth2 by (rewrite length_map, length_seq; cbn; lia).
    rewrite length_map, length_seq.
    replace (S i * n + j - n)%nat with (i * n + j)%nat by (cbn; lia).
    rewrite IH by lia. f_equal. lia.
Qed.

Lemma length_concat_grid {A : Type} (f : nat -> nat -> A) (n m s : nat) :
  length (concat (map (fun i => map (f i) (seq 0 n)) (seq s m))) = (m * n)%nat.
Proof.
  revert s. induction m as [|m IH]; intro s; [reflexivity|].
  cbn [seq map concat]. rewrite length_app, length_map, length_seq, IH.
  reflexivity.
Qed.

(** X28: [genpoints] always returns, and returns the full grid:
    [n_points * n_points] points, the point at position [i*n_points + j]
    being ([i]-th abscissa, [j]-th ordinate) of the two evenly spaced
    subdivisions.  For ordered bounds every point lies in the rectangle;
    for at least two points per axis the first point is the corner
    [(xmin, ymin)] and the last one the corner [(xmax, ymax)]; for one
    point per axis the grid is the single point [(xmin, ymin)]. *)
Theorem genpoints_grid (xmin xmax ymin ymax : R) (n : nat) :
  exists p,
    Utils.genpoints xmin xmax ymin ymax n = Ok p /\
    length p = (n * n)%nat /\
    (forall i j, (i < n)%nat -> (j < n)%nat ->
       nth (i * n + j) p [] =
         [nth i (Utils.linspace xmin xmax n) 0;
          nth j (Utils.linspace ymin ymax n) 0]) /\
    (xmin <= xmax -> ymin <= ymax ->
     forall k, (k < n * n)%nat ->
       exists u v, nth k p [] = [u; v] /\
                   xmin <= u <= xmax /\ ymin <= v <= ymax) /\
    ((2 <= n)%nat ->
     nth 0 p [] = [xmin; ymin] /\ nth (n * n - 1) p [] = [xmax; ymax]) /\
    (n = 1%nat -> p = [[xmin; ymin]]).
Proof.
  unfold Utils.genpoints.
  set (xx := Utils.linspace xmin xmax n).
  set (yy := Utils.linspace ymin ymax n).
  assert (Lx : length xx = n) by apply linspace_length.
  assert (Ly : length yy = n) by apply linspace_length.
  rewrite (genpoints_outer xx yy n n 0 []) by lia.
  cbn [app]. eexists. split; [reflexivity|].
  assert (Hnth : forall i j, (i < n)%nat -> (j < n)%nat ->
            nth (i * n + j)
              (concat (map (fun i => map (fun j => [nth i xx 0; nth j yy 0])
                                        (seq 0 n)) (seq 0 n))) [] =
            [nth i xx 0; nth j yy 0]).
  { intros i j Hi Hj.
    now rewrite (nth_concat_grid (fun i j => [nth i xx 0; nth j yy 0])). }
  split; [apply length_concat_grid|]. split; [exact Hnth|].
  split; [|split].
  - intros Hxo Hyo k Hk.
    assert (Hn : (0 < n)%nat) by (destruct n; [cbn in Hk; lia|lia]).
    pose proof (Nat.div_mod_eq k n) as Hdm.
    pose proof (Nat.mod_upper_bound k n ltac:(lia)) as Hr.
    assert (Hq : (k / n < n)%nat) by (apply Nat.Div0.div_lt_upper_bound; lia).
    exists (nth (k / n) xx 0), (nth (k mod n) yy 0). split.
    + rewrite <- Hnth by assumption. f_equal. lia.
    + split; apply linspace_bounds; assumption.
  - intro Hn.
    destruct (linspace_ends xmin xmax n Hn) as [X0 X1].
    destruct (linspace_ends ymin ymax n Hn) as [Y0 Y1].
    fold xx in X0, X1. fold yy in Y0, Y1. split.
    + rewrite <- X0, <- Y0. apply (Hnth 0%nat 0%nat); lia.
    + rewrite <- X1, <- Y1.
      replace (n * n - 1)%nat with ((n - 1) * n + (n - 1))%nat by nia.
      apply Hnth; lia.
  - intros ->. reflexivity.
Qed.

Lemma genpoints_grid_witness :
  exists p,
    Utils.genpoints 0 1 0 1 2 = Ok p /\
    nth 0 p [] = [0; 0] /\ nth 3 p [] = [1; 1].
Proof.
  destruct (genpoints_grid 0 1 0 1 2) as (p & H1 & _ & _ & _ & H5 & _).
  exists p. split; [exact H1|]. apply H5. lia.
Defined.
